(** * EditObjectsManually: label matrices, boundary tracing and the edit session

    A shallow embedding of [cellprofiler/modules/editobjectsmanually.py].
    Label matrices are lists of rows of integers, Python exceptions are an
    explicit error type, numpy indexing is written out with its wrap-around
    of negative indices and its [IndexError]. *)

From Stdlib Require Import ZArith QArith Qminmax Qround List Lia Lqa Bool.
From stdpp Require Import base option list strings gmap sorting.

Local Open Scope Z_scope.

(** ** Python results *)

Inductive exn : Type :=
  | IndexError
  | ValueError
  | KeyError
  | TypeError
  | AttributeError
  | RuntimeError (msg : string).

(** A call returns a value, raises, or never returns. *)
Inductive result (A : Type) : Type :=
  | Ok (a : A)
  | Raise (e : exn)
  | Diverge.
Arguments Ok {A} a.
Arguments Raise {A} e.
Arguments Diverge {A}.

#[global] Instance result_ret : MRet result := fun A a => Ok a.

#[global] Instance result_bind : MBind result := fun A B k r =>
  match r with
  | Ok a => k a
  | Raise e => Raise e
  | Diverge => Diverge
  end.

#[global] Instance exn_eq_dec : EqDecision exn.
Proof. solve_decision. Defined.

#[global] Instance result_eq_dec {A} `{EqDecision A} : EqDecision (result A).
Proof. solve_decision. Defined.

Fixpoint rmapM {A B} (f : A -> result B) (l : list A) : result (list B) :=
  match l with
  | [] => Ok []
  | x :: l' => y ← f x; ys ← rmapM f l'; Ok (y :: ys)
  end.

(** ** numpy on one-dimensional integer arrays *)

Definition LabelMatrix : Type := list (list Z).

Definition flatten (m : LabelMatrix) : list Z := concat m.

(** [np.unique]: the sorted distinct values. *)
Fixpoint insert_unique (x : Z) (l : list Z) : list Z :=
  match l with
  | [] => [x]
  | y :: l' =>
      if x <? y then x :: y :: l'
      else if x =? y then y :: l'
      else y :: insert_unique x l'
  end.

Definition np_unique (l : list Z) : list Z := foldr insert_unique [] l.

(** [a[a != 0]] *)
Definition nonzero (l : list Z) : list Z := filter (fun x => x ≠ 0) l.

(** [np.max] of a non-empty array. *)
Definition np_max (l : list Z) : result Z :=
  match l with
  | [] => Raise ValueError
  | x :: l' => Ok (foldl Z.max x l')
  end.

(** [np.zeros(n, int)] *)
Definition np_zeros (n : Z) : result (list Z) :=
  if n <? 0 then Raise ValueError else Ok (replicate (Z.to_nat n) 0).

(** [np.arange(a, b)] *)
Definition np_arange (a b : Z) : list Z :=
  map (fun k => a + Z.of_nat k) (seq 0 (Z.to_nat (b - a))).

(** Position of index [i] in an array of length [n]: negative indices count
    from the end, anything else out of range is an [IndexError]. *)
Definition np_index (n : nat) (i : Z) : result nat :=
  if (0 <=? i) && (i <? Z.of_nat n) then Ok (Z.to_nat i)
  else if (- Z.of_nat n <=? i) && (i <? 0) then Ok (Z.to_nat (i + Z.of_nat n))
  else Raise IndexError.

(** [a[i]] *)
Definition np_get {A} (a : list A) (i : Z) : result A :=
  k ← np_index (length a) i;
  match a !! k with
  | Some v => Ok v
  | None => Raise IndexError
  end.

(** [a[i] = v] *)
Definition np_set (a : list Z) (i v : Z) : result (list Z) :=
  k ← np_index (length a) i; Ok (<[k := v]> a).

(** [a[idx] = vals] for index and value arrays of the same length. *)
Fixpoint np_set_many (a : list Z) (idx vals : list Z) : result (list Z) :=
  match idx, vals with
  | [], [] => Ok a
  | i :: idx', v :: vals' => a' ← np_set a i v; np_set_many a' idx' vals'
  | _, _ => Raise ValueError
  end.

(** [mapping[labels]] on a two-dimensional index array. *)
Definition np_take (mapping : list Z) (labels : LabelMatrix) : result LabelMatrix :=
  rmapM (rmapM (np_get mapping)) labels.

(** ** [EditObjectsManually.run]: the renumbering pass *)

Inductive renumber_choice : Type := R_RENUMBER | R_RETAIN.

(** Lines 203-209 of [run]. *)
Definition renumber (choice : renumber_choice) (filtered_labels : LabelMatrix)
  : result (LabelMatrix * nat) :=
  let unique_labels := np_unique (flatten filtered_labels) in
  let unique_labels := nonzero unique_labels in
  let object_count := length unique_labels in
  match choice with
  | R_RENUMBER =>
      size ← (if decide (length unique_labels = 0%nat) then Ok 1
                else m ← np_max unique_labels; Ok (m + 1));
      mapping ← np_zeros size;
      mapping ← np_set_many mapping unique_labels
                    (np_arange 1 (Z.of_nat object_count + 1));
      filtered_labels ← np_take mapping filtered_labels;
      Ok (filtered_labels, object_count)
  | R_RETAIN => Ok (filtered_labels, object_count)
  end.

(** The labels of a matrix that [run] renumbers. *)
Definition unique_labels (labels : LabelMatrix) : list Z :=
  nonzero (np_unique (flatten labels)).

(** The consecutive number of label [x] among the sorted distinct non-zero
    labels [u]: one more than the number of labels below it, and [0] for a
    value that is not a label. *)
Definition consecutive (u : list Z) (x : Z) : Z :=
  if decide (x ∈ u)
  then Z.of_nat (length (filter (fun y => y < x) u)) + 1
  else 0.

(** ** Masks and connected components *)

Definition Mask : Type := list (list bool).

Definition width {A} (m : list (list A)) : nat :=
  match m with
  | [] => 0%nat
  | r :: _ => length r
  end.

(** [m[i, j]] *)
Definition np_get2 {A} (m : list (list A)) (i j : Z) : result A :=
  row ← np_get m i; np_get row j.

(** In-range update [m[i, j] = v]; used by the component labelling only. *)
Definition set2 {A} (m : list (list A)) (i j : nat) (v : A) : list (list A) :=
  match m !! i with
  | Some row => <[i := <[j := v]> row]> m
  | None => m
  end.

(** [labels == object_number] *)
Definition eq_mask (labels : LabelMatrix) (object_number : Z) : Mask :=
  map (map (fun v => bool_decide (v = object_number))) labels.

(** [mask = np.zeros((h + 2, w + 2), bool); mask[1:-1, 1:-1] = m] *)
Definition pad_mask (m : Mask) : Mask :=
  let w := width m in
  replicate (w + 2) false
    :: map (fun r => false :: r ++ [false]) m
    ++ [replicate (w + 2) false].

(** [~mask] *)
Definition invert (m : Mask) : Mask := map (map negb) m.

(** The two structuring elements of [make_control_points], as the offsets of
    the neighbours they connect. *)
Definition structure8 : list (Z * Z) :=
  [(-1,-1); (-1,0); (-1,1); (0,-1); (0,1); (1,-1); (1,0); (1,1)].

Definition structure4 : list (Z * Z) :=
  [(-1,0); (0,-1); (0,1); (1,0)].

Definition in_bounds {A} (m : list (list A)) (i j : Z) : bool :=
  (0 <=? i) && (i <? Z.of_nat (length m)) && (0 <=? j) && (j <? Z.of_nat (width m)).

Definition at2 {A} (d : A) (m : list (list A)) (i j : Z) : A :=
  if in_bounds m i j then
    match m !! Z.to_nat i with
    | Some row => default d (row !! Z.to_nat j)
    | None => d
    end
  else d.

(** [scipy.ndimage.label(mask, structure)]: the components of the foreground
    under [structure], numbered from 1 in the raster order of their first
    pixel.  [flood] paints one component from a stack of pixels to visit. *)
Fixpoint flood (fuel : nat) (structure : list (Z * Z)) (mask : Mask)
    (k : Z) (stack : list (Z * Z)) (labels : LabelMatrix) : LabelMatrix :=
  match fuel with
  | O => labels
  | S fuel' =>
      match stack with
      | [] => labels
      | (i, j) :: rest =>
          if at2 false mask i j && (at2 0 labels i j =? 0) then
            flood fuel' structure mask k
              (map (fun d => (i + d.1, j + d.2)) structure ++ rest)
              (set2 labels (Z.to_nat i) (Z.to_nat j) k)
          else flood fuel' structure mask k rest labels
      end
  end.

Definition raster {A} (m : list (list A)) : list (Z * Z) :=
  i ← seq 0 (length m);
  j ← seq 0 (width m);
  [(Z.of_nat i, Z.of_nat j)].

Definition ndimage_label (mask : Mask) (structure : list (Z * Z))
  : LabelMatrix * Z :=
  let npix := (length mask * width mask)%nat in
  let fuel := (S (S (length structure) * npix))%nat in
  foldl (fun '(labels, count) '(i, j) =>
           if at2 false mask i j && (at2 0 labels i j =? 0) then
             (flood fuel structure mask (count + 1) [(i, j)] labels, count + 1)
           else (labels, count))
        (map (fun r => map (fun _ => 0) r) mask, 0)
        (raster mask).

(** ** Boundary tracing ([make_control_points]) *)

(** Rows [(di, dj, new direction)] of the literal in the source. *)
Definition base_order : list (Z * Z * Z) :=
  [ ( 1,  0, 5);
    ( 1, -1, 6);
    ( 0, -1, 7);
    (-1, -1, 0);
    (-1,  0, 1);
    (-1,  1, 2);
    ( 0,  1, 3);
    ( 1,  1, 4) ].

(** [traversal_order[(direction + index) % 8, ijd]] over the [mgrid]. *)
Definition traversal_order : list (list (Z * Z * Z)) :=
  map (fun direction =>
         map (fun index =>
                default (0, 0, 0) (base_order !! ((direction + index) mod 8)%nat))
             (seq 0 8))
      (seq 0 8).

(** [i[mask], j[mask]] for [mask = labels == sub_object_number]: the pixels of
    the component in raster order. *)
Definition component_pixels (labels : LabelMatrix) (sub_object_number : Z)
  : list (Z * Z) :=
  filter (fun p => at2 0 labels p.1 p.2 = sub_object_number) (raster labels).

(** [np.argmin]: the first index of the least value, for the order [ltb]. *)
Fixpoint argmin_from {A} (ltb : A -> A -> bool) (best_index : nat) (best : A)
    (k : nat) (l : list A) : nat :=
  match l with
  | [] => best_index
  | x :: l' =>
      if ltb x best then argmin_from ltb k x (S k) l'
      else argmin_from ltb best_index best (S k) l'
  end.

Definition np_argmin {A} (ltb : A -> A -> bool) (l : list A) : result nat :=
  match l with
  | [] => Raise ValueError
  | x :: l' => Ok (argmin_from ltb 0 x 1 l')
  end.

(** [topleft = np.argmin(i*i+j*j)] and the start pixel. *)
Definition topleft (pixels : list (Z * Z)) : result nat :=
  np_argmin Z.ltb (map (fun p => p.1 * p.1 + p.2 * p.2) pixels).

Definition start_pixel (pixels : list (Z * Z)) : result (Z * Z) :=
  k ← topleft pixels;
  match pixels !! k with
  | Some p => Ok p
  | None => Raise IndexError
  end.

(** What [topleft] minimises. *)
Definition cost (p : Z * Z) : Z := p.1 * p.1 + p.2 * p.2.

(** [traversal_order[direction, hits, :][0, :]] *)
Definition first_hit (mask : Mask) (ic jc direction : Z) : result (Z * Z * Z) :=
  row ← np_get traversal_order direction;
  hits ← rmapM (fun t : Z * Z * Z => np_get2 mask (ic + t.1.1) (jc + t.1.2)) row;
  match filter (fun th : (Z * Z * Z) * bool => th.2 = true) (zip row hits) with
  | (t, _) :: _ => Ok t
  | [] => Raise IndexError
  end.

(** [chain[::k]] for a positive step. *)
Fixpoint every_from {A} (skip k : nat) (l : list A) : list A :=
  match l with
  | [] => []
  | x :: l' =>
      match skip with
      | O => x :: every_from (k - 1) k l'
      | S skip' => every_from skip' k l'
      end
  end.

Definition every {A} (k : nat) (l : list A) : list A := every_from 0 k l.

(** [markevery = min(10, int((len(chain)+ 19) / 20))] *)
Definition markevery (len : nat) : Z :=
  Z.min 10 ((Z.of_nat len + 19) / 20).

(** The body of [if ic == start_i and jc == start_j:], up to the [break]. *)
Definition finish_chain (polarity : bool) (chain : list (Z * Z)) (ic jc : Z)
  : list (Z * Z) :=
  let chain := if polarity then chain else rev chain in
  let chain :=
    if decide (40 < length chain)%nat
    then every (Z.to_nat (markevery (length chain))) chain
    else chain in
  chain ++ [(ic - 1, jc - 1)].

(** The [while True:] loop.  The walk is deterministic over the pairs of a
    component pixel and a direction, so [fuel] eight times the size of the
    component separates a walk that returns to the start from one that never
    does. *)
Fixpoint walk (fuel : nat) (polarity : bool) (mask : Mask) (start_i start_j : Z)
    (ic jc direction : Z) (chain : list (Z * Z)) : result (list (Z * Z)) :=
  match fuel with
  | O => Diverge
  | S fuel' =>
      let chain := chain ++ [(ic - 1, jc - 1)] in
      t ← first_hit mask ic jc direction;
      let ic := ic + t.1.1 in
      let jc := jc + t.1.2 in
      let direction := t.2 in
      if (ic =? start_i) && (jc =? start_j)
      then Ok (finish_chain polarity chain ic jc)
      else walk fuel' polarity mask start_i start_j ic jc direction chain
  end.

(** The body of [for sub_object_number in range(1, count+1):] after the
    border test: [None] is the [continue] of a component of fewer than two
    pixels. *)
Definition trace_component (polarity : bool) (labels : LabelMatrix)
    (sub_object_number : Z) : result (option (list (Z * Z))) :=
  let mask := eq_mask labels sub_object_number in
  let pixels := component_pixels labels sub_object_number in
  if decide (length pixels < 2)%nat then Ok None
  else
    start ← start_pixel pixels;
    chain ← walk (8 * length pixels) polarity mask start.1 start.2
                 start.1 start.2 2 [];
    Ok (Some chain).

(** One round of [for polarity, structure in ...]: the chains of the object's
    outer boundaries ([polarity = true]) or of its holes. *)
Definition trace_polarity (labels : LabelMatrix) (object_number : Z)
    (polarity : bool) : result (list (list (Z * Z))) :=
  let mask := pad_mask (eq_mask labels object_number) in
  let mask := if polarity then mask else invert mask in
  let '(sub_labels, count) :=
    ndimage_label mask (if polarity then structure8 else structure4) in
  border_object ← (if polarity then Ok 0 else np_get2 sub_labels 0 0);
  chains ← rmapM (fun sub_object_number =>
                    if negb polarity && (sub_object_number =? border_object)
                    then Ok None
                    else trace_component polarity sub_labels sub_object_number)
                 (np_arange 1 (count + 1));
  Ok (omap (M := list) id (chains : list (option (list (Z * Z))))).

(** ** Chains as drawn: the [Line2D] artists of the dialog *)

(** A vertex [(x, y)] in data coordinates: [x] is the column, [y] the row.
    The float arrays of matplotlib are taken as rationals. *)
Definition point : Type := (Q * Q)%type.

Definition Qltb (a b : Q) : bool := negb (Qle_bool b a).

(** The value of [self.artists[artist]] together with the artist's data. *)
Record Artist : Type := mkArtist {
  K_LABEL : Z;
  K_EDITED : bool;
  K_OUTSIDE : bool;
  xydata : list point
}.

Definition set_data (a : Artist) (xy : list point) : Artist :=
  mkArtist (K_LABEL a) (K_EDITED a) (K_OUTSIDE a) xy.

Definition set_edited (a : Artist) (e : bool) : Artist :=
  mkArtist (K_LABEL a) e (K_OUTSIDE a) (xydata a).

Inductive edit_mode : Type :=
  | NORMAL_MODE
  | SPLIT_PICK_FIRST_MODE
  | SPLIT_PICK_SECOND_MODE.

#[global] Instance edit_mode_eq_dec : EqDecision edit_mode.
Proof. solve_decision. Defined.

(** The fields of [FilterObjectsDialog] that the handlers read and write.
    An artist is known by a number; [next_artist] is the identity the next
    [Line2D(...)] gets.  [split_pick] is [None] until the first split click
    has set [split_pick_artist] and [split_pick_index]. *)
Record Dialog : Type := mkDialog {
  orig_labels : LabelMatrix;
  labels : LabelMatrix;
  artists : gmap nat Artist;
  next_artist : nat;
  to_keep : list bool;
  mode : edit_mode;
  split_pick : option (nat * nat);
  split_artist : option (point * point);
  active : option (nat * nat)
}.

Definition with_labels (d : Dialog) (l : LabelMatrix) : Dialog :=
  mkDialog (orig_labels d) l (artists d) (next_artist d) (to_keep d) (mode d)
           (split_pick d) (split_artist d) (active d).

Definition with_artists (d : Dialog) (a : gmap nat Artist) : Dialog :=
  mkDialog (orig_labels d) (labels d) a (next_artist d) (to_keep d) (mode d)
           (split_pick d) (split_artist d) (active d).

Definition with_to_keep (d : Dialog) (k : list bool) : Dialog :=
  mkDialog (orig_labels d) (labels d) (artists d) (next_artist d) k (mode d)
           (split_pick d) (split_artist d) (active d).

Definition with_mode (d : Dialog) (m : edit_mode) : Dialog :=
  mkDialog (orig_labels d) (labels d) (artists d) (next_artist d) (to_keep d) m
           (split_pick d) (split_artist d) (active d).

Definition with_split_pick (d : Dialog) (p : option (nat * nat)) : Dialog :=
  mkDialog (orig_labels d) (labels d) (artists d) (next_artist d) (to_keep d)
           (mode d) p (split_artist d) (active d).

Definition with_split_artist (d : Dialog) (s : option (point * point)) : Dialog :=
  mkDialog (orig_labels d) (labels d) (artists d) (next_artist d) (to_keep d)
           (mode d) (split_pick d) s (active d).

Definition with_active (d : Dialog) (a : option (nat * nat)) : Dialog :=
  mkDialog (orig_labels d) (labels d) (artists d) (next_artist d) (to_keep d)
           (mode d) (split_pick d) (split_artist d) a.

(** [self.artists[new_artist] = {...}] for a fresh [Line2D]. *)
Definition add_artist (d : Dialog) (a : Artist) : Dialog :=
  mkDialog (orig_labels d) (labels d) (<[next_artist d := a]> (artists d))
           (S (next_artist d)) (to_keep d) (mode d)
           (split_pick d) (split_artist d) (active d).

(** [self.artists[artist]] *)
Definition artist_of (d : Dialog) (a : nat) : result Artist :=
  match artists d !! a with
  | Some v => Ok v
  | None => Raise KeyError
  end.

(** [Line2D(chain[:, 1], chain[:, 0], ...)] *)
Definition chain_xy (chain : list (Z * Z)) : list point :=
  map (fun p : Z * Z => (inject_Z p.2, inject_Z p.1)) chain.

(** [make_control_points]: both rounds, each chain becoming an unedited
    artist of the object. *)
Definition make_control_points (d : Dialog) (object_number : Z) : result Dialog :=
  outer ← trace_polarity (labels d) object_number true;
  let d := foldl (fun d chain =>
                    add_artist d (mkArtist object_number false true (chain_xy chain)))
                 d outer in
  holes ← trace_polarity (labels d) object_number false;
  Ok (foldl (fun d chain =>
               add_artist d (mkArtist object_number false false (chain_xy chain)))
            d holes).

(** ** Polygon to mask ([close_label]) *)

(** A pixel [(r, c)] on the closed line from [(i0, j0)] to [(i1, j1)]. *)
Definition on_line (i0 j0 i1 j1 r c : Q) : bool :=
  Qeq_bool ((r - i0) * (j1 - j0)) ((c - j0) * (i1 - i0))
  && Qle_bool (Qmin i0 i1) r && Qle_bool r (Qmax i0 i1)
  && Qle_bool (Qmin j0 j1) c && Qle_bool c (Qmax j0 j1).

(** The line crosses row [r] at a column below [c]; a line counts for the
    rows from its upper end up to, not including, its lower end. *)
Definition crosses_before (i0 j0 i1 j1 r c : Q) : bool :=
  if Qle_bool i0 r && Qltb r i1
  then Qltb ((r - i0) * (j1 - j0)) ((c - j0) * (i1 - i0))
  else if Qle_bool i1 r && Qltb r i0
  then Qltb ((c - j0) * (i1 - i0)) ((r - i0) * (j1 - j0))
  else false.

Definition lines_of (pt0i pt0j pt1i pt1j : list Q) : list (Q * Q * Q * Q) :=
  zip (zip (zip pt0i pt0j) pt1i) pt1j.

(** Modelled from the spec: [polygon_lines_to_mask] is imported from
    [cellprofiler.cpmath.cpmorphology], which is not among the sources.
    The specification (section 4.2) has the closed polyline rasterized into
    a boundary-fill mask under a consistent even-odd point-in-polygon rule:
    a pixel is set when it lies on one of the lines, or when an odd number of
    lines cross its row before it. *)
Definition polygon_lines_to_mask (pt0i pt0j pt1i pt1j : list Q)
    (shape : nat * nat) : Mask :=
  let lines := lines_of pt0i pt0j pt1i pt1j in
  map (fun r =>
         map (fun c =>
                let r := inject_Z (Z.of_nat r) in
                let c := inject_Z (Z.of_nat c) in
                existsb (fun '(i0, j0, i1, j1) => on_line i0 j0 i1 j1 r c) lines
                || Nat.odd (length (filter
                     (fun l : Q * Q * Q * Q =>
                        let '(i0, j0, i1, j1) := l in
                        crosses_before i0 j0 i1 j1 r c = true) lines)))
             (seq 0 shape.2))
      (seq 0 shape.1).

Definition shape (m : LabelMatrix) : nat * nat := (length m, width m).

(** [a[:-1]] *)
Definition but_last {A} (l : list A) : list A := take (length l - 1) l.

(** [a[1:]] *)
Definition but_first {A} (l : list A) : list A := drop 1 l.

(** The mask of one artist: [j, i = artist.get_data()] and the call of
    [polygon_lines_to_mask(i[:-1], j[:-1], i[1:], j[1:], orig_labels.shape)]. *)
Definition artist_mask (sh : nat * nat) (a : Artist) : Mask :=
  let j := map fst (xydata a) in
  let i := map snd (xydata a) in
  polygon_lines_to_mask (but_last i) (but_last j) (but_first i) (but_first j) sh.

(** [mask[m1] = ~mask[m1]] *)
Definition flip_mask (mask m1 : Mask) : Mask :=
  zip_with (zip_with xorb) mask m1.

(** [mask = np.zeros(self.orig_labels.shape, bool)] and the loop over
    [my_artists]. *)
Definition polygons_mask (sh : nat * nat) (my_artists : list Artist) : Mask :=
  foldl (fun mask a => flip_mask mask (artist_mask sh a))
        (replicate sh.1 (replicate sh.2 false)) my_artists.

(** [self.labels[self.labels == label] = 0; self.labels[mask] = label] *)
Definition write_label (labels : LabelMatrix) (mask : Mask) (label : Z)
  : LabelMatrix :=
  zip_with (zip_with (fun v (b : bool) =>
                        if b then label else if v =? label then 0 else v))
           labels mask.

(** [[artist for artist, data in self.artists.items()
      if data[self.K_LABEL] == label]] *)
Definition my_artists (d : Dialog) (label : Z) : list (nat * Artist) :=
  filter (fun kv : nat * Artist => K_LABEL kv.2 = label)
         (map_to_list (artists d)).

(** The mask that [close_label] builds from the chains of a label. *)
Definition label_mask (d : Dialog) (label : Z) : Mask :=
  polygons_mask (shape (orig_labels d)) (map snd (my_artists d label)).

(** [close_label]; the drawing calls have no part in the state. *)
Definition close_label (d : Dialog) (label : Z) : Dialog :=
  let mine := my_artists d label in
  let d :=
    if existsb (fun kv : nat * Artist => K_EDITED kv.2) mine
    then with_labels d (write_label (labels d) (label_mask d label) label)
    else d in
  with_artists d (foldl (fun m kv => delete kv.1 m) (artists d) mine).

(** No chain of the label is marked edited. *)
Definition untouched (d : Dialog) (label : Z) : Prop :=
  forall k a, artists d !! k = Some a -> K_LABEL a = label -> K_EDITED a = false.

(** The chains of the dialog have a vertex besides the closing point. *)
Definition drawable (d : Dialog) : Prop :=
  forall k a, artists d !! k = Some a -> (2 <= length (xydata a))%nat.

(** ** Events and hit testing *)

Inductive axes : Type := orig_axes | keep_axes | remove_axes | info_axes.

#[global] Instance axes_eq_dec : EqDecision axes.
Proof. solve_decision. Defined.

(** A matplotlib event: [x], [y] in display coordinates, [xdata], [ydata] in
    data coordinates ([None] outside the axes). *)
Record Event : Type := mkEvent {
  ev_x : Q;
  ev_y : Q;
  xdata : option Q;
  ydata : option Q;
  inaxes : option axes;
  button : Z
}.

(** What the handlers ask of matplotlib: the data-to-display transform of
    the artists and the containment tests of [Path]. *)
Class Canvas : Type := mkCanvas {
  transform : point -> point;
  contains_point : list point -> point -> bool;
  contains_path : list point -> list point -> bool
}.

(** A canvas at scale one: display coordinates are the data coordinates and
    containment is the even-odd rule. *)
Definition inside (path : list point) (p : point) : bool :=
  let i := map snd path in
  let j := map fst path in
  Nat.odd (length (filter
    (fun l : Q * Q * Q * Q =>
       let '(i0, j0, i1, j1) := l in
       crosses_before i0 j0 i1 j1 p.2 p.1 = true)
    (lines_of (but_last i) (but_last j) (but_first i) (but_first j)))).

Definition unit_canvas : Canvas :=
  mkCanvas (fun p => p) inside (fun outer inner => forallb (inside outer) inner).

(** [epsilon = 5], compared with the squared distance. *)
Definition epsilon : Q := 5.

Definition dist2 (p : point) (x y : Q) : Q :=
  ((p.1 - x) * (p.1 - x) + (p.2 - y) * (p.2 - y))%Q.

(** One turn of the loop of [get_control_point].  The distances
    [np.sqrt(...)] are compared through their squares. *)
Definition control_point_step `{Canvas} (event : Event)
    (best : option (Q * nat * nat)) (kv : nat * Artist)
  : result (option (Q * nat * nat)) :=
  let data := but_last (xydata kv.2) in
  let d := map (fun p => dist2 (transform p) (ev_x event) (ev_y event)) data in
  idx ← np_argmin Qltb d;
  match d !! idx with
  | None => Raise IndexError
  | Some di =>
      if Qltb di (epsilon * epsilon)
         && match best with
            | None => true
            | Some (best_d, _, _) => Qltb di best_d
            end
      then Ok (Some (di, kv.1, idx))
      else Ok best
  end.

Fixpoint control_point_loop `{Canvas} (event : Event)
    (best : option (Q * nat * nat)) (l : list (nat * Artist))
  : result (option (Q * nat * nat)) :=
  match l with
  | [] => Ok best
  | kv :: l' =>
      best ← control_point_step event best kv;
      control_point_loop event best l'
  end.

(** [get_control_point]: the artist and the index of the control point under
    the cursor, or [None] for [None, None]. *)
Definition get_control_point `{Canvas} (d : Dialog) (event : Event)
  : result (option (nat * nat)) :=
  best ← control_point_loop event None (map_to_list (artists d));
  Ok (match best with
      | None => None
      | Some (_, a, idx) => Some (a, idx)
      end).

(** The best candidate of the hit test is a vertex of a chain of [l] other
    than its closing point. *)
Definition hit_in (l : list (nat * Artist)) (best : option (Q * nat * nat)) : Prop :=
  match best with
  | None => True
  | Some (_, k, i) =>
      exists a, (k, a) ∈ l /\ (i < length (xydata a) - 1)%nat
  end.

(** ** Editing handlers *)

(** [delete_control_point] *)
Definition delete_control_point `{Canvas} (d : Dialog) (event : Event)
  : result Dialog :=
  hit ← get_control_point d event;
  match hit with
  | None => Ok d
  | Some (best_artist, best_index) =>
      a ← artist_of d best_artist;
      let l := xydata a in
      if decide (length l < 4)%nat
      then Ok (with_artists d (delete best_artist (artists d)))
      else
        let l := take best_index l ++ drop (S best_index) l in
        Ok (with_artists d
              (<[best_artist := set_edited (set_data a l) true]> (artists d)))
  end.

(** [np.cos(angles)] and [np.sin(angles)] for
    [angles = np.pi * 2 * np.arange(13) / 12], to sixteen decimal places. *)
Definition cos_angles : list Q :=
  map (fun n => n # 10000000000000000)
    [10000000000000000; 8660254037844387; 5000000000000001; 1;
     -4999999999999998; -8660254037844387; -10000000000000000;
     -8660254037844388; -5000000000000004; -2; 5000000000000001;
     8660254037844384; 10000000000000000].

Definition sin_angles : list Q :=
  map (fun n => n # 10000000000000000)
    [0; 4999999999999999; 8660254037844386; 10000000000000000;
     8660254037844387; 4999999999999999; 1; -4999999999999997;
     -8660254037844384; -10000000000000000; -8660254037844386;
     -5000000000000004; -2].

(** [a[a < 0] = 0] and [a[a >= n] = n - 1] *)
Definition clamp_low (a : list Q) : list Q :=
  map (fun v => if Qltb v 0 then 0%Q else v) a.

Definition clamp_high (n : nat) (a : list Q) : list Q :=
  map (fun v => if Qle_bool (inject_Z (Z.of_nat n)) v
                then inject_Z (Z.of_nat n - 1) else v) a.

(** [new_object] *)
Definition new_object (d : Dialog) (event : Event) : result Dialog :=
  let object_number := length (to_keep d) in
  let d := with_to_keep d (to_keep d ++ [true]) in
  match xdata event, ydata event with
  | Some ex, Some ey =>
      let x := map (fun c => (20 * c + ex)%Q) cos_angles in
      let y := map (fun s => (20 * s + ey)%Q) sin_angles in
      let x := clamp_low x in
      let x := clamp_high (width (labels d)) x in
      let y := clamp_high (length (labels d)) y in
      Ok (add_artist d
            (mkArtist (Z.of_nat object_number) true true (zip x y)))
  | _, _ => Raise TypeError
  end.

(** [remove_artists] *)
Definition remove_artists (d : Dialog) : Dialog := with_artists d ∅.

(** [enter_split_mode] and [exit_split_mode] *)
Definition enter_split_mode (d : Dialog) : Dialog :=
  with_mode d SPLIT_PICK_FIRST_MODE.

Definition exit_split_mode (d : Dialog) : Dialog :=
  let d :=
    match mode d with
    | SPLIT_PICK_SECOND_MODE => with_split_artist d None
    | _ => d
    end in
  with_mode d NORMAL_MODE.

(** [on_split_first_click] *)
Definition on_split_first_click `{Canvas} (d : Dialog) (event : Event)
  : result Dialog :=
  if decide (inaxes event = Some orig_axes) then
    hit ← get_control_point d event;
    match hit with
    | None => Ok d
    | Some (pick_artist, pick_index) =>
        a ← artist_of d pick_artist;
        p ← np_get (xydata a) (Z.of_nat pick_index);
        Ok (with_mode
              (with_split_artist
                 (with_split_pick d (Some (pick_artist, pick_index)))
                 (Some (p, p)))
              SPLIT_PICK_SECOND_MODE)
    end
  else Ok d.

(** [ok_to_split]; [pick_artist] is [None] when the hit test found nothing,
    and [self.artists[None]] is a [KeyError]. *)
Definition ok_to_split (d : Dialog) (pick_artist : option nat) (pick_index : nat)
  : result bool :=
  match split_pick d with
  | None => Raise AttributeError
  | Some (split_pick_artist, split_pick_index) =>
      match pick_artist with
      | None => Raise KeyError
      | Some pick_artist =>
          pick ← artist_of d pick_artist;
          first ← artist_of d split_pick_artist;
          if decide (K_LABEL pick ≠ K_LABEL first) then Ok false
          else if decide (pick_artist = split_pick_artist) then
            let min_index := Nat.min pick_index split_pick_index in
            let max_index := Nat.max pick_index split_pick_index in
            if decide (Z.of_nat max_index - Z.of_nat min_index < 2) then Ok false
            else if decide (Z.of_nat (length (xydata pick)) - Z.of_nat max_index <= 2
                            ∧ min_index = 0%nat)
            then Ok false
            else Ok true
          else if decide (K_OUTSIDE pick = K_OUTSIDE first) then Ok false
          else Ok true
      end
  end.

(** [a[s:e]] for indices inside the array. *)
Definition slice {A} (s e : nat) (l : list A) : list A := take (e - s) (drop s l).

Definition midpoint (p q : point) : point :=
  (((p.1 + q.1) / 2)%Q, ((p.2 + q.2) / 2)%Q).

(** The two border points of one chain in the cross-chain splice:
    [(a[idx_left, :]+a[idx, :])/2] and [(a[idx_right, :]+a[idx, :])/2]. *)
Definition border_points (a : list point) (idx : nat) : result (point * point) :=
  let n := Z.of_nat (length a) in
  let idx_left := if decide (idx = 0%nat) then n - 2 else Z.of_nat idx - 1 in
  let idx_right := if decide (Z.of_nat idx = n - 2) then 0 else Z.of_nat idx + 1 in
  here ← np_get a (Z.of_nat idx);
  left ← np_get a idx_left;
  right ← np_get a idx_right;
  Ok (midpoint left here, midpoint right here).

(** [xy[-1, :] = xy[0, :]] *)
Definition close_xy (xy : list point) : result (list point) :=
  match xy with
  | [] => Raise IndexError
  | p :: _ => Ok (<[(length xy - 1)%nat := p]> xy)
  end.

(** The same-chain branch of [on_split_second_click]. *)
Definition split_chain (d : Dialog) (pick_artist pick_index split_pick_index : nat)
  : result Dialog :=
  a ← artist_of d pick_artist;
  let xy := xydata a in
  let idx0 := Nat.min pick_index split_pick_index in
  let idx1 := Nat.max pick_index split_pick_index in
  let xy0 := take (idx0 + 1) xy ++ drop idx1 xy in
  let xy1 := slice idx0 (idx1 + 1) xy ++ slice idx0 (idx0 + 1) xy in
  let new_object_number := Z.of_nat (length (to_keep d)) in
  let old_object_number := K_LABEL a in
  let d := with_artists d (<[pick_artist := set_data a xy0]> (artists d)) in
  let d := add_artist d (mkArtist new_object_number true (K_OUTSIDE a) xy1) in
  let d := with_artists d
             (<[pick_artist := set_edited (set_data a xy0) true]> (artists d)) in
  let d := with_to_keep d (to_keep d ++ [true]) in
  let d := close_label d old_object_number in
  let d := close_label d new_object_number in
  d ← make_control_points d old_object_number;
  make_control_points d new_object_number.

(** The cross-chain branch of [on_split_second_click]. *)
Definition splice_chains `{Canvas} (d : Dialog)
    (pick_artist pick_index split_pick_artist split_pick_index : nat)
  : result Dialog :=
  first ← artist_of d split_pick_artist;
  pick ← artist_of d pick_artist;
  let '(outside_artist, inside_artist, outside_index, inside_index, xy0, xy1) :=
    if contains_path (xydata first) (xydata pick)
    then (split_pick_artist, pick_artist, split_pick_index, pick_index,
          xydata first, xydata pick)
    else (pick_artist, split_pick_artist, pick_index, split_pick_index,
          xydata pick, xydata first) in
  outer ← border_points xy0 outside_index;
  inner ← border_points xy1 inside_index;
  let xy := take outside_index xy0
            ++ [outer.1; inner.2]
            ++ slice (inside_index + 1) (length xy1 - 1) xy1
            ++ take inside_index xy1
            ++ [inner.1; outer.2]
            ++ drop (outside_index + 1) xy0 in
  xy ← close_xy xy;
  outside ← artist_of d outside_artist;
  Ok (with_artists d
        (delete inside_artist
           (<[outside_artist := set_data outside xy]> (artists d)))).

(** [on_split_second_click] *)
Definition on_split_second_click `{Canvas} (d : Dialog) (event : Event)
  : result Dialog :=
  if decide (inaxes event = Some orig_axes) then
    hit ← get_control_point d event;
    ok ← ok_to_split d (fst <$> hit) (from_option snd 0%nat hit);
    if negb ok then Ok d
    else
      match hit, split_pick d with
      | Some (pick_artist, pick_index), Some (split_pick_artist, split_pick_index) =>
          d ← (if decide (pick_artist = split_pick_artist)
               then split_chain d pick_artist pick_index split_pick_index
               else splice_chains d pick_artist pick_index
                      split_pick_artist split_pick_index);
          Ok (exit_split_mode d)
      | _, _ => Raise KeyError
      end
  else Ok d.

(** ** Clicks, keys and buttons *)

(** [int(v)] of a float: truncation towards zero. *)
Definition int_of (v : Q) : Z := if Qltb v 0 then Qceiling v else Qfloor v.

(** [a[i] = v] on the keep/remove array. *)
Definition set_keep (k : list bool) (i : Z) (f : bool -> bool) : result (list bool) :=
  n ← np_index (length k) i;
  match k !! n with
  | Some b => Ok (<[n := f b]> k)
  | None => Raise IndexError
  end.

(** The loop [for artist in self.artists: ... contains_point ...] of
    [on_click]: the label of the first artist around the cursor. *)
Definition artist_around `{Canvas} (d : Dialog) (p : point) : option Z :=
  K_LABEL <$> (snd <$> head (filter (fun kv : nat * Artist =>
                                       contains_point (xydata kv.2) p = true)
                                    (map_to_list (artists d)))).

(** The end of [on_click], from [x = int(event.xdata)]. *)
Definition click_object (d : Dialog) (event : Event) : result Dialog :=
  match xdata event, ydata event with
  | Some ex, Some ey =>
      let x := int_of ex in
      let y := int_of ey in
      if decide (x < 0 ∨ x >= Z.of_nat (width (orig_labels d))
                 ∨ y < 0 ∨ y >= Z.of_nat (length (orig_labels d)))
      then Ok d
      else
        lnum ← np_get2 (labels d) y x;
        if decide (lnum = 0) then Ok d
        else if decide (button event = 1) then
          k ← set_keep (to_keep d) lnum
                (match inaxes event with
                 | Some orig_axes => negb
                 | Some keep_axes => fun _ => false
                 | _ => fun _ => true
                 end);
          Ok (with_to_keep d k)
        else if decide (button event = 3) then make_control_points d lnum
        else Ok d
  | _, _ => Raise TypeError
  end.

(** [on_click] *)
Definition on_click `{Canvas} (d : Dialog) (event : Event) : result Dialog :=
  match inaxes event with
  | Some info_axes | None => Ok d
  | Some ax =>
      match mode d with
      | SPLIT_PICK_FIRST_MODE => on_split_first_click d event
      | SPLIT_PICK_SECOND_MODE => on_split_second_click d event
      | NORMAL_MODE =>
          if decide (ax = orig_axes ∧ button event = 1) then
            hit ← get_control_point d event;
            match hit with
            | Some best => Ok (with_active d (Some best))
            | None => click_object d event
            end
          else if decide (ax = orig_axes ∧ button event = 3) then
            match xdata event, ydata event with
            | Some ex, Some ey =>
                match artist_around d (ex, ey) with
                | Some label => Ok (close_label d label)
                | None => click_object d event
                end
            | _, _ => Raise TypeError
            end
          else click_object d event
      end
  end.

(** [on_mouse_button_up] *)
Definition on_mouse_button_up (d : Dialog) : Dialog := with_active d None.

(** The keys of [on_key_down] whose handlers are modelled. *)
Inductive key : Type := key_d | key_n | key_s | key_escape.

(** [on_key_down] *)
Definition on_key_down `{Canvas} (d : Dialog) (k : key) (event : Event)
  : result Dialog :=
  match mode d with
  | NORMAL_MODE =>
      match k with
      | key_d => delete_control_point d event
      | key_n => new_object d event
      | key_s => Ok (enter_split_mode d)
      | key_escape => Ok (remove_artists d)
      end
  | _ =>
      match k with
      | key_escape => Ok (exit_split_mode d)
      | _ => Ok d
      end
  end.

(** [self.to_keep[1:] = ...] of [on_keep], [on_remove] and [on_toggle]. *)
Definition set_keep_from_1 (f : bool -> bool) (k : list bool) : list bool :=
  take 1 k ++ map f (drop 1 k).

Definition on_keep (d : Dialog) : Dialog :=
  with_to_keep d (set_keep_from_1 (fun _ => true) (to_keep d)).

Definition on_remove (d : Dialog) : Dialog :=
  with_to_keep d (set_keep_from_1 (fun _ => false) (to_keep d)).

Definition on_toggle (d : Dialog) : Dialog :=
  with_to_keep d (set_keep_from_1 negb (to_keep d)).

(** [on_reset] *)
Definition on_reset (d : Dialog) : Dialog :=
  with_artists (with_labels d (orig_labels d)) ∅.

(** ** The modal session and [filter_objects] *)

(** [FilterObjectsDialog.__init__] *)
Definition init_dialog (orig_labels : LabelMatrix) : result Dialog :=
  m ← np_max (flatten orig_labels);
  if m + 1 <? 0 then Raise ValueError
  else Ok (mkDialog orig_labels orig_labels ∅ 0
             (replicate (Z.to_nat (m + 1)) true) NORMAL_MODE None None None).

(** What the user does while the dialog is shown. *)
Inductive action : Type :=
  | click (event : Event)
  | mouse_up
  | key_down (k : key) (event : Event)
  | keep_all
  | remove_all
  | reverse_selection
  | reset.

Definition handle `{Canvas} (d : Dialog) (a : action) : result Dialog :=
  match a with
  | click event => on_click d event
  | mouse_up => Ok (on_mouse_button_up d)
  | key_down k event => on_key_down d k event
  | keep_all => Ok (on_keep d)
  | remove_all => Ok (on_remove d)
  | reverse_selection => Ok (on_toggle d)
  | reset => Ok (on_reset d)
  end.

Fixpoint handle_all `{Canvas} (d : Dialog) (script : list action) : result Dialog :=
  match script with
  | [] => Ok d
  | a :: script' => d ← handle d a; handle_all d script'
  end.

(** The button that ends the modal loop: [EndModal(wx.OK)] of Done,
    [EndModal(wx.CANCEL)] of Cancel. *)
Inductive modal_result : Type := wx_OK | wx_CANCEL.

(** [dialog_box.ShowModal()] for a user who performs [script] and then
    presses the button [final]. *)
Definition ShowModal `{Canvas} (d : Dialog) (script : list action)
    (final : modal_result) : result (Dialog * modal_result) :=
  d ← handle_all d script; Ok (d, final).

(** [filter_objects] *)
Definition filter_objects `{Canvas} (orig_labels : LabelMatrix)
    (script : list action) (final : modal_result) : result LabelMatrix :=
  dialog_box ← init_dialog orig_labels;
  r ← ShowModal dialog_box script final;
  match r.2 with
  | wx_OK => Ok (labels r.1)
  | wx_CANCEL => Raise (RuntimeError "User cancelled EditObjectsManually")
  end.

(** ** [run] *)

(** [workspace.frame] is [None] in a headless run; with a frame the user is
    given by the script and the final button. *)
Definition Frame : Type := (list action * modal_result)%type.

(** [run], up to the objects handed to the object set: the label matrix
    [filtered_objects.segmented] and [object_count]. *)
Definition run `{Canvas} (choice : renumber_choice) (frame : option Frame)
    (orig_labels : LabelMatrix) : result (LabelMatrix * nat) :=
  filtered_labels ←
    match frame with
    | None => Ok orig_labels
    | Some (script, final) => filter_objects orig_labels script final
    end;
  renumber choice filtered_labels.

(** ** Tracing and rasterizing an object *)

(** The chains of an object traced in a fresh dialog and rasterized as
    [close_label] does. *)
Definition trace_and_rasterize (labels : LabelMatrix) (object_number : Z)
  : result Mask :=
  d ← init_dialog labels;
  d ← make_control_points d object_number;
  Ok (label_mask d object_number).

(** The number of pixels of an object. *)
Definition pixel_count (labels : LabelMatrix) (object_number : Z) : nat :=
  length (filter (fun v => v = object_number) (flatten labels)).

(** The footprint is one piece under 4-connectivity: no part of it hangs on
    a diagonal contact only. *)
Definition four_connected (labels : LabelMatrix) (object_number : Z) : Prop :=
  (ndimage_label (pad_mask (eq_mask labels object_number)) structure4).2 = 1.

(** No hole: the background around the padded footprint is one piece. *)
Definition hole_free (labels : LabelMatrix) (object_number : Z) : Prop :=
  (ndimage_label (invert (pad_mask (eq_mask labels object_number))) structure4).2 = 1.

#[global] Instance four_connected_dec l n : Decision (four_connected l n).
Proof. unfold four_connected. apply _. Defined.

#[global] Instance hole_free_dec l n : Decision (hole_free l n).
Proof. unfold hole_free. apply _. Defined.

(** All label matrices of a given shape with labels [0] and [1]. *)
Fixpoint binary_rows (w : nat) : list (list Z) :=
  match w with
  | O => [[]]
  | S w' => r ← binary_rows w'; [0 :: r; 1 :: r]
  end.

Fixpoint binary_matrices (h w : nat) : list LabelMatrix :=
  match h with
  | O => [[]]
  | S h' => m ← binary_matrices h' w; r ← binary_rows w; [r :: m]
  end.

(** The round trip of one label matrix with the object 1, under the
    conditions on its footprint. *)
Definition round_trips (labels : LabelMatrix) : bool :=
  bool_decide ((2 <= pixel_count labels 1)%nat -> four_connected labels 1 ->
               hole_free labels 1 ->
               trace_and_rasterize labels 1 = Ok (eq_mask labels 1)).

(** ** Example inputs *)

(** A filled square object of side [n]. *)
Definition square (n : nat) : LabelMatrix := replicate n (replicate n 1).

(** A one-pixel-wide line along the anti-diagonal of a 5x5 image. *)
Definition antidiagonal : LabelMatrix :=
  [ [0; 0; 0; 0; 1];
    [0; 0; 0; 1; 0];
    [0; 0; 1; 0; 0];
    [0; 1; 0; 0; 0];
    [1; 0; 0; 0; 0] ].

(** A walk of 44 points, as around a 12x12 square. *)
Definition chain44 : list (Z * Z) :=
  map (fun k => (0, Z.of_nat k)) (seq 0 44).

(** A triangle: three vertices and the closing point. *)
Definition triangle : list point :=
  [(0%Q, 0%Q); (4%Q, 0%Q); (0%Q, 4%Q); (0%Q, 0%Q)].

(** A hexagon: six vertices and the closing point. *)
Definition hexagon : list point :=
  [(2%Q, 0%Q); (4%Q, 0%Q); (6%Q, 2%Q); (4%Q, 4%Q); (2%Q, 4%Q); (0%Q, 2%Q);
   (2%Q, 0%Q)].

(** A dialog over an empty 50x50 image showing one outer chain of object 1. *)
Definition one_chain_dialog (xy : list point) : Dialog :=
  mkDialog (replicate 50 (replicate 50 0)) (replicate 50 (replicate 50 0))
           {[0%nat := mkArtist 1 false true xy]} 1 [true; true]
           NORMAL_MODE None None None.

(** A left click in the original axes, at scale one. *)
Definition event_at (x y : Q) : Event :=
  mkEvent x y (Some x) (Some y) (Some orig_axes) 1.

(** ** The neighbor relationship engine *)

(** Modelled from the spec: [cellprofiler/modules/measureobjectneighbors.py]
    is not among the sources, only its tests are.  Sections 3 and 4.4 of the
    specification give the engine: the objects are the ids of the primary
    label matrix, each gets a candidate region by the distance mode, two
    objects are neighbors when their regions meet, and one measurement row
    per object comes out with the list of related pairs.  Distances are kept
    squared and the angle is kept as the two direction vectors, so that no
    square root or arc cosine is taken. *)
Module Neighbors.

Inductive distance_mode : Type :=
  | adjacent
  | expand
  | within (D : nat).

(** The object ids [1..N] of a label matrix, [N] its largest label. *)
Definition object_ids (m : LabelMatrix) : list Z :=
  np_arange 1 (foldr Z.max 0 (flatten m) + 1).

Definition footprint (m : LabelMatrix) (id : Z) : Mask := eq_mask m id.

Definition pixels_of (m : Mask) : list (Z * Z) :=
  filter (fun p => at2 false m p.1 p.2 = true) (raster m).

(** One step of dilation by the 3x3 structuring element. *)
Definition dilate (m : Mask) : Mask :=
  imap (fun i row =>
          imap (fun j (b : bool) =>
                  b || existsb (fun d : Z * Z =>
                                  at2 false m (Z.of_nat i + d.1) (Z.of_nat j + d.2))
                               structure8)
               row)
       m.

Definition meets (a b : Mask) : bool :=
  existsb (fun p => at2 false b p.1 p.2) (pixels_of a).

(** Growth until the region touches [others] or [fuel] steps were made. *)
Fixpoint grow_until (fuel : nat) (region others : Mask) : Mask :=
  match fuel with
  | O => region
  | S fuel' =>
      if meets region others then region
      else grow_until fuel' (dilate region) others
  end.

Definition others_mask (m : LabelMatrix) (id : Z) : Mask :=
  map (map (fun v => bool_decide (v ≠ 0 ∧ v ≠ id))) m.

(** The candidate region of an object under a distance mode. *)
Definition candidate_region (mode : distance_mode) (m : LabelMatrix) (id : Z)
  : Mask :=
  match mode with
  | adjacent => footprint m id
  | expand => grow_until (length m + width m) (footprint m id) (others_mask m id)
  | within D => Nat.iter D dilate (footprint m id)
  end.

(** The neighbors of object [id]: the ids of the neighbor set whose region
    meets the region of [id], the object itself left out in self mode. *)
Definition neighbors_of (mode : distance_mode) (self_mode : bool)
    (labels nlabels : LabelMatrix) (id : Z) : list Z :=
  filter (fun n => (self_mode = false ∨ n ≠ id)
                   ∧ meets (candidate_region mode labels id)
                           (candidate_region mode nlabels n) = true)
         (object_ids nlabels).

(** Perimeter pixels: pixels of the object with a 4-neighbour outside it. *)
Definition perimeter (m : LabelMatrix) (id : Z) : list (Z * Z) :=
  filter (fun p => existsb (fun d : Z * Z =>
                              negb (at2 0 m (p.1 + d.1) (p.2 + d.2) =? id))
                           structure4 = true)
         (pixels_of (footprint m id)).

(** Percent of the perimeter inside the region of some neighbor; [0] for
    an object without perimeter. *)
Definition percent_touching (mode : distance_mode) (labels nlabels : LabelMatrix)
    (id : Z) (ns : list Z) : Q :=
  let per := perimeter labels id in
  let touching :=
    filter (fun p => existsb (fun n =>
                                at2 false (candidate_region mode nlabels n) p.1 p.2)
                             ns = true) per in
  if decide (length per = 0%nat) then 0%Q
  else (100 * inject_Z (Z.of_nat (length touching))
        / inject_Z (Z.of_nat (length per)))%Q.

Definition centroid (m : LabelMatrix) (id : Z) : Q * Q :=
  let ps := pixels_of (footprint m id) in
  let n := inject_Z (Z.of_nat (length ps)) in
  ((inject_Z (foldr Z.add 0%Z (map fst ps)) / n)%Q,
   (inject_Z (foldr Z.add 0%Z (map snd ps)) / n)%Q).

(** Insertion by squared distance, ties to the lower id. *)
Fixpoint insert_ranked (x : Q * Z) (l : list (Q * Z)) : list (Q * Z) :=
  match l with
  | [] => [x]
  | y :: l' =>
      if Qltb x.1 y.1 || (Qeq_bool x.1 y.1 && (x.2 <? y.2))
      then x :: y :: l'
      else y :: insert_ranked x l'
  end.

Definition ranked (labels nlabels : LabelMatrix) (id : Z) (ns : list Z)
  : list (Q * Z) :=
  let c := centroid labels id in
  foldr insert_ranked []
    (map (fun n => (dist2 (centroid nlabels n) c.1 c.2, n)) ns).

Definition direction (labels nlabels : LabelMatrix) (id n : Z) : Q * Q :=
  let c := centroid labels id in
  let cn := centroid nlabels n in
  ((cn.1 - c.1)%Q, (cn.2 - c.2)%Q).

(** One per-object measurement row. *)
Record Row : Type := mkRow {
  NumberOfNeighbors : nat;
  PercentTouching : option Q;
  FirstClosestObjectNumber : Z;
  FirstClosestDistance2 : Q;
  SecondClosestObjectNumber : Z;
  SecondClosestDistance2 : Q;
  AngleBetweenNeighbors : option ((Q * Q) * (Q * Q))
}.

Definition row_of (mode : distance_mode) (self_mode : bool)
    (labels nlabels : LabelMatrix) (id : Z) : Row :=
  let ns := neighbors_of mode self_mode labels nlabels id in
  let r := ranked labels nlabels id ns in
  let first := default (0%Q, 0) (r !! 0%nat) in
  let second := default (0%Q, 0) (r !! 1%nat) in
  mkRow (length ns)
        (if self_mode then Some (percent_touching mode labels nlabels id ns)
         else None)
        first.2 first.1 second.2 second.1
        (match r with
         | (_, a) :: (_, b) :: _ =>
             Some (direction labels nlabels id a, direction labels nlabels id b)
         | _ => None
         end).

(** The measurement vectors, one entry per object, and the relationship
    list. *)
Record Output : Type := mkOutput {
  rows : list Row;
  relationships : list (Z * Z)
}.

Definition measure (mode : distance_mode) (self_mode : bool)
    (labels nlabels : LabelMatrix) : Output :=
  let ids := object_ids labels in
  mkOutput
    (map (row_of mode self_mode labels nlabels) ids)
    (id ← ids;
     map (fun n => (id, n)) (neighbors_of mode self_mode labels nlabels id)).

(** The vector of one feature over all objects. *)
Definition feature {A} (f : Row -> A) (o : Output) : list A := map f (rows o).

End Neighbors.

(** ** Joining objects ([join_objects]) *)

(** [a[idx] = v] for an index array and one value, on an array of any type. *)
Fixpoint np_put_all {A} (a : list A) (idx : list Z) (v : A) : result (list A) :=
  match idx with
  | [] => Ok a
  | i :: idx' =>
      k ← np_index (length a) i;
      np_put_all (<[k := v]> a) idx' v
  end.

(** [a[mask]] for a boolean mask of the length of [a]. *)
Definition np_select {A} (a : list A) (mask : list bool) : result (list A) :=
  if decide (length a = length mask)
  then Ok (map fst (filter (fun p : A * bool => p.2 = true) (zip a mask)))
  else Raise IndexError.

(** [a[mask] = vals]: the values go, in order, to the positions where the
    mask is true; their number must be the number of these positions. *)
Fixpoint np_mask_assign (a : list Z) (mask : list bool) (vals : list Z)
  : result (list Z) :=
  match a, mask with
  | [], [] =>
      match vals with
      | [] => Ok []
      | _ :: _ => Raise ValueError
      end
  | x :: a', b :: mask' =>
      if b then
        match vals with
        | [] => Raise ValueError
        | v :: vals' => r ← np_mask_assign a' mask' vals'; Ok (v :: r)
        end
      else r ← np_mask_assign a' mask' vals; Ok (x :: r)
  | _, _ => Raise IndexError
  end.

(** [a[~mask] = v] *)
Definition np_fill_unmasked (a : list Z) (mask : list bool) (v : Z) : list Z :=
  zip_with (fun x (b : bool) => if b then x else v) a mask.

(** [np.sum(mask)] *)
Definition np_count (mask : list bool) : nat :=
  length (filter (fun b : bool => b = true) mask).

(** [keep_to_keep] and [renumbering] of [join_objects], for a keep array of
    length [n], the primary label [first] and the labels [rest] joined to
    it. *)
Definition join_renumbering (n : nat) (first : Z) (rest : list Z)
  : result (list bool * list Z) :=
  keep_to_keep ← np_put_all (replicate n true) rest false;
  let renumbering := replicate (length keep_to_keep) 1 in
  renumbering ← np_mask_assign renumbering keep_to_keep
                  (np_arange 0 (Z.of_nat (np_count keep_to_keep)));
  Ok (keep_to_keep, np_fill_unmasked renumbering keep_to_keep first).

(** [np.unique([v[self.K_LABEL] for v in self.artists.values()])] *)
Definition selected_labels (d : Dialog) : list Z :=
  np_unique (map (fun kv : nat * Artist => K_LABEL kv.2) (map_to_list (artists d))).

(** [join_objects] *)
Definition join_objects (d : Dialog) : result Dialog :=
  let all_labels := selected_labels d in
  if decide (length all_labels < 2)%nat then Ok d
  else
    match all_labels with
    | first :: rest =>
        let d := foldl close_label d all_labels in
        kr ← join_renumbering (length (to_keep d)) first rest;
        to_keep' ← np_select (to_keep d) kr.1;
        labels' ← np_take kr.2 (labels d);
        make_control_points (with_labels (with_to_keep d to_keep') labels') first
    | [] => Raise IndexError
    end.

(** ** Settings of a saved pipeline ([upgrade_settings]) *)

(** The text of a numbering choice: [R_RENUMBER = "Renumber"],
    [R_RETAIN = "Retain"]. *)
Definition choice_text (c : renumber_choice) : string :=
  match c with
  | R_RENUMBER => "Renumber"
  | R_RETAIN => "Retain"
  end.

Section settings_upgrade.

(** [cps.DO_NOT_USE], [cps.YES] and [cps.NO]: constants of
    [cellprofiler.settings], which is not among the sources. *)
Variables DO_NOT_USE YES NO : string.

(** The first [if] of [upgrade_settings]: settings written by CellProfiler 1.0
    at revision 2.  The tuple assignment needs exactly four values. *)
Definition upgrade_from_matlab (setting_values : list string)
    (variable_revision_number : Z) (from_matlab : bool)
  : result (list string * Z * bool) :=
  if from_matlab && (variable_revision_number =? 2) then
    match setting_values with
    | [object_name; filtered_object_name; outlines_name; renumber_or_retain] =>
        let renumber_or_retain :=
          if String.eqb renumber_or_retain "Renumber"
          then choice_text R_RENUMBER else choice_text R_RETAIN in
        let wants_outlines :=
          if String.eqb outlines_name DO_NOT_USE then NO else YES in
        Ok ([object_name; filtered_object_name; wants_outlines; outlines_name;
             renumber_or_retain], 1, false)
    | _ => Raise ValueError
    end
  else Ok (setting_values, variable_revision_number, from_matlab).

(** [upgrade_settings]: the upgraded settings, the new revision number and
    the matlab flag. *)
Definition upgrade_settings (setting_values : list string)
    (variable_revision_number : Z) (from_matlab : bool)
  : result (list string * Z * bool) :=
  s ← upgrade_from_matlab setting_values variable_revision_number from_matlab;
  let '(setting_values, variable_revision_number, from_matlab) := s in
  if negb from_matlab && (variable_revision_number =? 1)
  then Ok (setting_values ++ [NO; "None"], 2, from_matlab)
  else Ok (setting_values, variable_revision_number, from_matlab).

End settings_upgrade.

(** ** Paths on the pixel grid *)

(** [q] is one of the 8 neighbours of [p]. *)
Definition adjacent8 (p q : Z * Z) : Prop :=
  Z.max (Z.abs (q.1 - p.1)) (Z.abs (q.2 - p.2)) = 1.

(** ** [init_labels] *)

(** [init_labels], as far as the state of the dialog decides it:
    [nlabels = len(self.to_keep) - 1], [label_map = np.zeros(nlabels + 1, ...)]
    and the assignment [label_map[self.labels.flatten()] = clabels.flatten()],
    which raises [IndexError] for a label that is no position of
    [label_map].  What it computes for the display (the renumbered labels,
    the outlines, the colour map) is no part of the state. *)
Definition init_labels (d : Dialog) : result Dialog :=
  _ ← rmapM (np_index (length (to_keep d))) (flatten (labels d));
  Ok d.

(** ** Invariants of an edit session *)

(** The fields of the split state machine. *)
Definition split_state (d : Dialog)
  : edit_mode * option (nat * nat) * option (point * point) :=
  (mode d, split_pick d, split_artist d).

(** The preview line [split_artist] exists exactly while the second point is
    being picked, and the first pick is recorded then. *)
Definition split_ready (d : Dialog) : Prop :=
  (mode d = SPLIT_PICK_SECOND_MODE ↔ is_Some (split_artist d))
  /\ (mode d = SPLIT_PICK_SECOND_MODE -> is_Some (split_pick d)).

(** Every object number in use, in the label matrices and on the chains,
    is a position of the keep array. *)
Definition keep_covers (d : Dialog) : Prop :=
  (1 <= length (to_keep d))%nat
  /\ (forall v, v ∈ flatten (orig_labels d) ->
        0 <= v < Z.of_nat (length (to_keep d)))
  /\ (forall v, v ∈ flatten (labels d) ->
        0 <= v < Z.of_nat (length (to_keep d)))
  /\ (forall k a, artists d !! k = Some a ->
        0 <= K_LABEL a < Z.of_nat (length (to_keep d))).

(** ** Example input *)

(** Four 2x2 objects in the corners of a 5x5 image. *)
Definition four_objects : LabelMatrix :=
  [ [1; 1; 0; 2; 2];
    [1; 1; 0; 2; 2];
    [0; 0; 0; 0; 0];
    [3; 3; 0; 4; 4];
    [3; 3; 0; 4; 4] ].

(** ** Joining objects *)

(** The number that label [v] has after the labels [rest] have been joined
    to [first]: a joined label becomes [first], any other label moves down
    by the number of joined labels below it. *)
Definition join_number (first : Z) (rest : list Z) (v : Z) : Z :=
  if decide (v ∈ rest) then first
  else v - Z.of_nat (length (filter (fun r => r < v) rest)).

(** ** The settings of the module *)

(** The attributes that [create_settings] makes. *)
Inductive setting : Type :=
  | object_name
  | filtered_objects
  | wants_outlines
  | outlines_name
  | renumber_choice_setting
  | wants_image_display
  | image_name.

(** [settings]: the settings in the order of the values of a pipeline. *)
Definition settings : list setting :=
  [object_name; filtered_objects; wants_outlines; outlines_name;
   renumber_choice_setting; wants_image_display; image_name].

(** [variable_revision_number = 2] *)
Definition variable_revision_number : Z := 2.

(** * Theorems *)

(** ** The monad of results *)

Lemma rmapM_Ok {A B} (f : A -> result B) (g : A -> B) (l : list A) :
  Forall (fun x => f x = Ok (g x)) l -> rmapM f l = Ok (map g l).
Proof.
  induction 1 as [|x l Hx _ IH]; simpl; [done|].
  by rewrite Hx, IH.
Qed.

(** ** [np.unique] *)

Lemma elem_of_insert_unique x y l :
  y ∈ insert_unique x l ↔ y = x ∨ y ∈ l.
Proof.
  induction l as [|z l IH]; simpl.
  - rewrite list_elem_of_singleton, elem_of_nil. tauto.
  - destruct (Z.ltb_spec x z); [by rewrite elem_of_cons|].
    destruct (Z.eqb_spec x z) as [->|].
    { rewrite elem_of_cons. tauto. }
    rewrite !elem_of_cons, IH. tauto.
Qed.

Lemma insert_unique_sorted x l :
  StronglySorted Z.lt l -> StronglySorted Z.lt (insert_unique x l).
Proof.
  induction 1 as [|z l Hs IH Hz]; simpl.
  - repeat constructor.
  - destruct (Z.ltb_spec x z).
    + constructor; [by constructor|].
      constructor; [done|]. eapply Forall_impl; [exact Hz|]. simpl. lia.
    + destruct (Z.eqb_spec x z); [by constructor|].
      constructor; [done|]. apply Forall_forall. intros y Hy.
      apply elem_of_insert_unique in Hy as [->|Hy]; [lia|].
      rewrite Forall_forall in Hz. by apply Hz.
Qed.

Lemma elem_of_np_unique x l : x ∈ np_unique l ↔ x ∈ l.
Proof.
  unfold np_unique. induction l as [|y l IH]; simpl; [done|].
  rewrite elem_of_insert_unique, IH, elem_of_cons. tauto.
Qed.

Lemma np_unique_sorted l : StronglySorted Z.lt (np_unique l).
Proof.
  unfold np_unique. induction l; simpl; [constructor|].
  by apply insert_unique_sorted.
Qed.

Lemma StronglySorted_filter {A} (R : relation A) (P : A -> Prop)
    `{!∀ x, Decision (P x)} l :
  StronglySorted R l -> StronglySorted R (filter P l).
Proof.
  induction 1 as [|x l Hs IH Hx]; [constructor|].
  rewrite filter_cons. destruct (decide (P x)); [|done].
  constructor; [done|]. apply Forall_forall. intros y Hy.
  apply list_elem_of_filter in Hy as [_ Hy].
  rewrite Forall_forall in Hx. by apply Hx.
Qed.

Lemma StronglySorted_lookup_lt (u : list Z) i j a b :
  StronglySorted Z.lt u -> u !! i = Some a -> u !! j = Some b ->
  (i < j)%nat -> a < b.
Proof.
  intros Hs. revert i j. induction Hs as [|x l Hs IH Hx]; intros i j Hi Hj Hij.
  - done.
  - destruct i as [|i], j as [|j]; simpl in *; try lia.
    + injection Hi as ->. rewrite Forall_forall in Hx.
      apply Hx. by eapply list_elem_of_lookup_2.
    + eapply IH; eauto. lia.
Qed.

Lemma StronglySorted_lookup_iff (u : list Z) i j a b :
  StronglySorted Z.lt u -> u !! i = Some a -> u !! j = Some b ->
  (a < b ↔ (i < j)%nat).
Proof.
  intros Hs Hi Hj. split; [|by eapply StronglySorted_lookup_lt].
  intros Hab. destruct (decide (i < j)%nat) as [|Hn]; [done|].
  destruct (decide (i = j)) as [->|]; [simplify_eq; lia|].
  assert (b < a) by (eapply (StronglySorted_lookup_lt u j i); eauto; lia). lia.
Qed.

Lemma StronglySorted_NoDup (u : list Z) : StronglySorted Z.lt u -> NoDup u.
Proof.
  induction 1 as [|x l Hs IH Hx]; constructor; [|done].
  intros Hin. rewrite Forall_forall in Hx. specialize (Hx _ Hin). lia.
Qed.

Lemma elem_of_unique_labels labels x :
  x ∈ unique_labels labels ↔ x ≠ 0 ∧ x ∈ flatten labels.
Proof.
  unfold unique_labels, nonzero.
  by rewrite list_elem_of_filter, elem_of_np_unique.
Qed.

Lemma unique_labels_sorted labels : StronglySorted Z.lt (unique_labels labels).
Proof. apply StronglySorted_filter, np_unique_sorted. Qed.

(** ** Array reads and writes *)

Lemma np_index_in_range n i :
  0 <= i < Z.of_nat n -> np_index n i = Ok (Z.to_nat i).
Proof.
  intros H. unfold np_index.
  destruct (Z.leb_spec 0 i), (Z.ltb_spec i (Z.of_nat n)); simpl; (done || lia).
Qed.

Lemma np_get_in_range {A} (a : list A) i v :
  0 <= i -> a !! Z.to_nat i = Some v -> np_get a i = Ok v.
Proof.
  intros Hi Hv. unfold np_get.
  rewrite np_index_in_range; simpl.
  - by rewrite Hv.
  - apply lookup_lt_Some in Hv. lia.
Qed.

Lemma np_set_many_spec idx : forall vals a,
  length idx = length vals ->
  Forall (fun i => 0 <= i < Z.of_nat (length a)) idx ->
  NoDup idx ->
  exists a', np_set_many a idx vals = Ok a'
    /\ length a' = length a
    /\ (forall k i v, idx !! k = Some i -> vals !! k = Some v ->
          a' !! Z.to_nat i = Some v)
    /\ (forall j, (forall i, i ∈ idx -> Z.to_nat i ≠ j) -> a' !! j = a !! j).
Proof.
  induction idx as [|i idx IH]; intros [|v vals] a Hlen Hr Hnd;
    simpl in *; try discriminate.
  - exists a. split; [done|]. split; [done|]. split; [|done].
    intros k ? ? Hk. by destruct k.
  - apply Forall_cons in Hr as [Hi Hr]. apply NoDup_cons in Hnd as [Hni Hnd].
    unfold np_set. rewrite np_index_in_range by done. simpl.
    destruct (IH vals (<[Z.to_nat i := v]> a)) as (a' & Ha' & Hl & Hset & Hother).
    + lia.
    + by rewrite length_insert.
    + done.
    + exists a'. rewrite length_insert in Hl. split; [done|]. split; [done|].
      split.
      * intros [|k] i' v' Hk Hv; simpl in *.
        -- injection Hk as <-. injection Hv as <-. rewrite Hother.
           ++ apply list_lookup_insert_eq. lia.
           ++ intros i2 Hi2 Heq. apply Hni.
              rewrite Forall_forall in Hr. specialize (Hr _ Hi2).
              assert (i2 = i) as -> by lia. done.
        -- eauto.
      * intros j Hj. rewrite Hother.
        -- apply list_lookup_insert_ne. apply Hj. left.
        -- intros i' Hi'. apply Hj. by right.
Qed.

Lemma foldl_max_le (l : list Z) : forall x, x <= foldl Z.max x l.
Proof.
  induction l as [|y l IH]; intros x; simpl; [lia|].
  specialize (IH (Z.max x y)). lia.
Qed.

Lemma foldl_max_ge (l : list Z) : forall x y, y ∈ l -> y <= foldl Z.max x l.
Proof.
  induction l as [|z l IH]; intros x y Hy; simpl.
  - by apply elem_of_nil in Hy.
  - apply elem_of_cons in Hy as [->|Hy]; [|by apply IH].
    pose proof (foldl_max_le l (Z.max x z)). lia.
Qed.

Lemma np_max_ge l m y : np_max l = Ok m -> y ∈ l -> y <= m.
Proof.
  destruct l as [|x l]; simpl; [done|]. intros [= <-] Hy.
  apply elem_of_cons in Hy as [->|Hy].
  - apply foldl_max_le.
  - by apply foldl_max_ge.
Qed.

Lemma length_np_arange a b : length (np_arange a b) = Z.to_nat (b - a).
Proof. unfold np_arange. by rewrite length_map, length_seq. Qed.

Lemma lookup_np_arange a b k :
  (k < Z.to_nat (b - a))%nat -> np_arange a b !! k = Some (a + Z.of_nat k).
Proof.
  intros Hk. unfold np_arange.
  rewrite list_lookup_fmap, lookup_seq_lt by done. done.
Qed.

Lemma filter_below_nil (u : list Z) x :
  Forall (Z.lt x) u -> filter (fun y => y < x) u = [].
Proof.
  induction 1 as [|y u Hy _ IH]; [done|].
  rewrite filter_cons. destruct (decide (y < x)); [lia|done].
Qed.

Lemma length_filter_below (u : list Z) : forall k x,
  StronglySorted Z.lt u -> u !! k = Some x ->
  length (filter (fun y => y < x) u) = k.
Proof.
  induction u as [|z u IH]; intros k x Hs Hk; [done|].
  apply StronglySorted_inv in Hs as [Hs Hz].
  rewrite filter_cons. destruct k as [|k]; simpl in *.
  - injection Hk as ->. destruct (decide (x < x)); [lia|].
    by rewrite filter_below_nil.
  - assert (z < x).
    { rewrite Forall_forall in Hz. apply Hz. by eapply list_elem_of_lookup_2. }
    destruct (decide (z < x)); [|lia]. simpl. f_equal. by apply IH.
Qed.

Lemma consecutive_lookup (u : list Z) k x :
  StronglySorted Z.lt u -> u !! k = Some x -> consecutive u x = Z.of_nat k + 1.
Proof.
  intros Hs Hk. unfold consecutive.
  destruct (decide (x ∈ u)) as [|Hn].
  - by rewrite (length_filter_below u k x).
  - destruct Hn. by eapply list_elem_of_lookup_2.
Qed.

Lemma flatten_map (f : Z -> Z) (m : LabelMatrix) :
  flatten (map (map f) m) = map f (flatten m).
Proof.
  unfold flatten. induction m as [|r m IH]; simpl; [done|].
  by rewrite map_app, IH.
Qed.

Lemma elem_of_flatten x (m : LabelMatrix) :
  x ∈ flatten m ↔ exists row, row ∈ m /\ x ∈ row.
Proof.
  unfold flatten. rewrite list_elem_of_In, in_concat.
  by setoid_rewrite list_elem_of_In.
Qed.

(** The renumbering pass computes [consecutive] at every pixel. *)
Lemma renumber_is_consecutive (labels : LabelMatrix) :
  Forall (fun v => 0 <= v) (flatten labels) ->
  renumber R_RENUMBER labels
  = Ok (map (map (consecutive (unique_labels labels))) labels,
        length (unique_labels labels)).
Proof.
  intros Hpos. unfold renumber. fold (unique_labels labels).
  set (u := unique_labels labels).
  assert (Hs : StronglySorted Z.lt u) by apply unique_labels_sorted.
  assert (Hu : forall x, x ∈ u -> 0 < x ∧ x ∈ flatten labels).
  { intros x Hx. apply elem_of_unique_labels in Hx as [Hx0 Hx].
    rewrite Forall_forall in Hpos. specialize (Hpos _ Hx). split; [lia|done]. }
  assert (exists size, (if decide (length u = 0%nat) then Ok 1
                        else m ← np_max u; Ok (m + 1)) = Ok size
                       /\ 1 <= size /\ forall x, x ∈ u -> x < size)
    as (size & -> & Hsize & Hlt).
  { destruct (decide (length u = 0%nat)) as [H0|H0].
    - exists 1. split; [done|]. split; [lia|].
      intros x Hx. apply length_zero_iff_nil in H0. rewrite H0 in Hx.
      by apply elem_of_nil in Hx.
    - destruct (np_max u) as [m| |] eqn:Hm;
        [|destruct u; simpl in *; done..].
      exists (m + 1). split; [done|]. split.
      + destruct u as [|x u']; [done|].
        pose proof (np_max_ge _ _ x Hm ltac:(left)).
        destruct (Hu x ltac:(left)). lia.
      + intros x Hx. pose proof (np_max_ge _ _ x Hm Hx). lia. }
  simpl. unfold np_zeros. destruct (Z.ltb_spec size 0); [lia|]. simpl.
  destruct (np_set_many_spec u (np_arange 1 (Z.of_nat (length u) + 1))
              (replicate (Z.to_nat size) 0))
    as (mapping & -> & Hlen & Hset & Hother).
  { rewrite length_np_arange. lia. }
  { apply Forall_forall. intros x Hx. rewrite length_replicate.
    destruct (Hu x Hx). specialize (Hlt x Hx). lia. }
  { by apply StronglySorted_NoDup. }
  simpl. unfold np_take.
  rewrite (rmapM_Ok _ (map (consecutive u))); [done|].
  apply Forall_forall. intros row Hrow.
  apply rmapM_Ok. apply Forall_forall. intros x Hx.
  assert (Hxl : x ∈ flatten labels).
  { apply elem_of_flatten. eauto. }
  assert (0 <= x) by (rewrite Forall_forall in Hpos; by apply Hpos).
  apply np_get_in_range; [done|].
  destruct (decide (x ∈ u)) as [Hxu|Hxu].
  - apply list_elem_of_lookup in Hxu as [k Hk].
    rewrite (consecutive_lookup u k x) by done.
    apply (Hset k); [done|].
    rewrite lookup_np_arange.
    + f_equal. lia.
    + apply lookup_lt_Some in Hk. lia.
  - unfold consecutive. rewrite decide_False by done.
    assert (x = 0) as ->.
    { destruct (decide (x = 0)); [done|]. destruct Hxu.
      by apply elem_of_unique_labels. }
    rewrite Hother.
    + apply lookup_replicate_2. lia.
    + intros i Hi. destruct (Hu i Hi). lia.
Qed.

Lemma length_filter_map (f : Z -> Z) (P Q : Z -> Prop)
    `{!∀ x, Decision (P x)} `{!∀ x, Decision (Q x)} (l : list Z) :
  (forall b, b ∈ l -> (P (f b) ↔ Q b)) ->
  length (filter P (map f l)) = length (filter Q l).
Proof.
  induction l as [|b l IH]; intros Hiff; [done|]. simpl.
  rewrite !filter_cons.
  assert (P (f b) ↔ Q b) as Hb by (apply Hiff; left).
  assert (length (filter P (map f l)) = length (filter Q l)) as IH'.
  { apply IH. intros c Hc. apply Hiff. by right. }
  destruct (decide (P (f b))), (decide (Q b)); simpl; tauto || lia.
Qed.

#[local] Instance Zlt_antisymm : AntiSymm (=) Z.lt.
Proof. intros x y ? ?. lia. Qed.

Lemma np_arange_sorted a b : StronglySorted Z.lt (np_arange a b).
Proof.
  unfold np_arange. generalize (Z.to_nat (b - a)) as n. intros n.
  generalize 0%nat as s. induction n as [|n IH]; intros s; simpl; [constructor|].
  constructor; [apply IH|].
  apply Forall_forall. intros x Hx.
  apply list_elem_of_fmap in Hx as (k & -> & Hk).
  apply elem_of_seq in Hk. lia.
Qed.

Lemma elem_of_np_arange a b x : x ∈ np_arange a b ↔ a <= x < b.
Proof.
  unfold np_arange. rewrite list_elem_of_fmap. split.
  - intros (k & -> & Hk). apply elem_of_seq in Hk. lia.
  - intros Hx. exists (Z.to_nat (x - a)). split; [lia|].
    apply elem_of_seq. lia.
Qed.

Section renumbering.
Variable labels : LabelMatrix.
Hypothesis labels_nonneg : Forall (fun v => 0 <= v) (flatten labels).

Let u := unique_labels labels.

Lemma consecutive_background a :
  a ∈ flatten labels -> (a = 0 ↔ consecutive u a = 0).
Proof.
  intros Ha. unfold consecutive. destruct (decide (a ∈ u)) as [Hu|Hu].
  - apply elem_of_unique_labels in Hu as [? _]. lia.
  - split; [done|]. intros _. destruct (decide (a = 0)); [done|].
    destruct Hu. by apply elem_of_unique_labels.
Qed.

Lemma consecutive_range a :
  a ∈ u -> 1 <= consecutive u a <= Z.of_nat (length u).
Proof.
  intros Ha. apply list_elem_of_lookup in Ha as [k Hk].
  rewrite (consecutive_lookup u k a); [|apply unique_labels_sorted|done].
  apply lookup_lt_Some in Hk. lia.
Qed.

Lemma consecutive_monotone a b :
  a ∈ flatten labels -> b ∈ flatten labels ->
  (a < b ↔ consecutive u a < consecutive u b).
Proof.
  intros Ha Hb.
  assert (0 <= a /\ 0 <= b) as [? ?].
  { rewrite Forall_forall in labels_nonneg. split; by apply labels_nonneg. }
  pose proof (unique_labels_sorted labels) as Hs. fold u in Hs.
  destruct (decide (a ∈ u)) as [Hau|Hau], (decide (b ∈ u)) as [Hbu|Hbu].
  - apply list_elem_of_lookup in Hau as [i Hi].
    apply list_elem_of_lookup in Hbu as [j Hj].
    rewrite (consecutive_lookup u i a), (consecutive_lookup u j b) by done.
    rewrite (StronglySorted_lookup_iff u i j a b) by done. lia.
  - assert (b = 0) as -> by (apply consecutive_background; [done|];
      unfold consecutive; by rewrite decide_False).
    pose proof (consecutive_range a Hau).
    unfold consecutive at 2. rewrite decide_False by done. lia.
  - assert (a = 0) as -> by (apply consecutive_background; [done|];
      unfold consecutive; by rewrite decide_False).
    pose proof (consecutive_range b Hbu).
    apply elem_of_unique_labels in Hbu as [? _].
    unfold consecutive at 1. rewrite decide_False by done. lia.
  - unfold consecutive. rewrite !decide_False by done.
    assert (a = 0) as -> by (apply consecutive_background; [done|];
      unfold consecutive; by rewrite decide_False).
    assert (b = 0) as -> by (apply consecutive_background; [done|];
      unfold consecutive; by rewrite decide_False).
    lia.
Qed.

Lemma consecutive_injective a b :
  a ∈ flatten labels -> b ∈ flatten labels ->
  consecutive u b = consecutive u a -> b = a.
Proof.
  intros Ha Hb Heq.
  pose proof (consecutive_monotone a b Ha Hb).
  pose proof (consecutive_monotone b a Hb Ha). lia.
Qed.

Lemma unique_labels_consecutive :
  unique_labels (map (map (consecutive u)) labels)
  = np_arange 1 (Z.of_nat (length u) + 1).
Proof.
  apply (StronglySorted_unique Z.lt).
  - apply unique_labels_sorted.
  - apply np_arange_sorted.
  - apply NoDup_Permutation.
    + apply StronglySorted_NoDup, unique_labels_sorted.
    + apply StronglySorted_NoDup, np_arange_sorted.
    + intros w. rewrite elem_of_unique_labels, flatten_map,
        list_elem_of_fmap, elem_of_np_arange. split.
      * intros (Hw & a & -> & Ha).
        assert (a ∈ u) as Hau.
        { apply elem_of_unique_labels. split; [|done].
          intros ->. apply Hw. by apply (proj1 (consecutive_background 0 Ha)). }
        pose proof (consecutive_range a Hau). lia.
      * intros Hw.
        destruct (lookup_lt_is_Some_2 u (Z.to_nat (w - 1))) as [a Ha]; [lia|].
        assert (consecutive u a = w) as <-.
        { rewrite (consecutive_lookup u _ a (unique_labels_sorted labels) Ha).
          lia. }
        apply list_elem_of_lookup_2 in Ha.
        pose proof (consecutive_range a Ha).
        apply elem_of_unique_labels in Ha as [? ?].
        split; [lia|]. eauto.
Qed.

End renumbering.

(** C2: under the Renumber choice, for every label matrix of non-negative
    labels, the renumbering pass of [run] succeeds and maps the distinct
    positive labels order-preservingly onto exactly [1..N], with [N] the
    number of distinct non-zero labels: the labels of the result are exactly
    [1..N], background pixels stay [0], and every object keeps its pixel
    count, so the number of non-zero pixels is unchanged. *)
Theorem renumber_onto_1_N (labels : LabelMatrix) :
  Forall (fun v => 0 <= v) (flatten labels) ->
  let u := unique_labels labels in
  let N := length u in
  exists out,
    renumber R_RENUMBER labels = Ok (out, N)
    /\ out = map (map (consecutive u)) labels
    /\ unique_labels out = np_arange 1 (Z.of_nat N + 1)
    /\ (forall a b, a ∈ flatten labels -> b ∈ flatten labels ->
          (a < b ↔ consecutive u a < consecutive u b))
    /\ (forall a, a ∈ flatten labels -> (a = 0 ↔ consecutive u a = 0))
    /\ (forall a, a ∈ flatten labels ->
          length (filter (fun v => v = consecutive u a) (flatten out))
          = length (filter (fun v => v = a) (flatten labels)))
    /\ length (nonzero (flatten out)) = length (nonzero (flatten labels)).
Proof.
  intros Hpos u N. exists (map (map (consecutive u)) labels).
  split; [by apply renumber_is_consecutive|]. split; [done|].
  split; [by apply unique_labels_consecutive|].
  split; [by apply consecutive_monotone|].
  split; [by apply consecutive_background|].
  split.
  - intros a Ha. rewrite flatten_map. apply length_filter_map.
    intros b Hb. split; [|by intros ->].
    by apply consecutive_injective.
  - rewrite flatten_map. unfold nonzero. apply length_filter_map.
    intros b Hb. pose proof (consecutive_background labels b Hb). tauto.
Qed.

Lemma renumber_onto_1_N_witness :
  renumber R_RENUMBER [[0; 5; 5]; [9; 0; 2]] = Ok ([[0; 2; 2]; [3; 0; 1]], 3%nat).
Proof.
  destruct (renumber_onto_1_N [[0; 5; 5]; [9; 0; 2]]) as (out & Hrun & -> & _).
  - repeat (constructor; [lia|]). constructor.
  - exact Hrun.
Defined.

(** C10: in a headless run ([workspace.frame] is [None]) the edit step is
    skipped: under Retain the output label matrix is the input, under
    Renumber it is the input relabelled by the order-preserving map of its
    distinct non-zero labels onto [1..N]; two pixels carry the same label
    after the run exactly when they did before. *)
Theorem run_headless `{Canvas} (labels : LabelMatrix) :
  Forall (fun v => 0 <= v) (flatten labels) ->
  let u := unique_labels labels in
  run R_RETAIN None labels = Ok (labels, length u)
  /\ run R_RENUMBER None labels
     = Ok (map (map (consecutive u)) labels, length u)
  /\ unique_labels (map (map (consecutive u)) labels)
     = np_arange 1 (Z.of_nat (length u) + 1)
  /\ (forall a b, a ∈ flatten labels -> b ∈ flatten labels ->
        (a < b ↔ consecutive u a < consecutive u b))
  /\ (forall a b, a ∈ flatten labels -> b ∈ flatten labels ->
        (consecutive u a = consecutive u b ↔ a = b)).
Proof.
  intros Hpos u. split; [done|].
  split; [by apply renumber_is_consecutive|].
  split; [by apply unique_labels_consecutive|].
  split; [by apply consecutive_monotone|].
  intros a b Ha Hb. split; [|by intros ->].
  intros Heq. by apply (consecutive_injective labels Hpos b a).
Qed.

Lemma run_headless_witness :
  run (H := unit_canvas) R_RENUMBER None [[0; 5; 5]; [9; 0; 2]]
  = Ok ([[0; 2; 2]; [3; 0; 1]], 3%nat).
Proof.
  refine (proj1 (proj2 (run_headless (H := unit_canvas) [[0; 5; 5]; [9; 0; 2]] _))).
  repeat (constructor; [lia|]). constructor.
Defined.

(** ** The start pixel of the boundary walk *)

Lemma argmin_from_spec (l : list Z) : forall best_index best k,
  let r := argmin_from Z.ltb best_index best k l in
  (r = best_index /\ Forall (fun x => best <= x) l)
  \/ (exists i x, r = (k + i)%nat /\ l !! i = Some x /\ x < best
        /\ Forall (fun y => x <= y) l
        /\ forall i' y, (i' < i)%nat -> l !! i' = Some y -> x < y).
Proof.
  induction l as [|x l IH]; intros best_index best k; simpl.
  - left. split; [done|constructor].
  - destruct (Z.ltb_spec x best) as [Hlt|Hge].
    + right. destruct (IH k x (S k)) as [[Hr Hall]|(i & y & Hr & Hi & Hy & Hall & Hfirst)].
      * exists 0%nat, x. split; [simpl in *; lia|]. split; [done|]. split; [done|].
        split; [constructor; [lia|done]|]. intros i' ? Hi'. lia.
      * exists (S i), y. split; [simpl in *; lia|]. split; [done|].
        split; [lia|]. split; [constructor; [lia|done]|].
        intros [|i'] z Hi' Hz; simpl in *.
        -- injection Hz as <-. done.
        -- apply (Hfirst i'); [lia|done].
    + destruct (IH best_index best (S k)) as [[Hr Hall]|(i & y & Hr & Hi & Hy & Hall & Hfirst)].
      * left. split; [done|]. constructor; [lia|done].
      * right. exists (S i), y. split; [simpl in *; lia|]. split; [done|].
        split; [done|]. split; [constructor; [lia|done]|].
        intros [|i'] z Hi' Hz; simpl in *.
        -- injection Hz as <-. lia.
        -- apply (Hfirst i'); [lia|done].
Qed.

Lemma np_argmin_spec (l : list Z) :
  l ≠ [] ->
  exists k x, np_argmin Z.ltb l = Ok k /\ l !! k = Some x
    /\ Forall (fun y => x <= y) l
    /\ forall k' y, (k' < k)%nat -> l !! k' = Some y -> x < y.
Proof.
  destruct l as [|x l]; [done|]. intros _. simpl.
  destruct (argmin_from_spec l 0%nat x 1%nat)
    as [[Hr Hall]|(i & y & Hr & Hi & Hy & Hall & Hfirst)]; simpl in *.
  - exists 0%nat, x. rewrite Hr. split; [done|]. split; [done|].
    split; [constructor; [lia|done]|]. intros k' ? Hk'. lia.
  - exists (S i), y. rewrite Hr. split; [done|]. split; [done|].
    split; [constructor; [lia|done]|].
    intros [|k'] z Hk' Hz; simpl in *.
    + injection Hz as <-. done.
    + apply (Hfirst k'); [lia|done].
Qed.

(** The start pixel is the first pixel, in raster order, of least
    [i*i + j*j]. *)
Lemma start_pixel_spec (pixels : list (Z * Z)) :
  pixels ≠ [] ->
  exists k p, topleft pixels = Ok k /\ pixels !! k = Some p
    /\ start_pixel pixels = Ok p
    /\ (forall q, q ∈ pixels -> cost p <= cost q)
    /\ (forall k' q, (k' < k)%nat -> pixels !! k' = Some q -> cost p < cost q).
Proof.
  intros Hne.
  destruct (np_argmin_spec (map cost pixels)) as (k & c & Hk & Hc & Hall & Hfirst).
  { by destruct pixels. }
  rewrite list_lookup_fmap in Hc.
  destruct (pixels !! k) as [p|] eqn:Hp; [|done]. injection Hc as <-.
  exists k, p. unfold start_pixel, topleft. fold cost.
  change (map (λ p0 : Z * Z, p0.1 * p0.1 + p0.2 * p0.2) pixels) with (map cost pixels).
  rewrite Hk. simpl. rewrite Hp. split; [done|]. split; [done|]. split; [done|].
  split.
  - intros q Hq. rewrite Forall_forall in Hall. apply Hall.
    apply list_elem_of_fmap. eauto.
  - intros k' q Hk' Hq. apply (Hfirst k'); [done|].
    by rewrite list_lookup_fmap, Hq.
Qed.

(** ** Decimation *)

Lemma every_from_lookup {A} (k : nat) (l : list A) : forall skip i,
  (1 <= k)%nat -> every_from skip k l !! i = l !! (skip + i * k)%nat.
Proof.
  induction l as [|x l IH]; intros skip i Hk; simpl.
  - by rewrite !lookup_nil.
  - destruct skip as [|skip].
    + destruct i as [|i]; simpl; [done|].
      rewrite IH by done.
      replace (k + i * k)%nat with (S (k - 1 + i * k)) by lia. done.
    + simpl. by rewrite IH.
Qed.

Lemma every_lookup {A} (k : nat) (l : list A) i :
  (1 <= k)%nat -> every k l !! i = l !! (i * k)%nat.
Proof. intros Hk. unfold every. by rewrite every_from_lookup. Qed.

Lemma markevery_bounds len :
  (40 < len)%nat -> 3 <= markevery len <= 10.
Proof.
  intros Hlen. unfold markevery.
  assert (3 <= (Z.of_nat len + 19) / 20).
  { apply Z.div_le_lower_bound; lia. }
  lia.
Qed.

Lemma ceil_div_20 n :
  0 <= n -> 20 * ((n + 19) / 20 - 1) < n <= 20 * ((n + 19) / 20).
Proof.
  intros Hn. pose proof (Z.div_mod (n + 19) 20 ltac:(lia)).
  pose proof (Z.mod_pos_bound (n + 19) 20 ltac:(lia)). lia.
Qed.

Lemma walk_closing (fuel : nat) polarity mask si sj : forall ic jc direction chain c,
  walk fuel polarity mask si sj ic jc direction chain = Ok c ->
  last c = Some (si - 1, sj - 1).
Proof.
  induction fuel as [|fuel IH]; intros ic jc direction chain c; simpl; [done|].
  destruct (first_hit mask ic jc direction) as [t| |]; simpl; try done.
  destruct (Z.eqb_spec (ic + t.1.1) si) as [->|]; simpl; [|apply IH].
  destruct (Z.eqb_spec (jc + t.1.2) sj) as [->|]; simpl; [|apply IH].
  intros [= <-]. unfold finish_chain. by rewrite last_snoc.
Qed.

Lemma walk_head (fuel : nat) mask si sj : forall ic jc direction chain c,
  walk fuel true mask si sj ic jc direction chain = Ok c ->
  head c = head (chain ++ [(ic - 1, jc - 1)]).
Proof.
  induction fuel as [|fuel IH]; intros ic jc direction chain c; simpl; [done|].
  destruct (first_hit mask ic jc direction) as [t| |]; simpl; try done.
  assert (forall a b, head (finish_chain true (chain ++ [(ic - 1, jc - 1)]) a b)
                      = head (chain ++ [(ic - 1, jc - 1)])) as Hfin.
  { intros a b. unfold finish_chain.
    set (l := chain ++ [(ic - 1, jc - 1)]).
    assert (l ≠ []) as Hl by (subst l; by destruct chain).
    destruct (decide (40 < length l)%nat).
    - pose proof (markevery_bounds (length l) ltac:(done)).
      destruct l as [|x l']; [done|].
      unfold every. simpl. done.
    - by destruct l. }
  assert (forall ic' jc' d', walk fuel true mask si sj ic' jc' d' (chain ++ [(ic - 1, jc - 1)]) = Ok c ->
            head c = head (chain ++ [(ic - 1, jc - 1)])) as Hrec.
  { intros ic' jc' d' Hw. rewrite (IH _ _ _ _ _ Hw).
    by destruct chain. }
  destruct (Z.eqb_spec (ic + t.1.1) si) as [->|]; simpl; [|apply Hrec].
  destruct (Z.eqb_spec (jc + t.1.2) sj) as [->|]; simpl; [|apply Hrec].
  intros [= <-]. apply Hfin.
Qed.

Lemma elem_of_raster {A} (m : list (list A)) p :
  p ∈ raster m -> 0 <= p.1 /\ 0 <= p.2.
Proof.
  unfold raster. intros Hp.
  apply list_elem_of_bind in Hp as (i & Hp & _).
  apply list_elem_of_bind in Hp as (j & Hp & _).
  apply list_elem_of_singleton in Hp as ->. simpl. lia.
Qed.

(** C4: for a component of at least two pixels the walk starts at the pixel
    of least [i*i + j*j] in the padded image, the first one in raster order
    among equals, not at the lexicographic minimum of (row, column).  No
    other pixel of the component lies both weakly above and weakly to the
    left of the start; the walk leaves it in direction 2, and an outer
    chain begins with it. *)
Theorem walk_starts_nearest_corner (polarity : bool) (labels : LabelMatrix)
    (sub_object_number : Z) :
  let pixels := component_pixels labels sub_object_number in
  (2 <= length pixels)%nat ->
  exists k p,
    pixels !! k = Some p
    /\ start_pixel pixels = Ok p
    /\ (forall q, q ∈ pixels -> cost p <= cost q)
    /\ (forall k' q, (k' < k)%nat -> pixels !! k' = Some q -> cost p < cost q)
    /\ (forall q, q ∈ pixels -> q.1 <= p.1 -> q.2 <= p.2 -> q = p)
    /\ trace_component polarity labels sub_object_number
       = (chain ← walk (8 * length pixels) polarity
                    (eq_mask labels sub_object_number) p.1 p.2 p.1 p.2 2 [];
          Ok (Some chain))
    /\ (forall chain,
          trace_component true labels sub_object_number = Ok (Some chain) ->
          head chain = Some (p.1 - 1, p.2 - 1)).
Proof.
  intros pixels Hlen.
  destruct (start_pixel_spec pixels) as (k & p & _ & Hk & Hstart & Hmin & Hfirst).
  { intros Hnil. rewrite Hnil in Hlen. simpl in Hlen. lia. }
  assert (Hnonneg : forall q, q ∈ pixels -> 0 <= q.1 /\ 0 <= q.2).
  { intros q Hq. apply list_elem_of_filter in Hq as [_ Hq].
    by apply elem_of_raster in Hq. }
  assert (Htrace : forall pol, trace_component pol labels sub_object_number
       = (chain ← walk (8 * length pixels) pol
                    (eq_mask labels sub_object_number) p.1 p.2 p.1 p.2 2 [];
          Ok (Some chain))).
  { intros pol. unfold trace_component. fold pixels.
    destruct (decide (length pixels < 2)%nat); [lia|].
    by rewrite Hstart. }
  exists k, p. split; [done|]. split; [done|]. split; [done|]. split; [done|].
  split; [|split; [apply Htrace|]].
  - intros q Hq H1 H2. specialize (Hmin q Hq).
    destruct (Hnonneg q Hq).
    destruct (Hnonneg p) as [? ?]; [by eapply list_elem_of_lookup_2|].
    unfold cost in Hmin. destruct p as [p1 p2], q as [q1 q2]. simpl in *.
    assert (q1 = p1) by nia. assert (q2 = p2) by nia. by subst.
  - intros chain. rewrite Htrace.
    destruct (walk _ _ _ _ _ _ _ _ _) as [c| |] eqn:Hw; simpl; try done.
    intros [= <-]. by rewrite (walk_head _ _ _ _ _ _ _ _ _ Hw).
Qed.

Lemma walk_starts_nearest_corner_witness :
  exists p,
    start_pixel (component_pixels [[0; 0; 0]; [0; 1; 1]; [0; 1; 0]] 1) = Ok p
    /\ forall q, q ∈ component_pixels [[0; 0; 0]; [0; 1; 1]; [0; 1; 0]] 1 ->
         cost p <= cost q.
Proof.
  destruct (walk_starts_nearest_corner true [[0; 0; 0]; [0; 1; 1]; [0; 1; 0]] 1)
    as (k & p & _ & Hstart & Hmin & _).
  - vm_compute. lia.
  - exists p. split; [exact Hstart|exact Hmin].
Defined.

(** The claim C4 as stated fails: on the anti-diagonal line the start is the
    middle pixel, although the component has a pixel in a higher row. *)
Lemma start_not_topmost_counterexample :
  ~ (forall (labels : LabelMatrix) (sub_object_number : Z) (p : Z * Z),
       let pixels := component_pixels labels sub_object_number in
       (2 <= length pixels)%nat ->
       start_pixel pixels = Ok p ->
       forall q, q ∈ pixels -> p.1 < q.1 \/ (p.1 = q.1 /\ p.2 <= q.2)).
Proof.
  intros Hclaim.
  pose (sub_labels := (ndimage_label (pad_mask (eq_mask antidiagonal 1)) structure8).1).
  assert ((1, 5) ∈ component_pixels sub_labels 1) as Hin.
  { apply list_elem_of_In. vm_compute. auto. }
  destruct (Hclaim sub_labels 1 (3, 3)) with (q := (1, 5)) as [H|[H _]];
    [vm_compute; lia|vm_compute; reflexivity|exact Hin|simpl in H; lia..].
Qed.

(** C5: a walk of more than 40 points is decimated with stride
    [min(10, ceil(len/20))], which lies between 3 and 10 (the stride is at
    most 10, not at least 10): the chain keeps the points at the multiples
    of the stride, counted after the reversal of a hole chain.  A walk of at
    most 40 points is kept whole.  The closing point is appended after the
    decimation, so it is always the last point, and in a traced chain it is
    the start pixel of the walk. *)
Theorem decimation_stride (polarity : bool) (chain : list (Z * Z)) (ic jc : Z) :
  let wound := if polarity then chain else rev chain in
  let out := finish_chain polarity chain ic jc in
  let len := Z.of_nat (length chain) in
  last out = Some (ic - 1, jc - 1)
  /\ ((length chain <= 40)%nat -> out = wound ++ [(ic - 1, jc - 1)])
  /\ ((40 < length chain)%nat ->
        let stride := markevery (length chain) in
        stride = Z.min 10 ((len + 19) / 20)
        /\ 20 * ((len + 19) / 20 - 1) < len <= 20 * ((len + 19) / 20)
        /\ 3 <= stride <= 10
        /\ exists kept,
             out = kept ++ [(ic - 1, jc - 1)]
             /\ forall i, kept !! i = wound !! (i * Z.to_nat stride)%nat)
  /\ (forall fuel mask si sj direction chain0 traced,
        walk fuel polarity mask si sj ic jc direction chain0 = Ok traced ->
        last traced = Some (si - 1, sj - 1)).
Proof.
  intros wound out len.
  assert (length wound = length chain) as Hlen.
  { unfold wound. destruct polarity; [done|apply length_rev]. }
  split; [unfold out, finish_chain; by rewrite last_snoc|].
  split; [|split].
  - intros Hle. unfold out, finish_chain. fold wound. rewrite Hlen.
    destruct (decide (40 < length chain)%nat); [lia|done].
  - intros Hgt stride. split; [done|]. split; [apply ceil_div_20; lia|].
    pose proof (markevery_bounds (length chain) Hgt). split; [done|].
    exists (every (Z.to_nat stride) wound). split.
    + unfold out, finish_chain. fold wound. rewrite Hlen.
      destruct (decide (40 < length chain)%nat); [done|lia].
    + intros i. apply every_lookup. fold stride in H. lia.
  - intros fuel mask si sj direction chain0 traced. apply walk_closing.
Qed.

Lemma decimation_stride_witness :
  exists kept,
    finish_chain true chain44 1 1 = kept ++ [(0, 0)]
    /\ forall i, kept !! i = chain44 !! (i * 3)%nat.
Proof.
  destruct (decimation_stride true chain44 1 1) as (_ & _ & Hdec & _).
  destruct Hdec as (_ & _ & _ & kept & Hout & Hkept).
  - vm_compute. lia.
  - exists kept. split; [exact Hout|exact Hkept].
Defined.

(** The claim C5 as stated fails: a stride of at least 10 would keep 5 of
    the 44 points of [chain44]; the code keeps 15 of them, with stride 3. *)
Lemma decimation_stride_counterexample :
  ~ (forall (chain : list (Z * Z)) (ic jc : Z),
       (40 < length chain)%nat ->
       finish_chain true chain ic jc
       = every (Z.to_nat (Z.max 10 ((Z.of_nat (length chain) + 19) / 20))) chain
         ++ [(ic - 1, jc - 1)]).
Proof.
  intros Hclaim. specialize (Hclaim chain44 1 1 ltac:(vm_compute; lia)).
  vm_compute in Hclaim. discriminate Hclaim.
Qed.

(** ** Tracing and closing a label *)

Lemma add_unedited_chains (label : Z) (outside : bool) (chains : list (list (Z * Z))) :
  forall d,
    let d' := foldl (fun d chain =>
                       add_artist d (mkArtist label false outside (chain_xy chain)))
                    d chains in
    labels d' = labels d
    /\ orig_labels d' = orig_labels d
    /\ (untouched d label -> untouched d' label).
Proof.
  induction chains as [|chain chains IH]; intros d; simpl; [done|].
  destruct (IH (add_artist d (mkArtist label false outside (chain_xy chain))))
    as (Hl & Ho & Hu).
  split; [by rewrite Hl|]. split; [by rewrite Ho|].
  intros Hd. apply Hu. intros k a. simpl.
  destruct (decide (k = next_artist d)) as [->|Hne].
  - rewrite lookup_insert_eq. by intros [= <-].
  - rewrite lookup_insert_ne by done. apply Hd.
Qed.

Lemma make_control_points_untouched d label d' :
  make_control_points d label = Ok d' ->
  labels d' = labels d
  /\ orig_labels d' = orig_labels d
  /\ (untouched d label -> untouched d' label).
Proof.
  unfold make_control_points.
  destruct (trace_polarity (labels d) label true) as [outer| |]; simpl; try done.
  destruct (add_unedited_chains label true outer d) as (Hl & Ho & Hu).
  rewrite Hl.
  destruct (trace_polarity (labels d) label false) as [holes| |]; simpl; try done.
  intros [= <-].
  match goal with |- context [foldl ?f ?a holes] =>
    destruct (add_unedited_chains label false holes a) as (Hl' & Ho' & Hu') end.
  split; [by rewrite Hl'|]. split; [by rewrite Ho'|]. auto.
Qed.

Lemma close_label_untouched d label :
  untouched d label -> labels (close_label d label) = labels d.
Proof.
  intros Hd. unfold close_label.
  assert (existsb (fun kv : nat * Artist => K_EDITED kv.2) (my_artists d label) = false)
    as ->; [|done].
  apply not_true_is_false. intros Hex.
  apply existsb_exists in Hex as ([k a] & Hin & He).
  apply list_elem_of_In, list_elem_of_filter in Hin as [Hlab Hin].
  apply elem_of_map_to_list in Hin. simpl in *.
  rewrite (Hd k a Hin Hlab) in He. done.
Qed.

(** On every label matrix of 3x3 pixels the raster of the traced chains of
    object 1 is the mask of the object, when the object has at least two
    pixels, is 4-connected and has no hole: checked by running the tracer
    and the rasterizer on all 512 matrices. *)
Lemma round_trips_3x3 : forallb round_trips (binary_matrices 3 3) = true.
Proof. vm_compute. reflexivity. Qed.

(** The 12x12 square is 4-connected, has no hole and no neck; its walk of
    44 points is decimated, and the raster of the chain misses the corner
    pixel (0, 11). *)
Lemma round_trip_counterexample :
  four_connected (square 12) 1
  /\ hole_free (square 12) 1
  /\ exists m, trace_and_rasterize (square 12) 1 = Ok m
       /\ m ≠ eq_mask (square 12) 1
       /\ at2 false m 0 11 = false
       /\ at2 false (eq_mask (square 12) 1) 0 11 = true.
Proof.
  split; [vm_compute; reflexivity|]. split; [vm_compute; reflexivity|].
  eexists. split; [vm_compute; reflexivity|].
  split; [|split; vm_compute; reflexivity].
  intros Heq. apply (f_equal (fun m => at2 false m 0 11)) in Heq.
  vm_compute in Heq. discriminate Heq.
Qed.

(** ** Hit testing *)

Lemma argmin_from_range {A} (ltb : A -> A -> bool) (l : list A) :
  forall best_index best k,
    let r := argmin_from ltb best_index best k l in
    r = best_index \/ (k <= r < k + length l)%nat.
Proof.
  induction l as [|x l IH]; intros best_index best k; simpl; [by left|].
  destruct (ltb x best).
  - right. destruct (IH k x (S k)) as [->|?]; lia.
  - destruct (IH best_index best (S k)) as [->|?]; [by left|right; lia].
Qed.

Lemma np_argmin_range {A} (ltb : A -> A -> bool) (l : list A) :
  l ≠ [] -> exists k, np_argmin ltb l = Ok k /\ (k < length l)%nat.
Proof.
  destruct l as [|x l]; [done|]. intros _. simpl. eexists. split; [done|].
  destruct (argmin_from_range ltb l 0%nat x 1%nat) as [->|?]; lia.
Qed.

Lemma length_but_last {A} (l : list A) : length (but_last l) = (length l - 1)%nat.
Proof. unfold but_last. rewrite length_take. lia. Qed.

Lemma control_point_step_hit `{Canvas} event best kv l :
  (2 <= length (xydata kv.2))%nat -> kv ∈ l -> hit_in l best ->
  exists best', control_point_step event best kv = Ok best' /\ hit_in l best'.
Proof.
  intros Hlen Hkv Hbest. unfold control_point_step.
  set (dists := map _ (but_last (xydata kv.2))).
  assert (length dists = (length (xydata kv.2) - 1)%nat) as Hd.
  { unfold dists. by rewrite length_map, length_but_last. }
  destruct (np_argmin_range Qltb dists) as (idx & -> & Hidx).
  { intros Hnil. rewrite Hnil in Hd. simpl in Hd. lia. }
  simpl. destruct (lookup_lt_is_Some_2 dists idx Hidx) as [di ->].
  match goal with |- context [if ?c then _ else _] => destruct c end.
  - eexists. split; [done|]. simpl. exists kv.2. split; [by destruct kv|lia].
  - eauto.
Qed.

Lemma control_point_loop_hit `{Canvas} event (all : list (nat * Artist)) :
  forall l best,
    (forall kv, kv ∈ l -> kv ∈ all /\ (2 <= length (xydata kv.2))%nat) ->
    hit_in all best ->
    exists best', control_point_loop event best l = Ok best' /\ hit_in all best'.
Proof.
  induction l as [|kv l IH]; intros best Hl Hbest; simpl; [eauto|].
  destruct (Hl kv ltac:(left)) as [Hin Hlen].
  destruct (control_point_step_hit event best kv all Hlen Hin Hbest)
    as (best1 & -> & Hbest1).
  simpl. apply IH; [|done]. intros kv' Hkv'. apply Hl. by right.
Qed.

(** On drawable chains the hit test returns, and a hit is a vertex of a chain
    of the dialog other than its closing point. *)
Lemma get_control_point_hit `{Canvas} (d : Dialog) (event : Event) :
  drawable d ->
  exists hit, get_control_point d event = Ok hit
    /\ match hit with
       | None => True
       | Some (k, i) =>
           exists a, artists d !! k = Some a /\ (i < length (xydata a) - 1)%nat
       end.
Proof.
  intros Hd. unfold get_control_point.
  destruct (control_point_loop_hit event (map_to_list (artists d))
              (map_to_list (artists d)) None) as (best & -> & Hbest).
  - intros [k a] Hkv. split; [done|].
    apply elem_of_map_to_list in Hkv. by apply (Hd k a).
  - done.
  - simpl. eexists. split; [done|].
    destruct best as [[[? k] i]|]; [|done].
    destruct Hbest as (a & Ha & Hi). exists a. split; [|done].
    by apply elem_of_map_to_list in Ha.
Qed.

(** ** Every chain of a session is drawable *)

(** Case analysis on the first call of a sequence that returned. *)
Tactic Notation "bind_ok" hyp(H) "as" ident(x) ident(E) :=
  match type of H with
  | mbind _ ?r = Ok _ =>
      destruct r as [x| |] eqn:E; simpl in H; [|discriminate H..]
  end.

Lemma rmapM_inv {A B} (f : A -> result B) (l : list A) : forall ys,
  rmapM f l = Ok ys -> Forall2 (fun x y => f x = Ok y) l ys.
Proof.
  induction l as [|x l IH]; intros ys Hys; simpl in Hys.
  - injection Hys as <-. constructor.
  - bind_ok Hys as y Ey. bind_ok Hys as ys' Eys. injection Hys as <-.
    constructor; [done|by apply IH].
Qed.

Lemma every_nonempty {A} (k : nat) (l : list A) : l ≠ [] -> every k l ≠ [].
Proof. by destruct l. Qed.

Lemma finish_chain_length polarity chain ic jc :
  chain ≠ [] -> (2 <= length (finish_chain polarity chain ic jc))%nat.
Proof.
  intros Hne. unfold finish_chain. rewrite length_app. simpl.
  set (wound := if polarity then chain else rev chain).
  assert (wound ≠ []) as Hw.
  { unfold wound. destruct polarity; [done|].
    intros Hr. apply (f_equal length) in Hr. rewrite length_rev in Hr.
    by destruct chain. }
  destruct (decide (40 < length wound)%nat).
  - pose proof (every_nonempty (Z.to_nat (markevery (length wound))) wound Hw).
    destruct (every _ wound); [done|simpl; lia].
  - destruct wound; [done|simpl; lia].
Qed.

Lemma walk_length (fuel : nat) polarity mask si sj : forall ic jc direction chain c,
  walk fuel polarity mask si sj ic jc direction chain = Ok c ->
  (2 <= length c)%nat.
Proof.
  induction fuel as [|fuel IH]; intros ic jc direction chain c; simpl; [done|].
  destruct (first_hit mask ic jc direction) as [t| |]; simpl; try done.
  destruct (_ && _); [|apply IH].
  intros [= <-]. apply finish_chain_length. by destruct chain.
Qed.

Lemma trace_polarity_length labels object_number polarity chains :
  trace_polarity labels object_number polarity = Ok chains ->
  Forall (fun c => (2 <= length c)%nat) chains.
Proof.
  unfold trace_polarity.
  destruct (ndimage_label _ _) as [sub_labels count]. intros Ht.
  bind_ok Ht as border Eb. bind_ok Ht as traced Et. injection Ht as <-.
  apply rmapM_inv in Et. apply Forall_forall. intros c Hc.
  apply list_elem_of_omap in Hc as (oc & Hoc & Hid). simpl in Hid. subst oc.
  apply list_elem_of_lookup in Hoc as [i Hi].
  destruct (Forall2_lookup_r _ _ _ _ _ Et Hi) as (sub & _ & Hsub).
  destruct (_ && _); [done|].
  unfold trace_component in Hsub.
  destruct (decide _); [done|].
  bind_ok Hsub as start Es. bind_ok Hsub as chain Ec. injection Hsub as <-.
  by eapply walk_length.
Qed.

Lemma add_artist_drawable d a :
  drawable d -> (2 <= length (xydata a))%nat -> drawable (add_artist d a).
Proof.
  intros Hd Ha k b. simpl. destruct (decide (k = next_artist d)) as [->|Hne].
  - rewrite lookup_insert_eq. by intros [= <-].
  - rewrite lookup_insert_ne by done. apply Hd.
Qed.

Lemma add_chains_drawable label outside chains : forall d,
  drawable d -> Forall (fun c => (2 <= length c)%nat) chains ->
  drawable (foldl (fun d chain =>
                     add_artist d (mkArtist label false outside (chain_xy chain)))
                  d chains).
Proof.
  induction chains as [|c chains IH]; intros d Hd Hc; simpl; [done|].
  apply Forall_cons in Hc as [Hc Hcs]. apply IH; [|done].
  apply add_artist_drawable; [done|]. simpl. unfold chain_xy.
  by rewrite length_map.
Qed.

Lemma add_chains_labels label outside chains : forall d,
  labels (foldl (fun d chain =>
                   add_artist d (mkArtist label false outside (chain_xy chain)))
                d chains) = labels d.
Proof. induction chains as [|c chains IH]; intros d; simpl; [done|]. by rewrite IH. Qed.

Lemma make_control_points_drawable d label d' :
  drawable d -> make_control_points d label = Ok d' -> drawable d'.
Proof.
  unfold make_control_points. intros Hd Hm.
  bind_ok Hm as outer Eo. rewrite add_chains_labels in Hm.
  bind_ok Hm as holes Eh. injection Hm as <-.
  apply add_chains_drawable; [|by eapply trace_polarity_length].
  apply add_chains_drawable; [done|by eapply trace_polarity_length].
Qed.

Lemma delete_keys_drawable (keys : list (nat * Artist)) : forall m : gmap nat Artist,
  (forall k a, m !! k = Some a -> (2 <= length (xydata a))%nat) ->
  forall k a, foldl (fun m kv => delete kv.1 m) m keys !! k = Some a ->
              (2 <= length (xydata a))%nat.
Proof.
  induction keys as [|kv keys IH]; intros m Hm k a; simpl; [apply Hm|].
  apply IH. intros k' a' Hk'.
  apply lookup_delete_Some in Hk' as [_ Hk']. by eapply Hm.
Qed.

Lemma close_label_drawable d label : drawable d -> drawable (close_label d label).
Proof.
  intros Hd. unfold close_label, drawable. simpl.
  destruct (existsb _ _); simpl; by apply delete_keys_drawable.
Qed.

Lemma delete_control_point_drawable `{Canvas} d event d' :
  drawable d -> delete_control_point d event = Ok d' -> drawable d'.
Proof.
  unfold delete_control_point. intros Hd Hdel. bind_ok Hdel as hit Eh.
  destruct hit as [[k i]|]; [|by injection Hdel as <-].
  bind_ok Hdel as a Ea. destruct (decide _) as [|Hlong]; injection Hdel as <-.
  - intros k' a'. simpl. intros Hk'.
    apply lookup_delete_Some in Hk' as [_ Hk']. by eapply Hd.
  - intros k' a'. simpl. destruct (decide (k' = k)) as [->|Hne].
    + rewrite lookup_insert_eq. intros [= <-]. simpl.
      rewrite length_app, length_take, length_drop. lia.
    + rewrite lookup_insert_ne by done. apply Hd.
Qed.

Lemma new_object_drawable d event d' :
  drawable d -> new_object d event = Ok d' -> drawable d'.
Proof.
  unfold new_object. intros Hd.
  destruct (xdata event), (ydata event); try done. intros [= <-].
  apply add_artist_drawable; [done|]. simpl.
  unfold clamp_high, clamp_low, cos_angles, sin_angles. simpl. lia.
Qed.

Lemma delete_keys_lookup (keys : list (nat * Artist)) : forall (m : gmap nat Artist) k,
  foldl (fun m kv => delete kv.1 m) m keys !! k
  = if decide (k ∈ keys.*1) then None else m !! k.
Proof.
  induction keys as [|kv keys IH]; intros m k; simpl; [done|].
  rewrite IH. destruct (decide (k ∈ keys.*1)) as [Hin|Hnin].
  - rewrite decide_True; [done|by right].
  - destruct (decide (k = kv.1)) as [->|Hne].
    + rewrite lookup_delete_eq, decide_True; [done|by left].
    + rewrite lookup_delete_ne by done. rewrite decide_False; [done|].
      intros Hin. apply elem_of_cons in Hin as [?|?]; done.
Qed.

(** [close_label] removes exactly the chains of the label. *)
Lemma close_label_artists d label k a :
  artists (close_label d label) !! k = Some a
  ↔ artists d !! k = Some a /\ K_LABEL a ≠ label.
Proof.
  assert (artists (close_label d label)
          = foldl (fun m kv => delete kv.1 m) (artists d) (my_artists d label)) as ->.
  { unfold close_label. by destruct (existsb _ _). }
  rewrite delete_keys_lookup.
  assert (k ∈ (my_artists d label).*1
          ↔ exists b, artists d !! k = Some b /\ K_LABEL b = label) as Hin.
  { rewrite list_elem_of_fmap. unfold my_artists. split.
    - intros ([k' b] & -> & Hkb). apply list_elem_of_filter in Hkb as [Hl Hkb].
      apply elem_of_map_to_list in Hkb. eauto.
    - intros (b & Hb & Hl). exists (k, b). split; [done|].
      apply list_elem_of_filter. split; [done|by apply elem_of_map_to_list]. }
  destruct (decide _) as [Hk|Hk].
  - apply Hin in Hk as (b & Hb & Hl). split; [done|].
    intros [Ha Hne]. congruence.
  - split.
    + intros Ha. split; [done|]. intros Hl. apply Hk, Hin. eauto.
    + by intros [Ha _].
Qed.

Lemma split_chain_drawable d a i j d' :
  drawable d -> split_chain d a i j = Ok d' -> drawable d'.
Proof.
  unfold split_chain. intros Hd Hs. bind_ok Hs as art Ea. bind_ok Hs as d1 E1.
  eapply make_control_points_drawable; [|exact Hs].
  eapply make_control_points_drawable; [|exact E1].
  intros k b Hb.
  apply close_label_artists in Hb as [Hb Hnew].
  apply close_label_artists in Hb as [Hb Hold]. simpl in Hb.
  unfold artist_of in Ea. destruct (artists d !! a) as [art'|] eqn:Hart; [|done].
  injection Ea as ->.
  destruct (decide (k = a)) as [->|Hka].
  { rewrite lookup_insert_eq in Hb. injection Hb as <-. by destruct Hold. }
  rewrite lookup_insert_ne in Hb by done.
  destruct (decide (k = next_artist d)) as [->|Hkn].
  { rewrite lookup_insert_eq in Hb. injection Hb as <-. by destruct Hnew. }
  rewrite lookup_insert_ne in Hb by done.
  rewrite lookup_insert_ne in Hb by done. by eapply Hd.
Qed.

Lemma close_xy_length xy xy' : close_xy xy = Ok xy' -> length xy' = length xy.
Proof.
  unfold close_xy. destruct xy as [|p l]; [done|].
  intros [= <-]. by rewrite length_insert.
Qed.

Lemma set_outside_drawable d oa ia outside xy :
  drawable d -> (2 <= length xy)%nat ->
  drawable (with_artists d
              (delete ia (<[oa := set_data outside xy]> (artists d)))).
Proof.
  intros Hd Hxy k c. simpl. intros Hk.
  apply lookup_delete_Some in Hk as [_ Hk].
  destruct (decide (k = oa)) as [->|Hne].
  - rewrite lookup_insert_eq in Hk. by injection Hk as <-.
  - rewrite lookup_insert_ne in Hk by done. by eapply Hd.
Qed.

Lemma splice_chains_drawable `{Canvas} d a i b j d' :
  drawable d -> splice_chains d a i b j = Ok d' -> drawable d'.
Proof.
  unfold splice_chains. intros Hd Hs. bind_ok Hs as first E1. bind_ok Hs as pick E2.
  destruct (contains_path _ _);
    (bind_ok Hs as outer Eo; bind_ok Hs as inner Ei; bind_ok Hs as xy Ex;
     bind_ok Hs as outside Eout; injection Hs as <-;
     apply set_outside_drawable; [done|];
     rewrite (close_xy_length _ _ Ex), !length_app; simpl; lia).
Qed.

Lemma exit_split_mode_artists d : artists (exit_split_mode d) = artists d.
Proof. unfold exit_split_mode. by destruct (mode d). Qed.

Lemma on_split_second_click_drawable `{Canvas} d event d' :
  drawable d -> on_split_second_click d event = Ok d' -> drawable d'.
Proof.
  unfold on_split_second_click. intros Hd Hs.
  destruct (decide _); [|by injection Hs as <-].
  bind_ok Hs as hit Eh. bind_ok Hs as ok Eok.
  destruct (negb _); [by injection Hs as <-|].
  destruct hit as [[k i]|]; [|done]. destruct (split_pick d) as [[k' i']|]; [|done].
  bind_ok Hs as d1 E1. injection Hs as <-.
  assert (drawable d1) as Hd1.
  { destruct (decide _); [by eapply split_chain_drawable|by eapply splice_chains_drawable]. }
  unfold drawable. by rewrite exit_split_mode_artists.
Qed.

Lemma on_split_first_click_drawable `{Canvas} d event d' :
  drawable d -> on_split_first_click d event = Ok d' -> drawable d'.
Proof.
  unfold on_split_first_click. intros Hd Hs.
  destruct (decide _); [|by injection Hs as <-].
  bind_ok Hs as hit Eh. destruct hit as [[k i]|]; [|by injection Hs as <-].
  bind_ok Hs as a Ea. bind_ok Hs as p Ep. by injection Hs as <-.
Qed.

Lemma click_object_drawable d event d' :
  drawable d -> click_object d event = Ok d' -> drawable d'.
Proof.
  unfold click_object. intros Hd Hc.
  destruct (xdata event), (ydata event); try done.
  destruct (decide _); [by injection Hc as <-|].
  bind_ok Hc as lnum El. destruct (decide _); [by injection Hc as <-|].
  destruct (decide _).
  - bind_ok Hc as k Ek. by injection Hc as <-.
  - destruct (decide _); [by eapply make_control_points_drawable|by injection Hc as <-].
Qed.

Lemma on_click_drawable `{Canvas} d event d' :
  drawable d -> on_click d event = Ok d' -> drawable d'.
Proof.
  unfold on_click. intros Hd Hc.
  destruct (inaxes event) as [ax|]; [|by injection Hc as <-].
  assert (match mode d with
          | NORMAL_MODE =>
              if decide (ax = orig_axes ∧ button event = 1) then
                hit ← get_control_point d event;
                match hit with
                | Some best => Ok (with_active d (Some best))
                | None => click_object d event
                end
              else if decide (ax = orig_axes ∧ button event = 3) then
                match xdata event, ydata event with
                | Some ex, Some ey =>
                    match artist_around d (ex, ey) with
                    | Some label => Ok (close_label d label)
                    | None => click_object d event
                    end
                | _, _ => Raise TypeError
                end
              else click_object d event
          | SPLIT_PICK_FIRST_MODE => on_split_first_click d event
          | SPLIT_PICK_SECOND_MODE => on_split_second_click d event
          end = Ok d' -> drawable d') as Hall.
  { intros Hax. destruct (mode d).
    - destruct (decide _).
      + bind_ok Hax as hit Eh. destruct hit as [best|]; [by injection Hax as <-|].
        by eapply click_object_drawable.
      + destruct (decide _); [|by eapply click_object_drawable].
        destruct (xdata event), (ydata event); try done.
        destruct (artist_around _ _).
        * injection Hax as <-. by apply close_label_drawable.
        * by eapply click_object_drawable.
    - by eapply on_split_first_click_drawable.
    - by eapply on_split_second_click_drawable. }
  destruct ax; try (by apply Hall). by injection Hc as <-.
Qed.

Lemma on_key_down_drawable `{Canvas} d k event d' :
  drawable d -> on_key_down d k event = Ok d' -> drawable d'.
Proof.
  unfold on_key_down. intros Hd Hk.
  destruct (mode d), k; try (by injection Hk as <-);
    try (by eapply delete_control_point_drawable);
    try (by eapply new_object_drawable);
    injection Hk as <-; unfold drawable; by rewrite ?exit_split_mode_artists.
Qed.

Lemma handle_drawable `{Canvas} d a d' :
  drawable d -> handle d a = Ok d' -> drawable d'.
Proof.
  intros Hd. destruct a; simpl; try (by intros [= <-]).
  - by apply on_click_drawable.
  - by apply on_key_down_drawable.
Qed.

(** From the opening of the dialog on, every chain has a vertex besides its
    closing point, so the hit test never fails. *)
Lemma session_drawable `{Canvas} orig script : forall d0 d,
  init_dialog orig = Ok d0 -> handle_all d0 script = Ok d -> drawable d.
Proof.
  intros d0 d Hinit. assert (drawable d0) as Hd0.
  { unfold init_dialog in Hinit. bind_ok Hinit as m Em.
    destruct (_ <? _); [done|]. injection Hinit as <-. by intros k a. }
  clear Hinit. revert d0 Hd0.
  induction script as [|a script IH]; intros d0 Hd0 Hrun; simpl in Hrun.
  - by injection Hrun as <-.
  - bind_ok Hrun as d1 E1. eapply IH; [|exact Hrun]. by eapply handle_drawable.
Qed.

(** ** Split legality *)

Lemma ok_to_split_decision (d : Dialog) (pick_artist first_artist : nat)
    (pick_index first_index : nat) (pick first : Artist) :
  split_pick d = Some (first_artist, first_index) ->
  artists d !! pick_artist = Some pick ->
  artists d !! first_artist = Some first ->
  let lo := Z.of_nat (Nat.min pick_index first_index) in
  let hi := Z.of_nat (Nat.max pick_index first_index) in
  let len := Z.of_nat (length (xydata pick)) in
  exists ok,
    ok_to_split d (Some pick_artist) pick_index = Ok ok
    /\ (ok = true ↔
          K_LABEL pick = K_LABEL first
          /\ (pick_artist = first_artist ->
                2 <= hi - lo /\ ~ (len - hi <= 2 /\ lo = 0))
          /\ (pick_artist ≠ first_artist -> K_OUTSIDE pick ≠ K_OUTSIDE first)).
Proof.
  intros Hsplit Hpick Hfirst lo hi len.
  unfold ok_to_split, artist_of. rewrite Hsplit, Hpick, Hfirst. simpl.
  destruct (decide (K_LABEL pick ≠ K_LABEL first)) as [Hlab|Hlab].
  { exists false. split; [done|]. split; [done|]. tauto. }
  apply dec_stable in Hlab.
  destruct (decide (pick_artist = first_artist)) as [Heq|Hne].
  - fold lo hi len.
    destruct (decide (hi - lo < 2)) as [Hnear|Hfar].
    { exists false. split; [done|]. split; [done|].
      intros (_ & H2 & _). specialize (H2 Heq). lia. }
    destruct (decide (len - hi <= 2 /\ Nat.min pick_index first_index = 0%nat))
      as [Hwrap|Hwrap].
    { exists false. split; [done|]. split; [done|].
      intros (_ & H2 & _). specialize (H2 Heq).
      destruct H2 as [_ H2]. destruct H2. subst lo. lia. }
    exists true. split; [done|]. split; [|done].
    intros _. split; [done|]. split; [|done].
    intros _. split; [lia|]. subst lo. lia.
  - destruct (decide (K_OUTSIDE pick = K_OUTSIDE first)) as [Hout|Hout].
    { exists false. split; [done|]. split; [done|].
      intros (_ & _ & H3). exfalso. by apply H3. }
    exists true. split; [done|]. split; [|done].
    intros _. split; [done|]. split; [done|]. by intros _.
Qed.

(** C6: for two picked control points of chains of the dialog,
    [ok_to_split] returns, and it accepts exactly when (1) the two chains
    carry the same object number, (2) on one chain the indices differ by at
    least 2 and it is not the case that the larger lies within the last two
    positions of the array while the smaller is the first position, and (3)
    on two chains exactly one of them is an outside chain.  For picked
    indices, which lie before the closing point, (2) says that the picks are
    at least two vertices apart in both directions around the closed chain.
    When the second click hits a rejected point, [on_split_second_click]
    returns the dialog unchanged. *)
Theorem ok_to_split_iff (d : Dialog) (pick_artist first_artist : nat)
    (pick_index first_index : nat) (pick first : Artist) :
  split_pick d = Some (first_artist, first_index) ->
  artists d !! pick_artist = Some pick ->
  artists d !! first_artist = Some first ->
  let lo := Z.of_nat (Nat.min pick_index first_index) in
  let hi := Z.of_nat (Nat.max pick_index first_index) in
  let len := Z.of_nat (length (xydata pick)) in
  exists ok,
    ok_to_split d (Some pick_artist) pick_index = Ok ok
    /\ (ok = true ↔
          K_LABEL pick = K_LABEL first
          /\ (pick_artist = first_artist ->
                2 <= hi - lo /\ ~ (len - hi <= 2 /\ lo = 0))
          /\ (pick_artist ≠ first_artist -> K_OUTSIDE pick ≠ K_OUTSIDE first))
    /\ (hi < len - 1 ->
          (2 <= hi - lo /\ ~ (len - hi <= 2 /\ lo = 0)
           ↔ 2 <= hi - lo /\ 2 <= (len - 1) - (hi - lo)))
    /\ (ok = false ->
          forall (C : Canvas) (event : Event),
            get_control_point d event = Ok (Some (pick_artist, pick_index)) ->
            on_split_second_click d event = Ok d).
Proof.
  intros Hsplit Hpick Hfirst lo hi len.
  destruct (ok_to_split_decision d pick_artist first_artist pick_index
              first_index pick first Hsplit Hpick Hfirst) as (ok & Hok & Hiff).
  exists ok. split; [done|]. split; [done|]. split; [subst lo hi; lia|].
  intros -> C event Hhit. unfold on_split_second_click.
  destruct (decide (inaxes event = Some orig_axes)); [|done].
  rewrite Hhit. simpl. by rewrite Hok.
Qed.

Lemma ok_to_split_iff_witness :
  ok_to_split (with_split_pick (one_chain_dialog hexagon) (Some (0%nat, 0%nat)))
              (Some 0%nat) 3 = Ok true.
Proof.
  destruct (ok_to_split_iff
              (with_split_pick (one_chain_dialog hexagon) (Some (0%nat, 0%nat)))
              0 0 3 0 (mkArtist 1 false true hexagon) (mkArtist 1 false true hexagon))
    as (ok & Hok & Hiff & _).
  - reflexivity.
  - reflexivity.
  - reflexivity.
  - rewrite Hok. f_equal. apply Hiff. simpl.
    split; [reflexivity|]. split; [lia|]. intros Hne. by destruct Hne.
Defined.

(** The claim C6 as stated fails: on the hexagon (seven array positions)
    the picks 1 and 5 are four positions apart and lie within the first two
    and the last two positions, and [ok_to_split] accepts them. *)
Lemma ok_to_split_counterexample :
  ~ (forall (d : Dialog) (pick_artist first_artist pick_index first_index : nat)
            (pick first : Artist),
       split_pick d = Some (first_artist, first_index) ->
       artists d !! pick_artist = Some pick ->
       artists d !! first_artist = Some first ->
       let lo := Z.of_nat (Nat.min pick_index first_index) in
       let hi := Z.of_nat (Nat.max pick_index first_index) in
       let len := Z.of_nat (length (xydata pick)) in
       ok_to_split d (Some pick_artist) pick_index = Ok true ↔
         K_LABEL pick = K_LABEL first
         /\ (pick_artist = first_artist ->
               2 <= hi - lo
               /\ ~ ((lo < 2 \/ len - lo <= 2) /\ (hi < 2 \/ len - hi <= 2)))
         /\ (pick_artist ≠ first_artist -> K_OUTSIDE pick ≠ K_OUTSIDE first)).
Proof.
  intros Hclaim.
  destruct (Hclaim
              (with_split_pick (one_chain_dialog hexagon) (Some (0%nat, 1%nat)))
              0%nat 0%nat 5%nat 1%nat
              (mkArtist 1 false true hexagon) (mkArtist 1 false true hexagon)
              eq_refl eq_refl eq_refl) as [Hacc _].
  destruct (Hacc ltac:(vm_compute; reflexivity)) as (_ & Hsame & _).
  destruct (Hsame eq_refl) as [_ Hzone]. apply Hzone. simpl. lia.
Qed.

(** ** Deleting a control point *)

(** C7: on drawable chains, and all chains of a session are drawable,
    [delete_control_point] returns without raising.  When the hit test
    finds a vertex, a chain that has fewer than 4 points
    now (the closing point counted) is removed whole; otherwise the row of
    the vertex is deleted and the chain is marked edited, so that a chain of
    4 points is left with 3 rather than removed.  Without a hit nothing
    changes. *)
Theorem delete_control_point_spec `{Canvas} (d : Dialog) (event : Event) :
  drawable d ->
  exists hit,
    get_control_point d event = Ok hit
    /\ match hit with
       | None => delete_control_point d event = Ok d
       | Some (k, i) =>
           exists a,
             artists d !! k = Some a
             /\ (i < length (xydata a) - 1)%nat
             /\ ((length (xydata a) < 4)%nat ->
                   delete_control_point d event
                   = Ok (with_artists d (delete k (artists d))))
             /\ ((4 <= length (xydata a))%nat ->
                   let l := take i (xydata a) ++ drop (S i) (xydata a) in
                   delete_control_point d event
                   = Ok (with_artists d
                           (<[k := mkArtist (K_LABEL a) true (K_OUTSIDE a) l]>
                              (artists d)))
                   /\ length l = (length (xydata a) - 1)%nat)
       end.
Proof.
  intros Hd. destruct (get_control_point_hit d event Hd) as (hit & Hhit & Hin).
  exists hit. split; [done|]. unfold delete_control_point. rewrite Hhit. simpl.
  destruct hit as [[k i]|]; [|done].
  destruct Hin as (a & Ha & Hi). exists a. split; [done|]. split; [done|].
  unfold artist_of. rewrite Ha. simpl. split.
  - intros Hshort. by rewrite decide_True.
  - intros Hlong. rewrite decide_False by lia. split; [done|].
    rewrite length_app, length_take, length_drop. lia.
Qed.

Lemma delete_control_point_spec_witness :
  exists hit,
    get_control_point (H := unit_canvas) (one_chain_dialog hexagon) (event_at 4 0)
    = Ok hit.
Proof.
  destruct (delete_control_point_spec (H := unit_canvas)
              (one_chain_dialog hexagon) (event_at 4 0)) as (hit & Hhit & _).
  - intros k a Hk. unfold one_chain_dialog in Hk. simpl in Hk.
    apply lookup_singleton_Some in Hk as [_ <-]. simpl. lia.
  - exists hit. exact Hhit.
Defined.

(** The claim C7 as stated fails: deleting a vertex of the triangle would
    leave 3 points, fewer than 4, yet the chain is not removed: it stays
    with 3 points. *)
Lemma delete_control_point_counterexample :
  exists d',
    delete_control_point (H := unit_canvas) (one_chain_dialog triangle) (event_at 4 0)
    = Ok d'
    /\ artists d' !! 0%nat
       = Some (mkArtist 1 true true [(0%Q, 0%Q); (0%Q, 4%Q); (0%Q, 0%Q)])
    /\ artists d' !! 0%nat ≠ None.
Proof.
  eexists. split; [vm_compute; reflexivity|]. split; [reflexivity|done].
Qed.

(** ** The session never writes to the original labels *)

Lemma close_label_orig d label :
  orig_labels (close_label d label) = orig_labels d.
Proof. unfold close_label. by destruct (existsb _ _). Qed.

Lemma make_control_points_orig d label d' :
  make_control_points d label = Ok d' -> orig_labels d' = orig_labels d.
Proof.
  unfold make_control_points. intros Hd.
  bind_ok Hd as v1 E1. bind_ok Hd as v2 E2. injection Hd as <-.
  assert (forall outside chains d0,
            orig_labels (foldl (fun d chain =>
                add_artist d (mkArtist label false outside (chain_xy chain)))
              d0 chains) = orig_labels d0) as Hfold.
  { intros outside chains. induction chains as [|c chains IH]; intros d0; simpl;
      [done|]. by rewrite IH. }
  by rewrite !Hfold.
Qed.

Lemma delete_control_point_orig `{Canvas} d event d' :
  delete_control_point d event = Ok d' -> orig_labels d' = orig_labels d.
Proof.
  unfold delete_control_point. intros Hd. bind_ok Hd as v3 E3.
  destruct v3 as [[k i]|]; [|by injection Hd as <-].
  bind_ok Hd as v4 E4. destruct (decide _); by injection Hd as <-.
Qed.

Lemma new_object_orig d event d' :
  new_object d event = Ok d' -> orig_labels d' = orig_labels d.
Proof.
  unfold new_object. destruct (xdata event), (ydata event); try done.
  by intros [= <-].
Qed.

Lemma on_split_first_click_orig `{Canvas} d event d' :
  on_split_first_click d event = Ok d' -> orig_labels d' = orig_labels d.
Proof.
  unfold on_split_first_click. intros Hd.
  destruct (decide _); [|by injection Hd as <-].
  bind_ok Hd as v5 E5. destruct v5 as [[k i]|]; [|by injection Hd as <-].
  bind_ok Hd as v6 E6. bind_ok Hd as v7 E7. by injection Hd as <-.
Qed.

Lemma split_chain_orig d a i j d' :
  split_chain d a i j = Ok d' -> orig_labels d' = orig_labels d.
Proof.
  unfold split_chain. intros Hd. bind_ok Hd as v8 E8. bind_ok Hd as v9 E9.
  apply make_control_points_orig in Hd. apply make_control_points_orig in E9.
  rewrite Hd, E9, !close_label_orig. done.
Qed.

Lemma splice_chains_orig `{Canvas} d a i b j d' :
  splice_chains d a i b j = Ok d' -> orig_labels d' = orig_labels d.
Proof.
  unfold splice_chains. intros Hd. bind_ok Hd as v10 E10. bind_ok Hd as v11 E11.
  destruct (contains_path _ _);
    (bind_ok Hd as o1 Eo1; bind_ok Hd as o2 Eo2; bind_ok Hd as o3 Eo3;
     bind_ok Hd as o4 Eo4; by injection Hd as <-).
Qed.

Lemma exit_split_mode_orig d : orig_labels (exit_split_mode d) = orig_labels d.
Proof. unfold exit_split_mode. by destruct (mode d). Qed.

Lemma on_split_second_click_orig `{Canvas} d event d' :
  on_split_second_click d event = Ok d' -> orig_labels d' = orig_labels d.
Proof.
  unfold on_split_second_click. intros Hd.
  destruct (decide _); [|by injection Hd as <-].
  bind_ok Hd as v13 E13. bind_ok Hd as v14 E14.
  destruct (negb _); [by injection Hd as <-|].
  destruct v13 as [[k i]|]; [|done]. destruct (split_pick d) as [[k' i']|]; [|done].
  bind_ok Hd as v15 E15. injection Hd as <-. rewrite exit_split_mode_orig.
  destruct (decide _).
  - by eapply split_chain_orig.
  - by eapply splice_chains_orig.
Qed.

Lemma click_object_orig d event d' :
  click_object d event = Ok d' -> orig_labels d' = orig_labels d.
Proof.
  unfold click_object. intros Hd.
  destruct (xdata event), (ydata event); try done.
  destruct (decide _); [by injection Hd as <-|].
  bind_ok Hd as v16 E16. destruct (decide _); [by injection Hd as <-|].
  destruct (decide _).
  - bind_ok Hd as v17 E17. by injection Hd as <-.
  - destruct (decide _); [by eapply make_control_points_orig|by injection Hd as <-].
Qed.

Lemma on_click_orig `{Canvas} d event d' :
  on_click d event = Ok d' -> orig_labels d' = orig_labels d.
Proof.
  unfold on_click. intros Hd.
  assert (forall ax, match mode d with
            | NORMAL_MODE =>
                if decide (ax = orig_axes ∧ button event = 1) then
                  hit ← get_control_point d event;
                  match hit with
                  | Some best => Ok (with_active d (Some best))
                  | None => click_object d event
                  end
                else if decide (ax = orig_axes ∧ button event = 3) then
                  match xdata event, ydata event with
                  | Some ex, Some ey =>
                      match artist_around d (ex, ey) with
                      | Some label => Ok (close_label d label)
                      | None => click_object d event
                      end
                  | _, _ => Raise TypeError
                  end
                else click_object d event
            | SPLIT_PICK_FIRST_MODE => on_split_first_click d event
            | SPLIT_PICK_SECOND_MODE => on_split_second_click d event
            end = Ok d' -> orig_labels d' = orig_labels d) as Hall.
  { intros ax Hax. destruct (mode d).
    - destruct (decide _).
      + bind_ok Hax as v18 E18. destruct v18 as [best|]; [by injection Hax as <-|].
        by eapply click_object_orig.
      + destruct (decide _); [|by eapply click_object_orig].
        destruct (xdata event), (ydata event); try done.
        destruct (artist_around _ _).
        * injection Hax as <-. apply close_label_orig.
        * by eapply click_object_orig.
    - by eapply on_split_first_click_orig.
    - by eapply on_split_second_click_orig. }
  destruct (inaxes event) as [[]|]; try (by injection Hd as <-); by eapply Hall.
Qed.

Lemma on_key_down_orig `{Canvas} d k event d' :
  on_key_down d k event = Ok d' -> orig_labels d' = orig_labels d.
Proof.
  unfold on_key_down. intros Hd.
  destruct (mode d), k; try (by injection Hd as <-);
    try (by eapply delete_control_point_orig);
    try (by eapply new_object_orig);
    injection Hd as <-; apply exit_split_mode_orig.
Qed.

Lemma handle_orig `{Canvas} d a d' :
  handle d a = Ok d' -> orig_labels d' = orig_labels d.
Proof.
  destruct a; simpl; try (by intros [= <-]).
  - apply on_click_orig.
  - apply on_key_down_orig.
Qed.

Lemma handle_all_orig `{Canvas} script : forall d d',
  handle_all d script = Ok d' -> orig_labels d' = orig_labels d.
Proof.
  induction script as [|a script IH]; intros d d' Hd; simpl in Hd.
  - by injection Hd as <-.
  - bind_ok Hd as v19 E19. rewrite (IH _ _ Hd). by eapply handle_orig.
Qed.

Lemma init_dialog_orig orig d :
  init_dialog orig = Ok d -> orig_labels d = orig /\ labels d = orig.
Proof.
  unfold init_dialog. intros Hd. bind_ok Hd as v20 E20.
  destruct (_ <? _); [done|]. by injection Hd as <-.
Qed.

(** ** Cancelling the session *)

(** C9: when the user cancels, [filter_objects] raises [RuntimeError], an
    outcome apart from every returned label matrix; no label matrix comes
    back, edited or original, and [run] raises with it.  The edits are lost
    with the dialog, and the matrix the caller holds is not written to: the
    dialog's [orig_labels] is the caller's matrix to the end of the session.
    Done returns the labels of the dialog. *)
Theorem cancel_raises `{Canvas} (orig : LabelMatrix) (script : list action) :
  (forall l, filter_objects orig script wx_CANCEL ≠ Ok l)
  /\ (forall choice out, run choice (Some (script, wx_CANCEL)) orig ≠ Ok out)
  /\ (forall d d',
        init_dialog orig = Ok d ->
        handle_all d script = Ok d' ->
        filter_objects orig script wx_CANCEL
        = Raise (RuntimeError "User cancelled EditObjectsManually")
        /\ (forall choice,
              run choice (Some (script, wx_CANCEL)) orig
              = Raise (RuntimeError "User cancelled EditObjectsManually"))
        /\ filter_objects orig script wx_OK = Ok (labels d')
        /\ orig_labels d' = orig).
Proof.
  assert (Hno : forall l, filter_objects orig script wx_CANCEL ≠ Ok l).
  { intros l. unfold filter_objects, ShowModal.
    destruct (init_dialog orig) as [d| |]; simpl; try done.
    destruct (handle_all d script) as [d'| |]; simpl; done. }
  split; [done|]. split.
  - intros choice out. unfold run.
    destruct (filter_objects orig script wx_CANCEL) as [l| |] eqn:Hf; simpl;
      try done.
    by destruct (Hno l).
  - intros d d' Hinit Hrun.
    assert (filter_objects orig script wx_CANCEL
            = Raise (RuntimeError "User cancelled EditObjectsManually")) as Hc.
    { unfold filter_objects, ShowModal. rewrite Hinit. simpl. by rewrite Hrun. }
    split; [done|]. split; [|split].
    + intros choice. unfold run. by rewrite Hc.
    + unfold filter_objects, ShowModal. rewrite Hinit. simpl. by rewrite Hrun.
    + rewrite (handle_all_orig script d d' Hrun).
      by apply init_dialog_orig in Hinit as [-> _].
Qed.

Lemma cancel_raises_witness :
  filter_objects (H := unit_canvas) [[0; 1]; [1; 1]] [keep_all; reset] wx_CANCEL
  = Raise (RuntimeError "User cancelled EditObjectsManually").
Proof.
  destruct (cancel_raises (H := unit_canvas) [[0; 1]; [1; 1]] [keep_all; reset])
    as (_ & _ & Hrun).
  eapply Hrun; vm_compute; reflexivity.
Defined.

(** The claim C9 as stated fails: after Cancel the caller does not get the
    original label matrix back, it gets the exception. *)
Lemma cancel_counterexample :
  ~ (forall (orig : LabelMatrix) (script : list action),
       filter_objects (H := unit_canvas) orig script wx_CANCEL = Ok orig).
Proof.
  intros Hclaim. specialize (Hclaim [[0; 1]; [1; 1]] []).
  vm_compute in Hclaim. discriminate Hclaim.
Qed.

(** ** A new object *)


Lemma inject_Z_pred (n : Z) : (inject_Z (n - 1) == inject_Z n - 1)%Q.
Proof. unfold Z.sub. rewrite inject_Z_plus. reflexivity. Qed.


Lemma clamp_high_below (n : nat) (v : Q) :
  ((if Qle_bool (inject_Z (Z.of_nat n)) v then inject_Z (Z.of_nat n - 1) else v)
   < inject_Z (Z.of_nat n))%Q.
Proof.
  destruct (Qle_bool (inject_Z (Z.of_nat n)) v) eqn:Hc.
  - rewrite inject_Z_pred. lra.
  - apply Qnot_le_lt. intros Hle. apply Qle_bool_iff in Hle. congruence.
Qed.


Lemma clamp_y_below (n : nat) (a : list Q) :
  Forall (fun v => (v < inject_Z (Z.of_nat n))%Q) (clamp_high n a).
Proof.
  unfold clamp_high. rewrite Forall_fmap. apply Forall_forall.
  intros v _. apply clamp_high_below.
Qed.

(** C8: [new_object] at the cursor (25, 5) of a 50x50 image.  The object
    gets the next number, the keep array grows by a kept entry and an edited
    outside chain of 13 points is opened; its vertex at the angle 3 pi / 2
    has y = 5 - 20 = -15, above the image: the y coordinates are clamped
    at the lower border of the image only, where the x coordinates are
    clamped on both sides. *)
Theorem new_object_vertex_outside :
  exists d' a p,
    new_object (one_chain_dialog triangle) (event_at 25 5) = Ok d'
    /\ to_keep d' = [true; true; true]
    /\ artists d' !! 1%nat = Some a
    /\ K_LABEL a = 2 /\ K_EDITED a = true /\ K_OUTSIDE a = true
    /\ length (xydata a) = 13%nat
    /\ Forall (fun q : point => (0 <= q.1)%Q /\ (q.1 < 50)%Q) (xydata a)
    /\ xydata a !! 9%nat = Some p
    /\ (p.2 == -15)%Q
    /\ (p.2 < 0)%Q.
Proof.
  eexists _, _, _. split; [vm_compute; reflexivity|].
  split; [reflexivity|]. split; [reflexivity|].
  split; [reflexivity|]. split; [reflexivity|]. split; [reflexivity|].
  split; [reflexivity|]. split.
  - repeat (constructor; [split; vm_compute; congruence|]). constructor.
  - split; [reflexivity|]. split; [reflexivity|]. vm_compute. reflexivity.
Qed.

(** ** The neighbor engine on an image without objects *)

Lemma max_label_zero (labels : LabelMatrix) :
  Forall (Forall (fun v => v = 0)) labels -> foldr Z.max 0 (flatten labels) = 0.
Proof.
  unfold flatten. induction 1 as [|row labels Hrow _ IH]; simpl; [done|].
  rewrite foldr_app, IH. induction Hrow as [|v row -> _ IHrow]; simpl; [done|].
  by rewrite IHrow.
Qed.

(** C3: for an all-zero primary label matrix, under every distance mode,
    in self mode and against any neighbor label matrix, the engine returns
    no measurement row, so the vector of every feature has length zero, and
    the relationship list is empty.  The engine is a total function: there
    is no exception to raise. *)
Theorem no_objects_no_rows (mode : Neighbors.distance_mode) (self_mode : bool)
    (labels nlabels : LabelMatrix) :
  Forall (Forall (fun v => v = 0)) labels ->
  Neighbors.measure mode self_mode labels nlabels = Neighbors.mkOutput [] []
  /\ (forall (A : Type) (f : Neighbors.Row -> A),
        length (Neighbors.feature f
                  (Neighbors.measure mode self_mode labels nlabels)) = 0%nat)
  /\ Neighbors.measure mode true labels labels = Neighbors.mkOutput [] [].
Proof.
  intros Hzero.
  assert (Neighbors.object_ids labels = []) as Hids.
  { unfold Neighbors.object_ids. by rewrite max_label_zero. }
  assert (forall s n, Neighbors.measure mode s labels n = Neighbors.mkOutput [] [])
    as Hall.
  { intros s n. unfold Neighbors.measure. by rewrite Hids. }
  split; [apply Hall|]. split; [|apply Hall].
  intros A f. by rewrite Hall.
Qed.

Lemma no_objects_no_rows_witness :
  Neighbors.measure Neighbors.expand true
    (replicate 10 (replicate 10 0)) (replicate 10 (replicate 10 0))
  = Neighbors.mkOutput [] [].
Proof.
  refine (proj1 (no_objects_no_rows Neighbors.expand true
                   (replicate 10 (replicate 10 0)) (replicate 10 (replicate 10 0)) _)).
  repeat (constructor; [repeat constructor|]). constructor.
Defined.

(** ** The hit test finds the nearest control point *)

Lemma Qltb_false_le (a b : Q) : Qltb a b = false -> (b <= a)%Q.
Proof.
  unfold Qltb. rewrite negb_false_iff. apply Qle_bool_iff.
Qed.

Lemma Qltb_true_lt (a b : Q) : Qltb a b = true -> (a < b)%Q.
Proof.
  unfold Qltb. rewrite negb_true_iff. intros Hf.
  apply Qnot_le_lt. intros Hle. apply Qle_bool_iff in Hle. congruence.
Qed.

Lemma argmin_from_least (l : list Q) : forall best_index best k,
  let r := argmin_from Qltb best_index best k l in
  (r = best_index /\ Forall (Qle best) l)
  \/ (exists i x, r = (k + i)%nat /\ l !! i = Some x /\ (x < best)%Q
        /\ Forall (Qle x) l).
Proof.
  induction l as [|x l IH]; intros best_index best k; simpl.
  - left. split; [done|constructor].
  - destruct (Qltb x best) eqn:Hx.
    + apply Qltb_true_lt in Hx. right.
      destruct (IH k x (S k)) as [[Hr Hall]|(i & y & Hr & Hi & Hy & Hall)].
      * exists 0%nat, x. split; [simpl in *; lia|]. split; [done|]. split; [done|].
        constructor; [apply Qle_refl|done].
      * exists (S i), y. split; [simpl in *; lia|]. split; [done|].
        split; [lra|]. constructor; [lra|done].
    + apply Qltb_false_le in Hx.
      destruct (IH best_index best (S k)) as [[Hr Hall]|(i & y & Hr & Hi & Hy & Hall)].
      * left. split; [done|]. by constructor.
      * right. exists (S i), y. split; [simpl in *; lia|]. split; [done|].
        split; [done|]. constructor; [lra|done].
Qed.

Lemma np_argmin_least (l : list Q) :
  l ≠ [] ->
  exists k x, np_argmin Qltb l = Ok k /\ l !! k = Some x /\ Forall (Qle x) l.
Proof.
  destruct l as [|x l]; [done|]. intros _. simpl.
  destruct (argmin_from_least l 0%nat x 1%nat)
    as [[Hr Hall]|(i & y & Hr & Hi & Hy & Hall)]; simpl in *.
  - exists 0%nat, x. rewrite Hr. split; [done|]. split; [done|].
    constructor; [apply Qle_refl|done].
  - exists (S i), y. rewrite Hr. split; [done|]. split; [done|].
    constructor; [lra|done].
Qed.

Lemma lookup_but_last {A} (l : list A) i p :
  but_last l !! i = Some p ↔ (i < length l - 1)%nat /\ l !! i = Some p.
Proof.
  unfold but_last. destruct (decide (i < length l - 1)%nat).
  - rewrite lookup_take_lt by done. tauto.
  - rewrite lookup_take_ge by lia. split; [done|]. intros [? _]. lia.
Qed.

Section nearest.
Context `{Canvas}.
Variable event : Event.

(** The squared display distance of a vertex from the cursor. *)
Let away (p : point) : Q := dist2 (transform p) (ev_x event) (ev_y event).

(** [p] is vertex [i] of the chain [kv], the closing point left out. *)
Let vertex (kv : nat * Artist) (i : nat) (p : point) : Prop :=
  (i < length (xydata kv.2) - 1)%nat /\ xydata kv.2 !! i = Some p.

(** What the loop of [get_control_point] knows after the chains [seen]. *)
Let nearest_of (seen : list (nat * Artist)) (best : option (Q * nat * nat)) : Prop :=
  match best with
  | None =>
      forall kv i p, kv ∈ seen -> vertex kv i p -> (epsilon * epsilon <= away p)%Q
  | Some (best_d, k, i) =>
      exists a p, (k, a) ∈ seen /\ vertex (k, a) i p /\ best_d = away p
        /\ (best_d < epsilon * epsilon)%Q
        /\ forall kv' i' p', kv' ∈ seen -> vertex kv' i' p' -> (best_d <= away p')%Q
  end.

Lemma control_point_step_nearest seen best kv :
  (2 <= length (xydata kv.2))%nat -> nearest_of seen best ->
  exists best', control_point_step event best kv = Ok best'
    /\ nearest_of (seen ++ [kv]) best'.
Proof.
  intros Hlen Hbest. unfold control_point_step.
  set (dists := map _ (but_last (xydata kv.2))).
  assert (dists = map away (but_last (xydata kv.2))) as Hd by done.
  destruct (np_argmin_least dists) as (idx & di & -> & Hdi & Hleast).
  { rewrite Hd. intros Hnil. apply (f_equal length) in Hnil.
    rewrite length_map, length_but_last in Hnil. simpl in Hnil. lia. }
  simpl. rewrite Hdi.
  assert (Hmine : forall i p, vertex kv i p -> (di <= away p)%Q).
  { intros i p [Hi Hp]. rewrite Forall_forall in Hleast. apply Hleast.
    rewrite Hd. apply list_elem_of_fmap. exists p. split; [done|].
    apply list_elem_of_lookup. exists i. by apply lookup_but_last. }
  assert (Hidx : exists p, vertex kv idx p /\ di = away p).
  { rewrite Hd, list_lookup_fmap in Hdi.
    destruct (but_last (xydata kv.2) !! idx) as [p|] eqn:Hp; [|done].
    injection Hdi as <-. exists p. split; [|done]. by apply lookup_but_last. }
  destruct Hidx as (p & Hp & Hdp).
  destruct (Qltb di (epsilon * epsilon)) eqn:Hnear; simpl.
  - apply Qltb_true_lt in Hnear. destruct best as [[[bd k] i]|].
    + destruct Hbest as (a & q & Hin & Hq & Hbd & Hbe & Hall).
      destruct (Qltb di bd) eqn:Hcloser.
      * apply Qltb_true_lt in Hcloser. eexists. split; [done|].
        exists kv.2, p. split; [apply elem_of_app; right; destruct kv; by left|].
        split; [done|]. split; [done|]. split; [done|].
        intros kv' i' p' Hkv' Hv'. apply elem_of_app in Hkv' as [Hkv'|Hkv'].
        -- specialize (Hall kv' i' p' Hkv' Hv'). lra.
        -- apply list_elem_of_singleton in Hkv' as ->. apply (Hmine i' p' Hv').
      * apply Qltb_false_le in Hcloser. eexists. split; [done|].
        exists a, q. split; [apply elem_of_app; by left|].
        split; [done|]. split; [done|]. split; [done|].
        intros kv' i' p' Hkv' Hv'. apply elem_of_app in Hkv' as [Hkv'|Hkv'].
        -- by apply (Hall kv' i' p').
        -- apply list_elem_of_singleton in Hkv' as ->.
           specialize (Hmine i' p' Hv'). lra.
    + eexists. split; [done|].
      exists kv.2, p. split; [apply elem_of_app; right; destruct kv; by left|].
      split; [done|]. split; [done|]. split; [done|].
      intros kv' i' p' Hkv' Hv'. apply elem_of_app in Hkv' as [Hkv'|Hkv'].
      * specialize (Hbest kv' i' p' Hkv' Hv'). lra.
      * apply list_elem_of_singleton in Hkv' as ->. apply (Hmine i' p' Hv').
  - apply Qltb_false_le in Hnear. eexists. split; [done|].
    destruct best as [[[bd k] i]|].
    + destruct Hbest as (a & q & Hin & Hq & Hbd & Hbe & Hall).
      exists a, q. split; [apply elem_of_app; by left|].
      split; [done|]. split; [done|]. split; [done|].
      intros kv' i' p' Hkv' Hv'. apply elem_of_app in Hkv' as [Hkv'|Hkv'].
      * by apply (Hall kv' i' p').
      * apply list_elem_of_singleton in Hkv' as ->.
        specialize (Hmine i' p' Hv'). lra.
    + intros kv' i' p' Hkv' Hv'. apply elem_of_app in Hkv' as [Hkv'|Hkv'].
      * by apply (Hbest kv' i' p').
      * apply list_elem_of_singleton in Hkv' as ->.
        specialize (Hmine i' p' Hv'). lra.
Qed.

Lemma control_point_loop_nearest (l : list (nat * Artist)) : forall seen best,
  (forall kv, kv ∈ l -> (2 <= length (xydata kv.2))%nat) ->
  nearest_of seen best ->
  exists best', control_point_loop event best l = Ok best'
    /\ nearest_of (seen ++ l) best'.
Proof.
  induction l as [|kv l IH]; intros seen best Hl Hbest; simpl.
  - exists best. by rewrite app_nil_r.
  - destruct (control_point_step_nearest seen best kv (Hl kv ltac:(left)) Hbest)
      as (best1 & -> & Hbest1).
    simpl. destruct (IH (seen ++ [kv]) best1) as (best' & Hloop & Hbest').
    + intros kv' Hkv'. apply Hl. by right.
    + done.
    + exists best'. split; [done|]. by rewrite <- app_assoc in Hbest'.
Qed.

(** X1: on drawable chains the hit test returns.  A hit is the control
    point, the closing points left out, that is nearest to the cursor over
    all chains of the dialog, and it lies within [epsilon] of the cursor;
    there is no hit exactly when no control point lies within [epsilon]. *)
Theorem get_control_point_nearest (d : Dialog) :
  drawable d ->
  exists hit,
    get_control_point d event = Ok hit
    /\ match hit with
       | Some (k, i) =>
           exists a p,
             artists d !! k = Some a
             /\ (i < length (xydata a) - 1)%nat
             /\ xydata a !! i = Some p
             /\ (away p < epsilon * epsilon)%Q
             /\ forall k' a' i' p',
                  artists d !! k' = Some a' ->
                  (i' < length (xydata a') - 1)%nat ->
                  xydata a' !! i' = Some p' ->
                  (away p <= away p')%Q
       | None =>
           forall k' a' i' p',
             artists d !! k' = Some a' ->
             (i' < length (xydata a') - 1)%nat ->
             xydata a' !! i' = Some p' ->
             (epsilon * epsilon <= away p')%Q
       end.
Proof.
  intros Hd. unfold get_control_point.
  destruct (control_point_loop_nearest (map_to_list (artists d)) [] None)
    as (best & -> & Hbest).
  - intros [k a] Hkv. apply elem_of_map_to_list in Hkv. by apply (Hd k a).
  - intros kv i p Hkv. by apply elem_of_nil in Hkv.
  - simpl. eexists. split; [done|]. simpl in Hbest.
    destruct best as [[[bd k] i]|].
    + destruct Hbest as (a & p & Hin & [Hi Hp] & -> & Hnear & Hall).
      exists a, p. apply elem_of_map_to_list in Hin.
      split; [done|]. split; [done|]. split; [done|]. split; [done|].
      intros k' a' i' p' Hk' Hi' Hp'. apply (Hall (k', a') i' p'); [|done].
      by apply elem_of_map_to_list.
    + intros k' a' i' p' Hk' Hi' Hp'. apply (Hbest (k', a') i' p'); [|done].
      by apply elem_of_map_to_list.
Qed.

End nearest.

Lemma get_control_point_nearest_witness :
  exists hit,
    get_control_point (H := unit_canvas) (one_chain_dialog hexagon) (event_at 4 1)
    = Ok hit.
Proof.
  destruct (get_control_point_nearest (H := unit_canvas) (event_at 4 1)
              (one_chain_dialog hexagon)) as (hit & Hhit & _).
  - intros k a Hk. unfold one_chain_dialog in Hk. simpl in Hk.
    apply lookup_singleton_Some in Hk as [_ <-]. simpl. lia.
  - exists hit. exact Hhit.
Defined.

(** ** The boundary walk stays on its component *)

Lemma np_get_map {A B} (f : A -> B) (l : list A) i :
  np_get (map f l) i = (v ← np_get l i; Ok (f v)).
Proof.
  unfold np_get. rewrite length_map.
  destruct (np_index (length l) i) as [k| |]; simpl; try done.
  rewrite list_lookup_fmap. by destruct (l !! k).
Qed.

Lemma np_get2_eq_mask labels sub i j :
  np_get2 (eq_mask labels sub) i j = Ok true ↔ np_get2 labels i j = Ok sub.
Proof.
  unfold np_get2, eq_mask. rewrite np_get_map.
  destruct (np_get labels i) as [row| |]; simpl; try done.
  rewrite np_get_map. destruct (np_get row j) as [v| |]; simpl; try done.
  destruct (bool_decide_reflect (v = sub)); split; intros [=]; by subst.
Qed.

Lemma traversal_order_offsets :
  Forall (Forall (fun t : Z * Z * Z => t ∈ base_order)) traversal_order.
Proof.
  apply Forall_forall. intros row Hrow. apply Forall_forall. intros t Ht.
  assert (forallb (forallb (fun t : Z * Z * Z => bool_decide (t ∈ base_order)))
                  traversal_order = true) as Hall by (vm_compute; reflexivity).
  rewrite forallb_forall in Hall. apply list_elem_of_In in Hrow.
  specialize (Hall row Hrow). rewrite forallb_forall in Hall.
  apply list_elem_of_In in Ht. specialize (Hall t Ht).
  by apply bool_decide_eq_true in Hall.
Qed.

Lemma first_hit_on_mask mask ic jc direction t :
  first_hit mask ic jc direction = Ok t ->
  np_get2 mask (ic + t.1.1) (jc + t.1.2) = Ok true /\ t ∈ base_order.
Proof.
  unfold first_hit. intros Hf. bind_ok Hf as row Erow. bind_ok Hf as hits Ehits.
  destruct (filter _ (zip row hits)) as [|[t' b] rest] eqn:Efilter; [done|].
  injection Hf as ->.
  assert ((t, b) ∈ filter (fun th : (Z * Z * Z) * bool => th.2 = true)
                          (zip row hits)) as Hin by (rewrite Efilter; left).
  apply list_elem_of_filter in Hin as [Hb Hin]. simpl in Hb. subst b.
  apply list_elem_of_lookup in Hin as [i Hi].
  apply lookup_zip_with_Some in Hi as (t0 & b0 & [= <- <-] & Ht & Hb).
  apply rmapM_inv in Ehits.
  destruct (Forall2_lookup_l _ _ _ _ _ Ehits Ht) as (b' & Hb' & Hget).
  rewrite Hb in Hb'. injection Hb' as <-. split; [done|].
  unfold np_get in Erow.
  destruct (np_index _ direction) as [k| |]; simpl in Erow; try done.
  destruct (traversal_order !! k) as [row'|] eqn:Ek; [|done].
  injection Erow as ->.
  pose proof traversal_order_offsets as Hall.
  rewrite Forall_forall in Hall.
  specialize (Hall row (list_elem_of_lookup_2 _ _ _ Ek)).
  rewrite Forall_forall in Hall. apply Hall.
  by eapply list_elem_of_lookup_2.
Qed.

Lemma base_order_adjacent t :
  t ∈ base_order -> Z.max (Z.abs t.1.1) (Z.abs t.1.2) = 1.
Proof.
  unfold base_order. intros Ht.
  repeat (apply elem_of_cons in Ht as [->|Ht]; [simpl; lia|]).
  by apply elem_of_nil in Ht.
Qed.

Lemma elem_of_every_from {A} (k : nat) (l : list A) : forall skip x,
  x ∈ every_from skip k l -> x ∈ l.
Proof.
  induction l as [|y l IH]; intros skip x; simpl; [done|].
  destruct skip as [|skip].
  - intros Hx. apply elem_of_cons in Hx as [->|Hx]; [left|right; by eapply IH].
  - intros Hx. right. by eapply IH.
Qed.

Lemma finish_chain_Forall (P : Z * Z -> Prop) polarity chain ic jc :
  Forall P chain -> P (ic - 1, jc - 1) ->
  Forall P (finish_chain polarity chain ic jc).
Proof.
  intros Hchain Hend. unfold finish_chain. apply Forall_app. split; [|by constructor].
  assert (Forall P (if polarity then chain else rev chain)) as Hwound.
  { destruct polarity; [done|]. by apply Forall_rev. }
  destruct (decide _); [|done].
  apply Forall_forall. intros x Hx. apply elem_of_every_from in Hx.
  rewrite Forall_forall in Hwound. by apply Hwound.
Qed.

Lemma walk_path (fuel : nat) polarity mask si sj : forall ic jc direction chain c,
  np_get2 mask si sj = Ok true ->
  walk fuel polarity mask si sj ic jc direction chain = Ok c ->
  exists tail,
    c = finish_chain polarity (chain ++ (ic - 1, jc - 1) :: tail) si sj
    /\ Forall (fun p => np_get2 mask (p.1 + 1) (p.2 + 1) = Ok true) tail
    /\ (forall i p q, ((ic - 1, jc - 1) :: tail) !! i = Some p ->
          (tail ++ [(si - 1, sj - 1)]) !! i = Some q -> adjacent8 p q).
Proof.
  induction fuel as [|fuel IH]; intros ic jc direction chain c Hstart; simpl;
    [done|].
  intros Hw. bind_ok Hw as t Et.
  apply first_hit_on_mask in Et as [Hon Ht].
  apply base_order_adjacent in Ht.
  destruct (Z.eqb_spec (ic + t.1.1) si) as [Hi|Hi]; simpl in Hw.
  - destruct (Z.eqb_spec (jc + t.1.2) sj) as [Hj|Hj]; simpl in Hw.
    + injection Hw as <-. exists []. rewrite Hi, Hj. split; [done|].
      split; [constructor|].
      intros [|i] p q; simpl; [|done]. intros [= <-] [= <-].
      unfold adjacent8. simpl. lia.
    + destruct (IH _ _ _ _ _ Hstart Hw) as (tail & -> & Htail & Hadj).
      exists ((ic + t.1.1 - 1, jc + t.1.2 - 1) :: tail).
      split; [by rewrite <- app_assoc|]. split.
      * constructor; [|done]. simpl. by rewrite !Z.sub_add.
      * intros [|i] p q; simpl.
        -- intros [= <-] [= <-]. unfold adjacent8. simpl. lia.
        -- apply Hadj.
  - destruct (IH _ _ _ _ _ Hstart Hw) as (tail & -> & Htail & Hadj).
    exists ((ic + t.1.1 - 1, jc + t.1.2 - 1) :: tail).
    split; [by rewrite <- app_assoc|]. split.
    + constructor; [|done]. simpl. by rewrite !Z.sub_add.
    + intros [|i] p q; simpl.
      * intros [= <-] [= <-]. unfold adjacent8. simpl. lia.
      * apply Hadj.
Qed.

(** X2: the walk of [make_control_points] from a pixel of the mask is a
    closed 8-connected path on the mask.  What it returns is the finished
    form (reversed for a hole, decimated when long, closing point appended)
    of a path that begins at the start pixel, moves at each step to one of
    the 8 neighbours, visits only pixels of the mask, and whose last point is
    a neighbour of the start pixel. *)
Theorem walk_closed_path (fuel : nat) (polarity : bool) (mask : Mask)
    (start_i start_j direction : Z) (chain : list (Z * Z)) :
  np_get2 mask start_i start_j = Ok true ->
  walk fuel polarity mask start_i start_j start_i start_j direction [] = Ok chain ->
  exists path,
    chain = finish_chain polarity path start_i start_j
    /\ head path = Some (start_i - 1, start_j - 1)
    /\ Forall (fun p => np_get2 mask (p.1 + 1) (p.2 + 1) = Ok true) path
    /\ (forall i p q, path !! i = Some p -> path !! S i = Some q -> adjacent8 p q)
    /\ (exists p, last path = Some p /\ adjacent8 p (start_i - 1, start_j - 1)).
Proof.
  intros Hstart Hw.
  destruct (walk_path _ _ _ _ _ _ _ _ _ _ Hstart Hw) as (tail & -> & Htail & Hadj).
  exists ((start_i - 1, start_j - 1) :: tail). simpl.
  split; [done|]. split; [done|]. split.
  - constructor; [|done]. simpl. by rewrite !Z.sub_add.
  - split.
    + intros i p q Hp Hq. apply (Hadj i p q Hp).
      simpl in Hq. by rewrite lookup_app_l by (by eapply lookup_lt_Some).
    + destruct (last ((start_i - 1, start_j - 1) :: tail)) as [p|] eqn:Hlast.
      * exists p. split; [done|].
        apply (Hadj (length tail) p); [by rewrite last_lookup in Hlast|].
        by rewrite lookup_app_r, Nat.sub_diag.
      * by rewrite last_cons in Hlast; destruct (last tail).
Qed.

Lemma walk_closed_path_witness :
  exists path,
    walk 24 true (eq_mask [[0; 0; 0; 0]; [0; 1; 1; 0]; [0; 1; 0; 0]; [0; 0; 0; 0]] 1)
         1 1 1 1 2 []
    = Ok (finish_chain true path 1 1)
    /\ head path = Some (0, 0).
Proof.
  destruct (walk_closed_path 24 true
              (eq_mask [[0; 0; 0; 0]; [0; 1; 1; 0]; [0; 1; 0; 0]; [0; 0; 0; 0]] 1)
              1 1 2 [(0, 0); (0, 1); (1, 0); (0, 0)])
    as (path & Hchain & Hhead & _).
  - vm_compute. reflexivity.
  - vm_compute. reflexivity.
  - exists path. split; [|exact Hhead]. rewrite <- Hchain. vm_compute. reflexivity.
Defined.

Lemma at2_np_get2 {A} (d : A) (m : list (list A)) i j v :
  v ≠ d -> at2 d m i j = v -> np_get2 m i j = Ok v.
Proof.
  intros Hv Hat. unfold at2 in Hat.
  destruct (in_bounds m i j) eqn:Hb; [|by subst].
  unfold in_bounds in Hb.
  apply andb_prop in Hb as [Hb Hb4]. apply andb_prop in Hb as [Hb Hb3].
  apply andb_prop in Hb as [Hb1 Hb2].
  destruct (m !! Z.to_nat i) as [row|] eqn:Hrow; [|by subst].
  destruct (row !! Z.to_nat j) as [w|] eqn:Hw; simpl in Hat; [|by subst].
  subst w. apply lookup_lt_Some in Hw as Hlt.
  assert (np_index (length m) i = Ok (Z.to_nat i)) as Ei.
  { unfold np_index. by rewrite Hb1, Hb2. }
  assert (np_index (length row) j = Ok (Z.to_nat j)) as Ej.
  { unfold np_index. rewrite Hb3. simpl.
    destruct (Z.ltb_spec j (Z.of_nat (length row))); [done|].
    apply Z.leb_le in Hb3. lia. }
  unfold np_get2, np_get. rewrite Ei. simpl. rewrite Hrow. simpl.
  rewrite Ej. simpl. by rewrite Hw.
Qed.

(** X3: every point of a chain that [make_control_points] traces for a
    component (numbered from 1, as the loop over the components does) lies
    on a pixel of that component: shifted back into the padded image, it
    indexes the component's number in the component labelling.  Decimation
    and the reversal of hole chains keep this. *)
Theorem chain_points_on_component (polarity : bool) (labels : LabelMatrix)
    (sub_object_number : Z) (chain : list (Z * Z)) :
  1 <= sub_object_number ->
  trace_component polarity labels sub_object_number = Ok (Some chain) ->
  Forall (fun p => np_get2 labels (p.1 + 1) (p.2 + 1) = Ok sub_object_number) chain.
Proof.
  intros Hsub. unfold trace_component.
  set (pixels := component_pixels labels sub_object_number).
  destruct (decide _) as [|Hlen]; [done|]. intros Ht.
  destruct (start_pixel_spec pixels) as (k & p & _ & Hk & Hstart & _).
  { intros Hnil. rewrite Hnil in Hlen. simpl in Hlen. lia. }
  rewrite Hstart in Ht. simpl in Ht. bind_ok Ht as c Ec. injection Ht as <-.
  assert (np_get2 labels p.1 p.2 = Ok sub_object_number) as Hp.
  { apply list_elem_of_lookup_2 in Hk.
    apply list_elem_of_filter in Hk as [Hat _]. simpl in Hat.
    apply (at2_np_get2 0); [lia|done]. }
  apply np_get2_eq_mask in Hp.
  destruct (walk_path _ _ _ _ _ _ _ _ _ _ Hp Ec) as (tail & -> & Htail & _).
  simpl. eapply Forall_impl.
  - apply finish_chain_Forall
      with (P := fun q => np_get2 (eq_mask labels sub_object_number)
                            (q.1 + 1) (q.2 + 1) = Ok true).
    + constructor; [simpl; by rewrite !Z.sub_add|done].
    + simpl. by rewrite !Z.sub_add.
  - intros q Hq. by apply np_get2_eq_mask.
Qed.

Lemma chain_points_on_component_witness :
  exists chain,
    trace_component true [[0; 0; 0; 0]; [0; 1; 1; 0]; [0; 1; 0; 0]; [0; 0; 0; 0]] 1
    = Ok (Some chain)
    /\ Forall (fun p => np_get2 [[0; 0; 0; 0]; [0; 1; 1; 0]; [0; 1; 0; 0]; [0; 0; 0; 0]]
                          (p.1 + 1) (p.2 + 1) = Ok 1) chain.
Proof.
  exists [(0, 0); (0, 1); (1, 0); (0, 0)]. split; [vm_compute; reflexivity|].
  apply (chain_points_on_component true); [lia|vm_compute; reflexivity].
Defined.

(** ** The keep, remove and toggle buttons *)

Lemma length_set_keep_from_1 f k : length (set_keep_from_1 f k) = length k.
Proof.
  unfold set_keep_from_1.
  rewrite length_app, length_take, length_map, length_drop. lia.
Qed.

Lemma set_keep_from_1_background f k : set_keep_from_1 f k !! 0%nat = k !! 0%nat.
Proof. by destruct k. Qed.

Lemma set_keep_from_1_object f k i :
  set_keep_from_1 f k !! S i = f <$> k !! S i.
Proof.
  destruct k as [|b k]; [done|]. unfold set_keep_from_1. simpl.
  by rewrite drop_0, list_lookup_fmap.
Qed.

Lemma with_to_keep_same d : with_to_keep d (to_keep d) = d.
Proof. by destruct d. Qed.

(** X4: the buttons Keep all, Remove all and Reverse selection write the
    entries of the keep array from index 1 on: every object is kept, removed
    or flipped, the entry of the background (index 0) and the length of the
    array are left alone, and neither the labels nor the chains change.
    Reversing the selection twice gives the dialog back. *)
Theorem keep_buttons_spec (d : Dialog) :
  let button_spec (pressed : Dialog) (f : bool -> bool) :=
    length (to_keep pressed) = length (to_keep d)
    /\ to_keep pressed !! 0%nat = to_keep d !! 0%nat
    /\ (forall i, to_keep pressed !! S i = f <$> to_keep d !! S i)
    /\ labels pressed = labels d
    /\ artists pressed = artists d in
  button_spec (on_keep d) (fun _ => true)
  /\ button_spec (on_remove d) (fun _ => false)
  /\ button_spec (on_toggle d) negb
  /\ on_toggle (on_toggle d) = d.
Proof.
  simpl. unfold on_keep, on_remove, on_toggle. simpl.
  rewrite !length_set_keep_from_1, !set_keep_from_1_background.
  repeat split; try apply set_keep_from_1_object.
  rewrite <- (with_to_keep_same d) at 3. destruct d as [o l a n k m sp sa ac].
  unfold with_to_keep. simpl. f_equal.
  apply list_eq. intros [|i].
  - by rewrite !set_keep_from_1_background.
  - rewrite !set_keep_from_1_object. destruct (k !! S i) as [b|]; [|done].
    simpl. by rewrite negb_involutive.
Qed.

(** ** New objects away from the top edge *)





(** ** The split state machine *)

Lemma result_bind_inv {A B} (k : A -> result B) (r : result A) (y : B) :
  mbind k r = Ok y -> exists x, r = Ok x /\ k x = Ok y.
Proof. destruct r as [x| |]; simpl; [eauto|done..]. Qed.

Lemma add_chains_split_state label outside chains : forall d,
  split_state (foldl (fun d chain =>
                 add_artist d (mkArtist label false outside (chain_xy chain)))
               d chains) = split_state d.
Proof. induction chains as [|c chains IH]; intros d; simpl; [done|]. by rewrite IH. Qed.

Lemma make_control_points_split_state d label d' :
  make_control_points d label = Ok d' -> split_state d' = split_state d.
Proof.
  unfold make_control_points. intros Hd.
  bind_ok Hd as outer Eo. bind_ok Hd as holes Eh. injection Hd as <-.
  by rewrite !add_chains_split_state.
Qed.

Lemma close_label_split_state d label :
  split_state (close_label d label) = split_state d.
Proof. unfold close_label. by destruct (existsb _ _). Qed.

Lemma delete_control_point_split_state `{Canvas} d event d' :
  delete_control_point d event = Ok d' -> split_state d' = split_state d.
Proof.
  unfold delete_control_point. intros Hd. bind_ok Hd as hit Ehit.
  destruct hit as [[k i]|]; [|by injection Hd as <-].
  bind_ok Hd as a Ea. destruct (decide _); by injection Hd as <-.
Qed.

Lemma new_object_split_state d event d' :
  new_object d event = Ok d' -> split_state d' = split_state d.
Proof.
  unfold new_object. destruct (xdata event), (ydata event); try done.
  by intros [= <-].
Qed.

Lemma split_chain_split_state d a i j d' :
  split_chain d a i j = Ok d' -> split_state d' = split_state d.
Proof.
  unfold split_chain. intros Hd.
  apply result_bind_inv in Hd as (art & Ea & Hd).
  apply result_bind_inv in Hd as (d1 & E1 & Hd).
  apply make_control_points_split_state in Hd.
  apply make_control_points_split_state in E1.
  rewrite Hd, E1, !close_label_split_state. done.
Qed.

Lemma splice_chains_split_state `{Canvas} d a i b j d' :
  splice_chains d a i b j = Ok d' -> split_state d' = split_state d.
Proof.
  unfold splice_chains. intros Hd. bind_ok Hd as first Ef. bind_ok Hd as pick Ep.
  destruct (contains_path _ _);
    (bind_ok Hd as o1 Eo1; bind_ok Hd as o2 Eo2; bind_ok Hd as o3 Eo3;
     bind_ok Hd as o4 Eo4; by injection Hd as <-).
Qed.

Lemma click_object_split_state d event d' :
  click_object d event = Ok d' -> split_state d' = split_state d.
Proof.
  unfold click_object. intros Hd.
  destruct (xdata event), (ydata event); try done.
  destruct (decide _); [by injection Hd as <-|].
  bind_ok Hd as lnum El. destruct (decide _); [by injection Hd as <-|].
  destruct (decide _).
  - bind_ok Hd as k Ek. by injection Hd as <-.
  - destruct (decide _); [by eapply make_control_points_split_state|
                          by injection Hd as <-].
Qed.

Lemma split_ready_state d d' :
  split_state d' = split_state d -> split_ready d -> split_ready d'.
Proof. unfold split_state, split_ready. intros [= -> -> ->]. done. Qed.

Lemma exit_split_mode_ready d : split_ready d -> split_ready (exit_split_mode d).
Proof.
  unfold split_ready, exit_split_mode. intros [Hprev Hpick].
  destruct (mode d) eqn:Hmode; simpl;
    (split; [split; [done|]; intros Hs;
             first [by apply Hprev in Hs | by destruct Hs] | done]).
Qed.

Lemma on_split_first_click_ready `{Canvas} d event d' :
  split_ready d -> on_split_first_click d event = Ok d' -> split_ready d'.
Proof.
  unfold on_split_first_click. intros Hr Hd.
  destruct (decide _); [|by injection Hd as <-].
  bind_ok Hd as hit Ehit. destruct hit as [[k i]|]; [|by injection Hd as <-].
  bind_ok Hd as a Ea. bind_ok Hd as p Ep. injection Hd as <-.
  unfold split_ready. simpl. split; [split|]; eauto.
Qed.

Lemma on_split_second_click_ready `{Canvas} d event d' :
  split_ready d -> on_split_second_click d event = Ok d' -> split_ready d'.
Proof.
  unfold on_split_second_click. intros Hr Hd.
  destruct (decide _); [|by injection Hd as <-].
  bind_ok Hd as hit Ehit. bind_ok Hd as ok Eok.
  destruct (negb _); [by injection Hd as <-|].
  destruct hit as [[k i]|]; [|done]. destruct (split_pick d) as [[k' i']|]; [|done].
  bind_ok Hd as d1 E1. injection Hd as <-. apply exit_split_mode_ready.
  apply (split_ready_state d); [|done].
  destruct (decide _).
  - by eapply split_chain_split_state.
  - by eapply splice_chains_split_state.
Qed.

Lemma on_click_ready `{Canvas} d event d' :
  split_ready d -> on_click d event = Ok d' -> split_ready d'.
Proof.
  unfold on_click. intros Hr Hd.
  assert (forall ax, match mode d with
            | NORMAL_MODE =>
                if decide (ax = orig_axes ∧ button event = 1) then
                  hit ← get_control_point d event;
                  match hit with
                  | Some best => Ok (with_active d (Some best))
                  | None => click_object d event
                  end
                else if decide (ax = orig_axes ∧ button event = 3) then
                  match xdata event, ydata event with
                  | Some ex, Some ey =>
                      match artist_around d (ex, ey) with
                      | Some label => Ok (close_label d label)
                      | None => click_object d event
                      end
                  | _, _ => Raise TypeError
                  end
                else click_object d event
            | SPLIT_PICK_FIRST_MODE => on_split_first_click d event
            | SPLIT_PICK_SECOND_MODE => on_split_second_click d event
            end = Ok d' -> split_ready d') as Hall.
  { intros ax Hax. destruct (mode d) eqn:Hmode.
    - apply (split_ready_state d); [|done]. destruct (decide _).
      + bind_ok Hax as hit Ehit. destruct hit as [best|]; [by injection Hax as <-|].
        by eapply click_object_split_state.
      + destruct (decide _); [|by eapply click_object_split_state].
        destruct (xdata event), (ydata event); try done.
        destruct (artist_around _ _).
        * injection Hax as <-. apply close_label_split_state.
        * by eapply click_object_split_state.
    - by eapply on_split_first_click_ready.
    - by eapply on_split_second_click_ready. }
  destruct (inaxes event) as [[]|]; try (by injection Hd as <-); by eapply Hall.
Qed.

Lemma on_key_down_ready `{Canvas} d k event d' :
  split_ready d -> on_key_down d k event = Ok d' -> split_ready d'.
Proof.
  unfold on_key_down. intros Hr Hd.
  destruct (mode d) eqn:Hmode, k; try (by injection Hd as <-);
    try (injection Hd as <-; by apply exit_split_mode_ready).
  - apply (split_ready_state d); [|done]. by eapply delete_control_point_split_state.
  - apply (split_ready_state d); [|done]. by eapply new_object_split_state.
  - injection Hd as <-. destruct Hr as [Hprev Hpick].
    unfold split_ready, enter_split_mode. simpl. split; [|done].
    split; [done|]. intros Hs. apply Hprev in Hs. congruence.
Qed.

Lemma handle_ready `{Canvas} d a d' :
  split_ready d -> handle d a = Ok d' -> split_ready d'.
Proof.
  intros Hr. destruct a; simpl; try (intros [= <-]; by apply (split_ready_state d)).
  - by apply on_click_ready.
  - by apply on_key_down_ready.
Qed.

Lemma handle_all_ready `{Canvas} script : forall d d',
  split_ready d -> handle_all d script = Ok d' -> split_ready d'.
Proof.
  induction script as [|a script IH]; intros d d' Hr Hd; simpl in Hd.
  - by injection Hd as <-.
  - bind_ok Hd as d1 E1. eapply IH; [|exact Hd]. by eapply handle_ready.
Qed.

(** X7: throughout an edit session the split state machine is consistent:
    the preview line [split_artist] exists exactly in the mode that picks
    the second point, and the first pick is recorded in that mode.  So
    [exit_split_mode] never calls [remove] on a missing line and
    [ok_to_split] never reads [split_pick_artist] before the first click has
    set it. *)
Theorem split_state_consistent `{Canvas} (orig : LabelMatrix)
    (script : list action) (d0 d : Dialog) :
  init_dialog orig = Ok d0 ->
  handle_all d0 script = Ok d ->
  (mode d = SPLIT_PICK_SECOND_MODE ↔ is_Some (split_artist d))
  /\ (mode d = SPLIT_PICK_SECOND_MODE -> is_Some (split_pick d))
  /\ (mode d = SPLIT_PICK_SECOND_MODE ->
      forall pick_artist pick_index,
        ok_to_split d pick_artist pick_index ≠ Raise AttributeError).
Proof.
  intros Hinit Hrun.
  assert (split_ready d0) as Hr0.
  { unfold init_dialog in Hinit. bind_ok Hinit as m Em.
    destruct (_ <? _); [done|]. injection Hinit as <-.
    unfold split_ready. simpl. split; [split|]; try done;
      intros Hs; by destruct Hs. }
  destruct (handle_all_ready _ _ _ Hr0 Hrun) as [Hprev Hpick].
  split; [done|]. split; [done|].
  intros Hmode pick_artist pick_index. destruct (Hpick Hmode) as [[k i] Hk].
  unfold ok_to_split, artist_of. rewrite Hk.
  destruct pick_artist as [a|]; [|done].
  destruct (artists d !! a); simpl; [|done].
  destruct (artists d !! k); simpl; [|done].
  repeat (destruct (decide _); try done).
Qed.

Lemma split_state_consistent_witness :
  exists d,
    handle_all (H := unit_canvas)
      (mkDialog (square 2) (square 2) ∅ 0 [true; true] NORMAL_MODE None None None)
      [key_down key_n (event_at 5 5); key_down key_s (event_at 0 0);
       click (event_at 1 1)] = Ok d
    /\ is_Some (split_artist d).
Proof.
  assert (exists d,
    handle_all (H := unit_canvas)
      (mkDialog (square 2) (square 2) ∅ 0 [true; true] NORMAL_MODE None None None)
      [key_down key_n (event_at 5 5); key_down key_s (event_at 0 0);
       click (event_at 1 1)] = Ok d
    /\ mode d = SPLIT_PICK_SECOND_MODE) as [d [Hd Hm]].
  { eexists. split; vm_compute; reflexivity. }
  exists d. split; [exact Hd|].
  apply (split_state_consistent (H := unit_canvas) (square 2) _ _ d
           ltac:(vm_compute; reflexivity) Hd).
  exact Hm.
Defined.

(** ** Object numbers index the keep array *)

Lemma np_get_elem {A} (a : list A) i v : np_get a i = Ok v -> v ∈ a.
Proof.
  unfold np_get. intros Hg. bind_ok Hg as k Ek.
  destruct (a !! k) as [w|] eqn:Hw; [|done]. injection Hg as <-.
  by eapply list_elem_of_lookup_2.
Qed.

Lemma np_get2_elem (m : LabelMatrix) i j v : np_get2 m i j = Ok v -> v ∈ flatten m.
Proof.
  unfold np_get2. intros Hg. bind_ok Hg as row Erow.
  apply elem_of_flatten. exists row. split; by eapply np_get_elem.
Qed.

Lemma elem_of_write_label v labels mask label :
  v ∈ flatten (write_label labels mask label) ->
  v = label \/ v = 0 \/ v ∈ flatten labels.
Proof.
  intros Hv. apply elem_of_flatten in Hv as (row & Hrow & Hv).
  unfold write_label in Hrow. apply list_elem_of_lookup in Hrow as [i Hi].
  apply lookup_zip_with_Some in Hi as (r & mr & -> & Hr & Hmr).
  apply list_elem_of_lookup in Hv as [j Hj].
  apply lookup_zip_with_Some in Hj as (x & b & -> & Hx & Hb).
  destruct b; [by left|]. destruct (x =? label); [right; by left|].
  right. right. apply elem_of_flatten. exists r.
  split; by eapply list_elem_of_lookup_2.
Qed.

Lemma add_artist_covers d a :
  keep_covers d -> 0 <= K_LABEL a < Z.of_nat (length (to_keep d)) ->
  keep_covers (add_artist d a).
Proof.
  intros (Hlen & Horig & Hlab & Hart) Ha.
  split; [done|]. split; [done|]. split; [done|].
  intros k b. simpl. destruct (decide (k = next_artist d)) as [->|Hne].
  - rewrite lookup_insert_eq. by intros [= <-].
  - rewrite lookup_insert_ne by done. apply Hart.
Qed.

Lemma add_chains_to_keep label outside chains : forall d,
  to_keep (foldl (fun d chain =>
             add_artist d (mkArtist label false outside (chain_xy chain)))
           d chains) = to_keep d.
Proof. induction chains as [|c chains IH]; intros d; simpl; [done|]. by rewrite IH. Qed.

Lemma add_chains_covers label outside chains : forall d,
  keep_covers d -> 0 <= label < Z.of_nat (length (to_keep d)) ->
  keep_covers (foldl (fun d chain =>
                 add_artist d (mkArtist label false outside (chain_xy chain)))
               d chains).
Proof.
  induction chains as [|c chains IH]; intros d Hd Hl; simpl; [done|].
  apply IH; [by apply add_artist_covers|done].
Qed.

Lemma make_control_points_to_keep d label d' :
  make_control_points d label = Ok d' -> to_keep d' = to_keep d.
Proof.
  unfold make_control_points. intros Hd.
  bind_ok Hd as outer Eo. bind_ok Hd as holes Eh. injection Hd as <-.
  by rewrite !add_chains_to_keep.
Qed.

Lemma make_control_points_covers d label d' :
  keep_covers d -> 0 <= label < Z.of_nat (length (to_keep d)) ->
  make_control_points d label = Ok d' -> keep_covers d'.
Proof.
  unfold make_control_points. intros Hd Hl Hm.
  bind_ok Hm as outer Eo. bind_ok Hm as holes Eh. injection Hm as <-.
  apply add_chains_covers; [by apply add_chains_covers|].
  by rewrite add_chains_to_keep.
Qed.

Lemma close_label_to_keep d label : to_keep (close_label d label) = to_keep d.
Proof. unfold close_label. by destruct (existsb _ _). Qed.

Lemma close_label_covers d label :
  keep_covers d -> 0 <= label < Z.of_nat (length (to_keep d)) ->
  keep_covers (close_label d label).
Proof.
  intros (Hlen & Horig & Hlab & Hart) Hl.
  unfold keep_covers. rewrite close_label_to_keep, close_label_orig.
  split; [done|]. split; [done|]. split.
  - intros v Hv. unfold close_label in Hv.
    destruct (existsb _ _); simpl in Hv; [|by apply Hlab].
    apply elem_of_write_label in Hv as [->|[->|Hv]]; [done|lia|by apply Hlab].
  - intros k a Hk. apply close_label_artists in Hk as [Hk _]. by eapply Hart.
Qed.

Lemma delete_control_point_covers `{Canvas} d event d' :
  keep_covers d -> delete_control_point d event = Ok d' -> keep_covers d'.
Proof.
  unfold delete_control_point. intros (Hlen & Horig & Hlab & Hart) Hd.
  bind_ok Hd as hit Ehit.
  destruct hit as [[k i]|]; [|by injection Hd as <-].
  bind_ok Hd as a Ea. unfold artist_of in Ea.
  destruct (artists d !! k) as [a'|] eqn:Hk; [|done]. injection Ea as ->.
  destruct (decide _); injection Hd as <-;
    (split; [done|]; split; [done|]; split; [done|]); intros k' b; simpl.
  - intros Hb. apply lookup_delete_Some in Hb as [_ Hb]. by eapply Hart.
  - destruct (decide (k' = k)) as [->|Hne].
    + rewrite lookup_insert_eq. intros [= <-]. simpl. by eapply Hart.
    + rewrite lookup_insert_ne by done. apply Hart.
Qed.

Lemma keep_covers_extend d :
  keep_covers d -> keep_covers (with_to_keep d (to_keep d ++ [true])).
Proof.
  intros (Hlen & Horig & Hlab & Hart). unfold keep_covers. simpl.
  rewrite length_app. simpl. split; [lia|].
  split; [|split].
  - intros v Hv. specialize (Horig v Hv). lia.
  - intros v Hv. specialize (Hlab v Hv). lia.
  - intros k a Hk. specialize (Hart k a Hk). lia.
Qed.

Lemma new_object_covers d event d' :
  keep_covers d -> new_object d event = Ok d' -> keep_covers d'.
Proof.
  unfold new_object. intros Hd Hn.
  destruct (xdata event), (ydata event); try done. injection Hn as <-.
  apply add_artist_covers; [by apply keep_covers_extend|].
  simpl. rewrite length_app. simpl. lia.
Qed.

Lemma split_chain_covers d a i j d' :
  keep_covers d -> split_chain d a i j = Ok d' -> keep_covers d'.
Proof.
  unfold split_chain. intros Hd Hs.
  apply result_bind_inv in Hs as (art & Ea & Hs). cbv beta zeta in Hs.
  unfold artist_of in Ea.
  destruct (artists d !! a) as [art'|] eqn:Ha; [|done]. injection Ea as ->.
  pose proof Hd as (Hlen & Horig & Hlab & Hart).
  pose proof (Hart a art Ha) as Hold.
  match type of Hs with
  | context [close_label (close_label ?d4 _) _] =>
      assert (keep_covers d4
              /\ length (to_keep d4) = S (length (to_keep d))) as [H4 Hl4]
  end.
  { split; [|simpl; rewrite length_app; simpl; lia].
    unfold keep_covers. simpl. rewrite length_app. simpl.
    split; [lia|]. split; [|split].
    - intros v Hv. specialize (Horig v Hv). lia.
    - intros v Hv. specialize (Hlab v Hv). lia.
    - intros k b. destruct (decide (k = a)) as [->|Hne].
      + rewrite lookup_insert_eq. intros [= <-]. simpl. lia.
      + rewrite lookup_insert_ne by done.
        destruct (decide (k = next_artist d)) as [->|Hne'].
        * rewrite lookup_insert_eq. intros [= <-]. simpl. lia.
        * rewrite lookup_insert_ne by done. rewrite lookup_insert_ne by done.
          intros Hk. specialize (Hart k b Hk). lia. }
  apply result_bind_inv in Hs as (d7 & E7 & Hs).
  eapply make_control_points_covers; [| |exact Hs].
  - eapply make_control_points_covers; [| |exact E7].
    + apply close_label_covers; [apply close_label_covers|].
      * done.
      * rewrite Hl4. lia.
      * rewrite close_label_to_keep, Hl4. lia.
    + rewrite !close_label_to_keep, Hl4. lia.
  - rewrite (make_control_points_to_keep _ _ _ E7), !close_label_to_keep, Hl4. lia.
Qed.

Lemma splice_chains_covers `{Canvas} d a i b j d' :
  keep_covers d -> splice_chains d a i b j = Ok d' -> keep_covers d'.
Proof.
  unfold splice_chains. intros (Hlen & Horig & Hlab & Hart) Hd.
  bind_ok Hd as first Ef. bind_ok Hd as pick Ep.
  destruct (contains_path _ _);
    (bind_ok Hd as o1 Eo1; bind_ok Hd as o2 Eo2; bind_ok Hd as o3 Eo3;
     bind_ok Hd as o4 Eo4; injection Hd as <-;
     unfold artist_of in Eo4;
     match type of Eo4 with
     | context [artists d !! ?k] =>
         destruct (artists d !! k) as [oa|] eqn:Hk; [|done]
     end; injection Eo4 as ->;
     (split; [done|]; split; [done|]; split; [done|]); intros k' c; simpl;
     intros Hc; apply lookup_delete_Some in Hc as [_ Hc];
     apply lookup_insert_Some in Hc as [[<- <-]|[_ Hc]];
     [simpl; by eapply Hart|by eapply Hart]).
Qed.

Lemma set_keep_length k i f k' : set_keep k i f = Ok k' -> length k' = length k.
Proof.
  unfold set_keep. intros Hs. bind_ok Hs as n En.
  destruct (k !! n); [|done]. injection Hs as <-. apply length_insert.
Qed.

Lemma keep_covers_length d k :
  length k = length (to_keep d) -> keep_covers d -> keep_covers (with_to_keep d k).
Proof. unfold keep_covers. simpl. by intros ->. Qed.

Lemma click_object_covers d event d' :
  keep_covers d -> click_object d event = Ok d' -> keep_covers d'.
Proof.
  unfold click_object. intros Hd Hc.
  destruct (xdata event), (ydata event); try done.
  destruct (decide _); [by injection Hc as <-|].
  bind_ok Hc as lnum El. destruct (decide _); [by injection Hc as <-|].
  destruct (decide _).
  - bind_ok Hc as k Ek. injection Hc as <-.
    apply keep_covers_length; [by eapply set_keep_length|done].
  - destruct (decide _); [|by injection Hc as <-].
    eapply make_control_points_covers; [done| |exact Hc].
    destruct Hd as (_ & _ & Hlab & _). apply Hlab. by eapply np_get2_elem.
Qed.

Lemma artist_around_label `{Canvas} d p label :
  artist_around d p = Some label ->
  exists k a, artists d !! k = Some a /\ K_LABEL a = label.
Proof.
  unfold artist_around. intros Ha.
  destruct (head _) as [[k a]|] eqn:Hh; [|done]. simpl in Ha. injection Ha as <-.
  apply head_Some_elem_of in Hh. apply list_elem_of_filter in Hh as [_ Hh].
  apply elem_of_map_to_list in Hh. eauto.
Qed.

Lemma on_split_second_click_covers `{Canvas} d event d' :
  keep_covers d -> on_split_second_click d event = Ok d' -> keep_covers d'.
Proof.
  unfold on_split_second_click. intros Hr Hd.
  destruct (decide _); [|by injection Hd as <-].
  bind_ok Hd as hit Ehit. bind_ok Hd as ok Eok.
  destruct (negb _); [by injection Hd as <-|].
  destruct hit as [[k i]|]; [|done]. destruct (split_pick d) as [[k' i']|]; [|done].
  bind_ok Hd as d1 E1. injection Hd as <-.
  assert (keep_covers d1) as H1.
  { destruct (decide _).
    - by eapply split_chain_covers.
    - by eapply splice_chains_covers. }
  unfold exit_split_mode. by destruct (mode d1).
Qed.

Lemma on_split_first_click_covers `{Canvas} d event d' :
  keep_covers d -> on_split_first_click d event = Ok d' -> keep_covers d'.
Proof.
  unfold on_split_first_click. intros Hr Hd.
  destruct (decide _); [|by injection Hd as <-].
  bind_ok Hd as hit Ehit. destruct hit as [[k i]|]; [|by injection Hd as <-].
  bind_ok Hd as a Ea. bind_ok Hd as p Ep. by injection Hd as <-.
Qed.

Lemma on_click_covers `{Canvas} d event d' :
  keep_covers d -> on_click d event = Ok d' -> keep_covers d'.
Proof.
  unfold on_click. intros Hr Hd.
  assert (forall ax, match mode d with
            | NORMAL_MODE =>
                if decide (ax = orig_axes ∧ button event = 1) then
                  hit ← get_control_point d event;
                  match hit with
                  | Some best => Ok (with_active d (Some best))
                  | None => click_object d event
                  end
                else if decide (ax = orig_axes ∧ button event = 3) then
                  match xdata event, ydata event with
                  | Some ex, Some ey =>
                      match artist_around d (ex, ey) with
                      | Some label => Ok (close_label d label)
                      | None => click_object d event
                      end
                  | _, _ => Raise TypeError
                  end
                else click_object d event
            | SPLIT_PICK_FIRST_MODE => on_split_first_click d event
            | SPLIT_PICK_SECOND_MODE => on_split_second_click d event
            end = Ok d' -> keep_covers d') as Hall.
  { intros ax Hax. destruct (mode d) eqn:Hmode.
    - destruct (decide _).
      + bind_ok Hax as hit Ehit. destruct hit as [best|]; [by injection Hax as <-|].
        by eapply click_object_covers.
      + destruct (decide _); [|by eapply click_object_covers].
        destruct (xdata event), (ydata event); try done.
        destruct (artist_around _ _) as [label|] eqn:Hround.
        * injection Hax as <-. apply close_label_covers; [done|].
          apply artist_around_label in Hround as (k0 & art & Hk & <-).
          destruct Hr as (_ & _ & _ & Hart). by eapply Hart.
        * by eapply click_object_covers.
    - by eapply on_split_first_click_covers.
    - by eapply on_split_second_click_covers. }
  destruct (inaxes event) as [[]|]; try (by injection Hd as <-); by eapply Hall.
Qed.

Lemma on_key_down_covers `{Canvas} d k event d' :
  keep_covers d -> on_key_down d k event = Ok d' -> keep_covers d'.
Proof.
  unfold on_key_down. intros Hr Hd.
  destruct (mode d) eqn:Hmode, k; try (by injection Hd as <-);
    try (by eapply delete_control_point_covers);
    try (by eapply new_object_covers);
    try (injection Hd as <-; unfold exit_split_mode; rewrite Hmode; done).
  injection Hd as <-. destruct Hr as (Hlen & Horig & Hlab & Hart).
  split; [done|]. split; [done|]. split; [done|]. intros k a Hk. simpl in Hk.
  by rewrite lookup_empty in Hk.
Qed.

Lemma handle_covers `{Canvas} d a d' :
  keep_covers d -> handle d a = Ok d' -> keep_covers d'.
Proof.
  intros Hr. destruct a; simpl.
  - by apply on_click_covers.
  - by intros [= <-].
  - by apply on_key_down_covers.
  - intros [= <-]. apply keep_covers_length; [apply length_set_keep_from_1|done].
  - intros [= <-]. apply keep_covers_length; [apply length_set_keep_from_1|done].
  - intros [= <-]. apply keep_covers_length; [apply length_set_keep_from_1|done].
  - intros [= <-]. destruct Hr as (Hlen & Horig & Hlab & Hart).
    split; [done|]. split; [done|]. split; [done|]. intros k b Hk. simpl in Hk.
    by rewrite lookup_empty in Hk.
Qed.

Lemma handle_all_covers `{Canvas} script : forall d d',
  keep_covers d -> handle_all d script = Ok d' -> keep_covers d'.
Proof.
  induction script as [|a script IH]; intros d d' Hr Hd; simpl in Hd.
  - by injection Hd as <-.
  - bind_ok Hd as d1 E1. eapply IH; [|exact Hd]. by eapply handle_covers.
Qed.

Lemma foldl_max_elem (l : list Z) : forall x,
  foldl Z.max x l = x \/ foldl Z.max x l ∈ l.
Proof.
  induction l as [|y l IH]; intros x; simpl; [by left|].
  destruct (IH (Z.max x y)) as [->|Hin]; [|right; by right].
  destruct (Z.max_spec x y) as [[_ ->]|[_ ->]]; [right; left|by left].
Qed.

Lemma init_dialog_covers orig d :
  (forall v, v ∈ flatten orig -> 0 <= v) ->
  init_dialog orig = Ok d -> keep_covers d.
Proof.
  intros Hnonneg. unfold init_dialog. intros Hd. bind_ok Hd as m Em.
  destruct (Z.ltb_spec (m + 1) 0); [done|]. injection Hd as <-.
  assert (0 <= m) as Hm.
  { destruct (flatten orig) as [|x l] eqn:Hf; [done|].
    pose proof (np_max_ge _ _ x Em ltac:(left)).
    specialize (Hnonneg x ltac:(left)). lia. }
  unfold keep_covers. simpl. rewrite length_replicate.
  split; [lia|].
  assert (forall v, v ∈ flatten orig -> 0 <= v < Z.of_nat (Z.to_nat (m + 1))) as Hin.
  { intros v Hv. pose proof (np_max_ge _ _ v Em Hv). specialize (Hnonneg v Hv). lia. }
  split; [done|]. split; [done|]. intros k a Hk. by rewrite lookup_empty in Hk.
Qed.

Lemma keep_covers_init_labels d : keep_covers d -> init_labels d = Ok d.
Proof.
  intros (_ & _ & Hlab & _). unfold init_labels.
  rewrite (rmapM_Ok _ Z.to_nat); [done|].
  apply Forall_forall. intros v Hv. by apply np_index_in_range, Hlab.
Qed.

(** X8: take an edit session over a label matrix without negative labels
    that is made of clicks, mouse releases, the keys d, n, s and Escape and
    the buttons Keep all, Remove all, Reverse selection and Reset; objects
    are not merged (the keys j and c, which shorten the keep array, are not
    pressed).  In every state of such a session each object number in use
    is a position of the keep array: the labels of the edited matrix and
    the object number of every chain are at least 0 and below
    [len(self.to_keep)], and the keep array is never shorter than it was at
    the start.  So [self.to_keep[lnum]] of a click is the entry of the
    object under the cursor, neither an [IndexError] nor a wrap-around, and
    [init_labels], which [__init__], [close_label], [new_object], the split
    and Reset call on these labels and this keep array, returns: its
    [label_map[self.labels.flatten()]] never raises. *)
Theorem keep_array_covers_labels `{Canvas} (orig : LabelMatrix)
    (script : list action) (d0 d : Dialog) :
  (forall v, v ∈ flatten orig -> 0 <= v) ->
  init_dialog orig = Ok d0 ->
  handle_all d0 script = Ok d ->
  (forall v, v ∈ flatten (labels d) ->
     0 <= v < Z.of_nat (length (to_keep d))
     /\ np_index (length (to_keep d)) v = Ok (Z.to_nat v)
     /\ is_Some (to_keep d !! Z.to_nat v))
  /\ (forall k a, artists d !! k = Some a ->
        0 <= K_LABEL a < Z.of_nat (length (to_keep d)))
  /\ (length (to_keep d0) <= length (to_keep d))%nat
  /\ init_labels d = Ok d.
Proof.
  intros Hnonneg Hinit Hrun.
  pose proof (init_dialog_covers _ _ Hnonneg Hinit) as H0.
  pose proof (handle_all_covers _ _ _ H0 Hrun) as Hcov.
  pose proof Hcov as (Hlen & Horig & Hlab & Hart).
  split; [|split; [done|split; [|by apply keep_covers_init_labels]]].
  - intros v Hv. specialize (Hlab v Hv). split; [done|].
    split; [by apply np_index_in_range|].
    apply lookup_lt_is_Some_2. lia.
  - rewrite (handle_all_orig _ _ _ Hrun) in Horig.
    unfold init_dialog in Hinit. bind_ok Hinit as m Em.
    destruct (Z.ltb_spec (m + 1) 0); [done|]. injection Hinit as <-. simpl in *.
    rewrite length_replicate.
    destruct (flatten orig) as [|x l] eqn:Hf; [done|].
    assert (m ∈ x :: l) as Hin.
    { simpl in Em. injection Em as <-.
      destruct (foldl_max_elem l x) as [->|Hin]; [left|by right]. }
    specialize (Horig m Hin). lia.
Qed.

Lemma keep_array_covers_labels_witness :
  exists d,
    handle_all (H := unit_canvas)
      (mkDialog (square 2) (square 2) ∅ 0 [true; true] NORMAL_MODE None None None)
      [key_down key_n (event_at 5 5)] = Ok d
    /\ (2 <= length (to_keep d))%nat
    /\ init_labels d = Ok d.
Proof.
  assert (exists d,
    handle_all (H := unit_canvas)
      (mkDialog (square 2) (square 2) ∅ 0 [true; true] NORMAL_MODE None None None)
      [key_down key_n (event_at 5 5)] = Ok d) as [d Hd].
  { vm_compute. eexists. reflexivity. }
  exists d. split; [exact Hd|].
  destruct (keep_array_covers_labels (H := unit_canvas) (square 2)
              [key_down key_n (event_at 5 5)]
              (mkDialog (square 2) (square 2) ∅ 0 [true; true]
                 NORMAL_MODE None None None) d) as (_ & _ & Hlen & Hinit).
  - intros v Hv.
    assert (forallb (Z.leb 0) (flatten (square 2)) = true) as Hall
      by (vm_compute; reflexivity).
    rewrite forallb_forall in Hall. apply Z.leb_le, Hall.
    by apply list_elem_of_In.
  - vm_compute. reflexivity.
  - exact Hd.
  - split; [exact Hlen|exact Hinit].
Defined.

(** ** Key presses during a session *)

(** X6: in an edit session as above (a label matrix without negative
    labels; clicks, mouse releases, the keys d, n, s and Escape and the four
    buttons; the keys j and c not pressed) a key press d, s or Escape never
    raises, whatever the chains and the cursor are, and n raises only when
    the cursor is outside the axes (no data coordinates).  The hit test of d
    never meets a chain without a vertex, and the [init_labels] that
    [new_object] calls finds every label below the length of the keep
    array. *)
Theorem key_press_returns `{Canvas} (orig : LabelMatrix) (script : list action)
    (d0 d : Dialog) (k : key) (event : Event) :
  (forall v, v ∈ flatten orig -> 0 <= v) ->
  init_dialog orig = Ok d0 ->
  handle_all d0 script = Ok d ->
  (k = key_n -> mode d = NORMAL_MODE ->
   is_Some (xdata event) /\ is_Some (ydata event)) ->
  exists d', on_key_down d k event = Ok d' /\ init_labels d' = Ok d'.
Proof.
  intros Hnonneg Hinit Hrun Hn.
  pose proof (session_drawable _ _ _ _ Hinit Hrun) as Hd.
  pose proof (handle_all_covers _ _ _
                (init_dialog_covers _ _ Hnonneg Hinit) Hrun) as Hcov.
  assert (exists d', on_key_down d k event = Ok d') as [d' Hd'].
  { unfold on_key_down. destruct (mode d) eqn:Hmode; destruct k; eauto.
    - unfold delete_control_point.
      destruct (get_control_point_hit d event Hd) as (hit & -> & Hhit). simpl.
      destruct hit as [[a i]|]; [|eauto].
      destruct Hhit as (v & Hv & _). unfold artist_of. rewrite Hv. simpl.
      destruct (decide _); eauto.
    - destruct (Hn eq_refl eq_refl) as [[ex Hx] [ey Hy]].
      unfold new_object. rewrite Hx, Hy. eauto. }
  exists d'. split; [done|].
  apply keep_covers_init_labels. by eapply on_key_down_covers.
Qed.

Lemma key_press_returns_witness :
  exists d d',
    handle_all (H := unit_canvas)
      (mkDialog (square 2) (square 2) ∅ 0 [true; true] NORMAL_MODE None None None)
      [key_down key_n (event_at 5 5)] = Ok d
    /\ on_key_down (H := unit_canvas) d key_d (event_at 5 5) = Ok d'.
Proof.
  assert (exists d,
    handle_all (H := unit_canvas)
      (mkDialog (square 2) (square 2) ∅ 0 [true; true] NORMAL_MODE None None None)
      [key_down key_n (event_at 5 5)] = Ok d) as [d Hd].
  { vm_compute. eexists. reflexivity. }
  exists d.
  destruct (key_press_returns (H := unit_canvas) (square 2)
              [key_down key_n (event_at 5 5)]
              (mkDialog (square 2) (square 2) ∅ 0 [true; true]
                 NORMAL_MODE None None None)
              d key_d (event_at 5 5)) as (d' & Hd' & _).
  - intros v Hv.
    assert (forallb (Z.leb 0) (flatten (square 2)) = true) as Hall
      by (vm_compute; reflexivity).
    rewrite forallb_forall in Hall. apply Z.leb_le, Hall.
    by apply list_elem_of_In.
  - vm_compute. reflexivity.
  - exact Hd.
  - discriminate.
  - exists d'. split; [exact Hd|exact Hd'].
Defined.

(** ** Reset *)

Lemma handle_all_app `{Canvas} script1 script2 : forall d,
  handle_all d (script1 ++ script2)
  = (d1 ← handle_all d script1; handle_all d1 script2).
Proof.
  induction script1 as [|a script1 IH]; intros d; simpl; [done|].
  destruct (handle d a) as [d1| |]; simpl; [apply IH|done..].
Qed.

(** X9: whatever was done in the session, pressing Reset and then Done
    returns the label matrix the session started from.  Reset leaves the
    keep array and the mode as they are. *)
Theorem reset_then_done `{Canvas} (orig : LabelMatrix) (script : list action)
    (d0 d : Dialog) :
  init_dialog orig = Ok d0 ->
  handle_all d0 script = Ok d ->
  filter_objects orig (script ++ [reset]) wx_OK = Ok orig
  /\ to_keep (on_reset d) = to_keep d
  /\ split_state (on_reset d) = split_state d.
Proof.
  intros Hinit Hrun. split; [|done].
  unfold filter_objects, ShowModal. rewrite Hinit. simpl.
  rewrite handle_all_app, Hrun. simpl.
  rewrite (handle_all_orig _ _ _ Hrun).
  by destruct (init_dialog_orig _ _ Hinit) as [-> _].
Qed.

Lemma reset_then_done_witness :
  filter_objects (H := unit_canvas) (square 2)
    ([key_down key_n (event_at 5 5)] ++ [reset]) wx_OK = Ok (square 2).
Proof.
  assert (exists d,
    handle_all (H := unit_canvas)
      (mkDialog (square 2) (square 2) ∅ 0 [true; true] NORMAL_MODE None None None)
      [key_down key_n (event_at 5 5)] = Ok d) as [d Hd].
  { vm_compute. eexists. reflexivity. }
  apply (reset_then_done (H := unit_canvas) (square 2)
           [key_down key_n (event_at 5 5)]
           (mkDialog (square 2) (square 2) ∅ 0 [true; true]
              NORMAL_MODE None None None) d).
  - vm_compute. reflexivity.
  - exact Hd.
Defined.

(** ** Edits are pending until a chain is closed *)

Lemma make_control_points_labels d label d' :
  make_control_points d label = Ok d' -> labels d' = labels d.
Proof.
  unfold make_control_points. intros Hd.
  bind_ok Hd as outer Eo. bind_ok Hd as holes Eh. injection Hd as <-.
  by rewrite !add_chains_labels.
Qed.

Lemma click_object_labels d event d' :
  click_object d event = Ok d' -> labels d' = labels d.
Proof.
  unfold click_object. intros Hd.
  destruct (xdata event), (ydata event); try done.
  destruct (decide _); [by injection Hd as <-|].
  bind_ok Hd as lnum El. destruct (decide _); [by injection Hd as <-|].
  destruct (decide _).
  - bind_ok Hd as k Ek. by injection Hd as <-.
  - destruct (decide _); [by eapply make_control_points_labels|
                          by injection Hd as <-].
Qed.

Lemma on_key_down_labels `{Canvas} d k event d' :
  on_key_down d k event = Ok d' -> labels d' = labels d.
Proof.
  unfold on_key_down. intros Hd.
  destruct (mode d) eqn:Hmode, k; try (by injection Hd as <-);
    try (injection Hd as <-; unfold exit_split_mode; rewrite Hmode; done).
  - unfold delete_control_point in Hd. bind_ok Hd as hit Ehit.
    destruct hit as [[a i]|]; [|by injection Hd as <-].
    bind_ok Hd as art Ea. destruct (decide _); by injection Hd as <-.
  - unfold new_object in Hd. destruct (xdata event), (ydata event); try done.
    by injection Hd as <-.
Qed.

(** X10: the label matrix changes only when a chain is closed or on Reset.
    Every key (d, n, s, Escape), the buttons Keep all, Remove all and
    Reverse selection, releasing the mouse, and every click other than a
    right click in the original axes and the second click of a split leave
    the label matrix as it is: deleted control points and new objects are
    pending on their chains, and Escape in normal mode discards them. *)
Theorem labels_change_on_close_only `{Canvas} (d d' : Dialog) (a : action) :
  handle d a = Ok d' ->
  a ≠ reset ->
  (forall event, a = click event ->
     mode d ≠ SPLIT_PICK_SECOND_MODE
     /\ ~ (mode d = NORMAL_MODE /\ inaxes event = Some orig_axes
           /\ button event = 3)) ->
  labels d' = labels d.
Proof.
  intros Hh Hreset Hclick. destruct a as [event| |k event| | | |]; simpl in Hh;
    try (by injection Hh as <-); try (by eapply on_key_down_labels);
    try congruence.
  destruct (Hclick event eq_refl) as [Hsecond Hright].
  unfold on_click in Hh.
  destruct (inaxes event) as [ax|] eqn:Hax; [|by injection Hh as <-].
  assert (match mode d with
          | NORMAL_MODE =>
              if decide (ax = orig_axes ∧ button event = 1) then
                hit ← get_control_point d event;
                match hit with
                | Some best => Ok (with_active d (Some best))
                | None => click_object d event
                end
              else if decide (ax = orig_axes ∧ button event = 3) then
                match xdata event, ydata event with
                | Some ex, Some ey =>
                    match artist_around d (ex, ey) with
                    | Some label => Ok (close_label d label)
                    | None => click_object d event
                    end
                | _, _ => Raise TypeError
                end
              else click_object d event
          | SPLIT_PICK_FIRST_MODE => on_split_first_click d event
          | SPLIT_PICK_SECOND_MODE => on_split_second_click d event
          end = Ok d' -> labels d' = labels d) as Hall.
  { intros Hm. destruct (mode d) eqn:Hmode; [| |done].
    - destruct (decide _).
      + bind_ok Hm as hit Ehit. destruct hit as [best|]; [by injection Hm as <-|].
        by eapply click_object_labels.
      + destruct (decide _) as [[-> Hb]|]; [|by eapply click_object_labels].
        destruct Hright. done.
    - unfold on_split_first_click in Hm.
      destruct (decide _); [|by injection Hm as <-].
      bind_ok Hm as hit Ehit. destruct hit as [[k i]|]; [|by injection Hm as <-].
      bind_ok Hm as art Ea. bind_ok Hm as p Ep. by injection Hm as <-. }
  destruct ax; try (by apply Hall). by injection Hh as <-.
Qed.

Lemma labels_change_on_close_only_witness :
  exists d',
    handle (H := unit_canvas) (one_chain_dialog triangle)
      (key_down key_d (event_at 4 0)) = Ok d'
    /\ labels d' = labels (one_chain_dialog triangle).
Proof.
  assert (exists d',
    handle (H := unit_canvas) (one_chain_dialog triangle)
      (key_down key_d (event_at 4 0)) = Ok d') as [d' Hd'].
  { vm_compute. eexists. reflexivity. }
  exists d'. split; [exact Hd'|].
  apply (labels_change_on_close_only (H := unit_canvas) _ _ _ Hd').
  - discriminate.
  - intros event Hev. discriminate Hev.
Defined.

(** ** A second split click that misses *)



(** ** The renumbering of [join_objects] *)

Lemma np_put_all_spec (rest : list Z) : forall a : list bool,
  (forall r, r ∈ rest -> 0 <= r < Z.of_nat (length a)) ->
  exists a',
    np_put_all a rest false = Ok a'
    /\ length a' = length a
    /\ forall i, a' !! i
         = (fun b : bool => if decide (Z.of_nat i ∈ rest) then false else b)
             <$> a !! i.
Proof.
  induction rest as [|r rest IH]; intros a Hin; simpl.
  - exists a. split; [done|]. split; [done|]. intros i.
    by destruct (a !! i).
  - pose proof (Hin r ltac:(left)) as Hr.
    rewrite (np_index_in_range _ _ Hr). simpl.
    destruct (IH (<[Z.to_nat r := false]> a)) as (a' & -> & Hlen & Hlook).
    { intros r' Hr'. rewrite length_insert. apply Hin. by right. }
    exists a'. split; [done|]. rewrite length_insert in Hlen. split; [done|].
    intros i. rewrite Hlook. destruct (decide (i = Z.to_nat r)) as [->|Hne].
    + rewrite list_lookup_insert_eq by lia.
      destruct (lookup_lt_is_Some_2 a (Z.to_nat r) ltac:(lia)) as [b ->]. simpl.
      rewrite (decide_True (P := Z.of_nat (Z.to_nat r) ∈ r :: rest)).
      * by destruct (decide _).
      * rewrite Z2Nat.id by lia. left.
    + rewrite list_lookup_insert_ne by done.
      destruct (a !! i); simpl; [|done]. f_equal.
      destruct (decide (Z.of_nat i ∈ rest)) as [Hi|Hi].
      * rewrite decide_True; [done|by right].
      * rewrite decide_False; [done|].
        intros Hc. apply elem_of_cons in Hc as [Hc|Hc]; [lia|done].
Qed.

Lemma np_arange_cons a b : a < b -> np_arange a b = a :: np_arange (a + 1) b.
Proof.
  intros Hab. unfold np_arange.
  replace (Z.to_nat (b - a)) with (S (Z.to_nat (b - (a + 1)))) by lia.
  simpl. f_equal; [lia|].
  rewrite <- fmap_S_seq. rewrite <- list_fmap_compose.
  apply list_fmap_ext. intros i k _. simpl. lia.
Qed.

Lemma np_count_cons b mask :
  np_count (b :: mask) = ((if b then 1 else 0) + np_count mask)%nat.
Proof. unfold np_count. rewrite filter_cons. by destruct b. Qed.

Lemma np_mask_assign_spec (mask : list bool) : forall (a : list Z) s,
  length a = length mask ->
  exists r,
    np_mask_assign a mask (np_arange s (s + Z.of_nat (np_count mask))) = Ok r
    /\ length r = length a
    /\ forall (i : nat) (x : Z) (b : bool), a !! i = Some x -> mask !! i = Some b ->
         r !! i = Some (if b then s + Z.of_nat (np_count (take i mask)) else x).
Proof.
  induction mask as [|b mask IH]; intros a s Hlen; destruct a as [|x a];
    try done; simpl.
  - exists []. unfold np_arange. rewrite Z.add_0_r, Z.sub_diag. simpl.
    split; [done|]. split; [done|]. intros i y c Hy. by rewrite lookup_nil in Hy.
  - injection Hlen as Hlen. rewrite np_count_cons. destruct b.
    + rewrite np_arange_cons by lia.
      destruct (IH a (s + 1) Hlen) as (r & Hr & Hrl & Hlook).
      replace (s + Z.of_nat (1 + np_count mask))
        with (s + 1 + Z.of_nat (np_count mask)) by lia.
      rewrite Hr. simpl. eexists. split; [done|]. split; [simpl; lia|].
      intros [|i] y c; simpl.
      * intros [= <-] [= <-]. f_equal. unfold np_count. simpl. lia.
      * intros Hy Hc. rewrite (Hlook i y c Hy Hc). f_equal.
        destruct c; [|done]. rewrite np_count_cons. lia.
    + destruct (IH a s Hlen) as (r & Hr & Hrl & Hlook). simpl.
      rewrite Hr. simpl. eexists. split; [done|]. split; [simpl; lia|].
      intros [|i] y c; simpl.
      * by intros [= <-] [= <-].
      * intros Hy Hc. rewrite (Hlook i y c Hy Hc). by destruct c.
Qed.

Lemma length_filter_below_succ (rest : list Z) (v : Z) :
  NoDup rest ->
  length (filter (fun r => r < v + 1) rest)
  = (length (filter (fun r => (r < v)%Z) rest)
     + (if decide (v ∈ rest) then 1 else 0))%nat.
Proof.
  induction 1 as [|r rest Hr Hnd IH]; [done|].
  rewrite !filter_cons.
  destruct (decide (r = v)) as [->|Hne].
  + rewrite decide_True by lia. rewrite (decide_False (P := v < v)) by lia.
    rewrite (decide_True (P := v ∈ v :: rest)) by left.
    rewrite decide_False in IH by done. simpl. lia.
  + assert ((if decide (v ∈ r :: rest) then 1 else 0)%nat
            = (if decide (v ∈ rest) then 1 else 0)%nat) as ->.
    { destruct (decide (v ∈ rest)) as [Hv|Hv].
      - rewrite decide_True; [done|by right].
      - rewrite decide_False; [done|].
        intros Hc. apply elem_of_cons in Hc as [Hc|Hc]; congruence. }
    destruct (decide (r < v)).
    * rewrite decide_True by lia. simpl. lia.
    * rewrite decide_False by lia. done.
Qed.

Lemma filter_none {A} (P : A -> Prop) `{forall x, Decision (P x)} (l : list A) :
  (forall x, x ∈ l -> ~ P x) -> filter P l = [].
Proof.
  induction l as [|x l IH]; intros Hl; [done|].
  rewrite filter_cons, decide_False by (apply Hl; left).
  apply IH. intros y Hy. apply Hl. by right.
Qed.

Lemma filter_all {A} (P : A -> Prop) `{forall x, Decision (P x)} (l : list A) :
  (forall x, x ∈ l -> P x) -> filter P l = l.
Proof.
  induction l as [|x l IH]; intros Hl; [done|].
  rewrite filter_cons, decide_True by (apply Hl; left).
  f_equal. apply IH. intros y Hy. apply Hl. by right.
Qed.

(** The rank of position [v] among the kept positions. *)
Lemma np_count_take_keep (keep : list bool) (rest : list Z) :
  NoDup rest ->
  (forall r, r ∈ rest -> 0 <= r) ->
  (forall i, (i < length keep)%nat ->
     keep !! i = Some (bool_decide (Z.of_nat i ∉ rest))) ->
  forall v, (v <= length keep)%nat ->
    Z.of_nat (np_count (take v keep))
    = Z.of_nat v - Z.of_nat (length (filter (fun r => r < Z.of_nat v) rest)).
Proof.
  intros Hnd Hpos Hkeep. induction v as [|v IH]; intros Hv.
  - assert (filter (fun r => r < Z.of_nat 0) rest = []) as ->; [|done].
    apply filter_none. intros r Hr Hlt. specialize (Hpos r Hr). lia.
  - rewrite (take_S_r _ _ _ (Hkeep v ltac:(lia))).
    unfold np_count in *. rewrite filter_app, length_app.
    replace (Z.of_nat (S v)) with (Z.of_nat v + 1) by lia.
    rewrite length_filter_below_succ by done.
    specialize (IH ltac:(lia)). rewrite filter_cons, filter_nil.
    destruct (decide (Z.of_nat v ∈ rest)) as [Hin|Hin].
    + rewrite bool_decide_eq_false_2 by tauto.
      rewrite decide_False by done. simpl. lia.
    + rewrite bool_decide_eq_true_2 by done.
      rewrite decide_True by done. simpl. lia.
Qed.

Lemma np_count_take_mono (mask : list bool) : forall i j,
  (i <= j)%nat -> (np_count (take i mask) <= np_count (take j mask))%nat.
Proof.
  induction mask as [|b mask IH]; intros i j Hij.
  - by rewrite !take_nil.
  - destruct i as [|i]; simpl; [unfold np_count; simpl; lia|].
    destruct j as [|j]; [lia|]. simpl. rewrite !np_count_cons.
    specialize (IH i j ltac:(lia)). lia.
Qed.

Lemma join_renumbering_spec (n : nat) (first : Z) (rest : list Z) :
  NoDup rest ->
  (forall r, r ∈ rest -> 0 <= r < Z.of_nat n) ->
  exists keep ren,
    join_renumbering n first rest = Ok (keep, ren)
    /\ length keep = n /\ length ren = n
    /\ (forall i, (i < n)%nat ->
          keep !! i = Some (bool_decide (Z.of_nat i ∉ rest)))
    /\ (forall i, (i < n)%nat ->
          ren !! i = Some (join_number first rest (Z.of_nat i)))
    /\ (forall i, (i <= n)%nat ->
          Z.of_nat (np_count (take i keep))
          = Z.of_nat i - Z.of_nat (length (filter (fun r => r < Z.of_nat i) rest)))
    /\ np_count keep = (n - length rest)%nat.
Proof.
  intros Hnd Hin. unfold join_renumbering.
  destruct (np_put_all_spec rest (replicate n true)) as (keep & -> & Hlen & Hkeep).
  { intros r Hr. rewrite length_replicate. by apply Hin. }
  rewrite length_replicate in Hlen. simpl.
  assert (forall i, (i < n)%nat ->
            keep !! i = Some (bool_decide (Z.of_nat i ∉ rest))) as Hk.
  { intros i Hi. rewrite Hkeep, lookup_replicate_2 by done. simpl. f_equal.
    destruct (decide (Z.of_nat i ∈ rest)).
    - by rewrite bool_decide_eq_false_2 by tauto.
    - by rewrite bool_decide_eq_true_2. }
  assert (forall i, (i <= n)%nat ->
            Z.of_nat (np_count (take i keep))
            = Z.of_nat i
              - Z.of_nat (length (filter (fun r => r < Z.of_nat i) rest))) as Hrank.
  { intros i Hi. apply np_count_take_keep; try done.
    - intros r Hr. specialize (Hin r Hr). lia.
    - intros j Hj. apply Hk. lia.
    - lia. }
  destruct (np_mask_assign_spec keep (replicate (length keep) 1) 0)
    as (r1 & Hr1 & Hl1 & Hlook).
  { by rewrite length_replicate. }
  rewrite Z.add_0_l in Hr1. rewrite Hr1. simpl.
  rewrite length_replicate in Hl1.
  exists keep, (np_fill_unmasked r1 keep first).
  split; [done|]. split; [done|].
  split; [unfold np_fill_unmasked; rewrite length_zip_with; lia|].
  split; [done|]. split; [|split; [done|]].
  - intros i Hi. unfold np_fill_unmasked.
    apply lookup_zip_with_Some.
    exists (if bool_decide (Z.of_nat i ∉ rest)
            then 0 + Z.of_nat (np_count (take i keep)) else 1),
           (bool_decide (Z.of_nat i ∉ rest)).
    split; [|split; [|by apply Hk]].
    + unfold join_number. destruct (decide (Z.of_nat i ∈ rest)).
      * by rewrite bool_decide_eq_false_2 by tauto.
      * rewrite bool_decide_eq_true_2 by done. rewrite Hrank by lia. lia.
    + apply Hlook; [|by apply Hk]. apply lookup_replicate_2. lia.
  - specialize (Hrank n ltac:(lia)).
    rewrite take_ge in Hrank by lia.
    rewrite filter_all in Hrank; [lia|].
    intros r Hr. specialize (Hin r Hr). lia.
Qed.

Lemma np_select_spec {A} (a : list A) : forall mask : list bool,
  length a = length mask ->
  exists s,
    np_select a mask = Ok s
    /\ length s = np_count mask
    /\ forall i x, a !! i = Some x -> mask !! i = Some true ->
         s !! np_count (take i mask) = Some x.
Proof.
  intros mask Hlen. unfold np_select. rewrite decide_True by done.
  eexists. split; [done|]. revert mask Hlen.
  induction a as [|y a IH]; intros mask Hlen; destruct mask as [|b mask]; try done.
  injection Hlen as Hlen. destruct (IH mask Hlen) as [Hl Hlook].
  simpl. rewrite filter_cons, np_count_cons. simpl. destruct b; simpl.
  - split; [by rewrite Hl|].
    intros [|i] x; simpl; [by intros [= <-] _|].
    intros Hx Hm. by apply Hlook.
  - split; [done|].
    intros [|i] x; simpl; [by intros _ [=]|].
    intros Hx Hm. by apply Hlook.
Qed.

Lemma np_take_map (mapping : list Z) (f : Z -> Z) (labels : LabelMatrix) :
  (forall v, v ∈ flatten labels -> np_get mapping v = Ok (f v)) ->
  np_take mapping labels = Ok (map (map f) labels).
Proof.
  intros Hget. unfold np_take. apply rmapM_Ok, Forall_forall. intros row Hrow.
  apply rmapM_Ok, Forall_forall. intros v Hv. apply Hget, elem_of_flatten. eauto.
Qed.

Lemma foldl_close_label_to_keep (ls : list Z) : forall d,
  to_keep (foldl close_label d ls) = to_keep d.
Proof.
  induction ls as [|l ls IH]; intros d; simpl; [done|].
  by rewrite IH, close_label_to_keep.
Qed.

Lemma foldl_close_label_covers (ls : list Z) : forall d,
  keep_covers d ->
  (forall l, l ∈ ls -> 0 <= l < Z.of_nat (length (to_keep d))) ->
  keep_covers (foldl close_label d ls).
Proof.
  induction ls as [|l ls IH]; intros d Hd Hls; simpl; [done|].
  apply IH.
  - apply close_label_covers; [done|]. apply Hls. left.
  - intros l' Hl'. rewrite close_label_to_keep. apply Hls. by right.
Qed.

Lemma foldl_close_label_artists (ls : list Z) : forall d k a,
  artists (foldl close_label d ls) !! k = Some a ->
  artists d !! k = Some a /\ K_LABEL a ∉ ls.
Proof.
  induction ls as [|l ls IH]; intros d k a; simpl.
  - intros Hk. split; [done|]. apply not_elem_of_nil.
  - intros Hk. apply IH in Hk as [Hk Hnot].
    apply close_label_artists in Hk as [Hk Hne]. split; [done|].
    intros Hc. apply elem_of_cons in Hc as [Hc|Hc]; done.
Qed.

Lemma add_chains_artists label outside chains : forall d k a,
  artists (foldl (fun d chain =>
             add_artist d (mkArtist label false outside (chain_xy chain)))
           d chains) !! k = Some a ->
  artists d !! k = Some a \/ (K_LABEL a = label /\ K_EDITED a = false).
Proof.
  induction chains as [|c chains IH]; intros d k a; simpl; [by left|].
  intros Hk. apply IH in Hk as [Hk|Hk]; [|by right]. simpl in Hk.
  apply lookup_insert_Some in Hk as [[_ <-]|[_ Hk]]; [by right|by left].
Qed.

Lemma make_control_points_artists d label d' :
  make_control_points d label = Ok d' ->
  to_keep d' = to_keep d /\ labels d' = labels d
  /\ forall k a, artists d' !! k = Some a ->
       artists d !! k = Some a \/ (K_LABEL a = label /\ K_EDITED a = false).
Proof.
  intros Hm. split; [by eapply make_control_points_to_keep|].
  split; [by eapply make_control_points_labels|].
  unfold make_control_points in Hm.
  bind_ok Hm as outer Eo. bind_ok Hm as holes Eh. injection Hm as <-.
  intros k a Hk. apply add_chains_artists in Hk as [Hk|Hk]; [|by right].
  by apply add_chains_artists in Hk.
Qed.

(** X12: [join_objects] does nothing when fewer than two objects have
    chains.  Otherwise it closes every chain and joins the selected objects
    to the one with the least number, [first]: each pixel of a joined object
    gets the label [first], every other label moves down by the number of
    joined labels below it, so the labels up to [first] keep their numbers
    and the surviving objects stay apart and in order.  The keep array loses
    the entries of the joined objects, each survivor taking its entry along
    to its new number, and every label of the new matrix indexes the new
    keep array.  What is left to fail is the tracing of the chains of
    [first]; when it returns, all chains of the dialog are untouched chains
    of [first]. *)
Theorem join_objects_spec (d : Dialog) :
  keep_covers d ->
  ((length (selected_labels d) < 2)%nat -> join_objects d = Ok d)
  /\ forall first rest,
       selected_labels d = first :: rest -> rest ≠ [] ->
       let closed := foldl close_label d (first :: rest) in
       let labels' := map (map (join_number first rest)) (labels closed) in
       exists to_keep',
         join_objects d
         = make_control_points
             (with_labels (with_to_keep closed to_keep') labels') first
         /\ length to_keep' = (length (to_keep d) - length rest)%nat
         /\ (forall v, 0 <= v < Z.of_nat (length (to_keep d)) -> v ∉ rest ->
               to_keep' !! Z.to_nat (join_number first rest v)
               = to_keep d !! Z.to_nat v)
         /\ (forall v, 0 <= v <= first -> join_number first rest v = v)
         /\ (forall v w, 0 <= v < w -> w < Z.of_nat (length (to_keep d)) ->
               v ∉ rest -> w ∉ rest ->
               join_number first rest v < join_number first rest w)
         /\ (forall v, v ∈ flatten labels' ->
               0 <= v < Z.of_nat (length to_keep'))
         /\ (forall d', join_objects d = Ok d' ->
               labels d' = labels' /\ to_keep d' = to_keep'
               /\ forall k a, artists d' !! k = Some a ->
                    K_LABEL a = first /\ K_EDITED a = false).
Proof.
  intros Hd. split.
  { intros Hlt. unfold join_objects. by rewrite decide_True. }
  intros first rest Hsel Hrest closed labels'.
  pose proof Hd as (Hlen & Horig & Hlab & Hart).
  assert (forall l, l ∈ first :: rest ->
            exists k a, artists d !! k = Some a /\ K_LABEL a = l) as Hsel_art.
  { intros l Hl. rewrite <- Hsel in Hl. unfold selected_labels in Hl.
    apply elem_of_np_unique, list_elem_of_fmap in Hl as ([k a] & -> & Hka).
    apply elem_of_map_to_list in Hka. eauto. }
  assert (forall l, l ∈ first :: rest ->
            0 <= l < Z.of_nat (length (to_keep d))) as Hsel_range.
  { intros l Hl. destruct (Hsel_art l Hl) as (k & a & Hk & <-). by eapply Hart. }
  pose proof (np_unique_sorted
                (map (fun kv : nat * Artist => K_LABEL kv.2)
                     (map_to_list (artists d)))) as Hsorted.
  fold (selected_labels d) in Hsorted. rewrite Hsel in Hsorted.
  pose proof (StronglySorted_NoDup _ Hsorted) as Hnd.
  apply NoDup_cons in Hnd as [Hfirst Hnd].
  apply StronglySorted_inv in Hsorted as [_ Hbelow].
  rewrite Forall_forall in Hbelow.
  assert (keep_covers closed) as Hclosed
    by (by apply foldl_close_label_covers).
  assert (to_keep closed = to_keep d) as Hkeep_closed
    by apply foldl_close_label_to_keep.
  destruct (join_renumbering_spec (length (to_keep d)) first rest Hnd)
    as (keep & ren & Hjoin & Hkl & Hrl & Hkeep & Hren & Hrank & Hcount).
  { intros r Hr. apply Hsel_range. by right. }
  destruct (np_select_spec (to_keep d) keep ltac:(by rewrite Hkl))
    as (to_keep' & Hselect & Hsl & Hslook).
  assert (forall v, 0 <= v < Z.of_nat (length (to_keep d)) ->
            np_get ren v = Ok (join_number first rest v)) as Hget.
  { intros v Hv. apply np_get_in_range; [lia|].
    rewrite Hren by lia. by rewrite Z2Nat.id by lia. }
  assert (np_take ren (labels closed) = Ok labels') as Htake.
  { apply np_take_map. intros v Hv. apply Hget.
    destruct Hclosed as (_ & _ & Hlab' & _). rewrite <- Hkeep_closed.
    by apply Hlab'. }
  assert (forall v, 0 <= v < Z.of_nat (length (to_keep d)) -> v ∉ rest ->
            join_number first rest v
            = Z.of_nat (np_count (take (Z.to_nat v) keep))) as Hjn.
  { intros v Hv Hnot. unfold join_number. rewrite decide_False by done.
    rewrite Hrank by lia. by rewrite Z2Nat.id by lia. }
  assert (forall v, 0 <= v < Z.of_nat (length (to_keep d)) -> v ∉ rest ->
            keep !! Z.to_nat v = Some true) as Hkept.
  { intros v Hv Hnot. rewrite Hkeep by lia. rewrite Z2Nat.id by lia.
    by rewrite bool_decide_eq_true_2. }
  assert (forall v, 0 <= v < Z.of_nat (length (to_keep d)) -> v ∉ rest ->
            0 <= join_number first rest v
                 < Z.of_nat (length (to_keep d) - length rest)) as Hjrange.
  { intros v Hv Hnot. rewrite (Hjn v Hv Hnot). split; [lia|].
    rewrite <- Hcount.
    pose proof (np_count_take_mono keep (S (Z.to_nat v)) (length keep) ltac:(lia))
      as Hmono.
    rewrite (take_S_r _ _ _ (Hkept v Hv Hnot)) in Hmono.
    rewrite (take_ge keep (length keep)) in Hmono by lia.
    unfold np_count in *. rewrite filter_app, length_app in Hmono.
    simpl in Hmono. lia. }
  exists to_keep'. split; [|split; [lia|split; [|split; [|split; [|split]]]]].
  - unfold join_objects. rewrite Hsel. rewrite decide_False.
    + fold closed. rewrite Hkeep_closed, Hjoin. simpl.
      rewrite Hselect. simpl. by rewrite Htake.
    + destruct rest; [done|simpl; lia].
  - intros v Hv Hnot. rewrite (Hjn v Hv Hnot), Nat2Z.id.
    destruct (lookup_lt_is_Some_2 (to_keep d) (Z.to_nat v) ltac:(lia)) as [b Hb].
    rewrite Hb. apply Hslook; [done|by apply Hkept].
  - intros v Hv. unfold join_number. rewrite decide_False.
    + rewrite filter_none; [simpl; lia|].
      intros r Hr. specialize (Hbelow r Hr). lia.
    + intros Hr. specialize (Hbelow v Hr). lia.
  - intros v w Hvw Hw Hv_not Hw_not.
    rewrite (Hjn v ltac:(lia) Hv_not), (Hjn w ltac:(lia) Hw_not).
    pose proof (np_count_take_mono keep (S (Z.to_nat v)) (Z.to_nat w) ltac:(lia))
      as Hmono.
    rewrite (take_S_r _ _ _ (Hkept v ltac:(lia) Hv_not)) in Hmono.
    unfold np_count in *. rewrite filter_app, length_app in Hmono.
    simpl in Hmono. lia.
  - intros v Hv. unfold labels' in Hv.
    apply elem_of_flatten in Hv as (row & Hrow & Hv).
    apply list_elem_of_fmap in Hrow as (row0 & -> & Hrow0).
    apply list_elem_of_fmap in Hv as (v0 & -> & Hv0).
    assert (0 <= v0 < Z.of_nat (length (to_keep d))) as Hv0r.
    { destruct Hclosed as (_ & _ & Hlab' & _). rewrite <- Hkeep_closed.
      apply Hlab', elem_of_flatten. eauto. }
    rewrite Hsl, Hcount.
    destruct (decide (v0 ∈ rest)) as [Hin|Hnot]; [|by apply Hjrange].
    unfold join_number. rewrite decide_True by done.
    assert (join_number first rest first = first) as Hff.
    { unfold join_number. rewrite decide_False by done.
      rewrite filter_none; [simpl; lia|].
      intros r Hr. specialize (Hbelow r Hr). lia. }
    rewrite <- Hff. apply Hjrange; [|done]. apply Hsel_range. left.
  - intros d' Hjoined.
    assert (join_objects d
            = make_control_points
                (with_labels (with_to_keep closed to_keep') labels') first) as Heq.
    { unfold join_objects. rewrite Hsel. rewrite decide_False.
      - fold closed. rewrite Hkeep_closed, Hjoin. simpl.
        rewrite Hselect. simpl. by rewrite Htake.
      - destruct rest; [done|simpl; lia]. }
    rewrite Heq in Hjoined.
    apply make_control_points_artists in Hjoined as (Htk & Hlb & Harts).
    split; [done|]. split; [done|].
    intros k a Hk. apply Harts in Hk as [Hk|Hk]; [|done]. simpl in Hk.
    apply foldl_close_label_artists in Hk as [Hk Hnot].
    destruct Hnot. rewrite <- Hsel. unfold selected_labels.
    apply elem_of_np_unique, list_elem_of_fmap. exists (k, a). split; [done|].
    by apply elem_of_map_to_list.
Qed.

Lemma join_objects_spec_witness :
  exists d0 d1 d d',
    init_dialog four_objects = Ok d0
    /\ make_control_points d0 2 = Ok d1
    /\ make_control_points d1 3 = Ok d
    /\ join_objects d = Ok d'
    /\ length (to_keep d') = 4%nat.
Proof.
  assert (exists d0 d1 d d',
    init_dialog four_objects = Ok d0
    /\ make_control_points d0 2 = Ok d1
    /\ make_control_points d1 3 = Ok d
    /\ join_objects d = Ok d'
    /\ length (to_keep d0) = 5%nat
    /\ length (to_keep d) = 5%nat
    /\ selected_labels d = [2; 3])
    as (d0 & d1 & d & d' & H0 & H1 & H2 & Hj & Hl0 & Hl & Hsel).
  { do 4 eexists.
    split; [vm_compute; reflexivity|]. split; [vm_compute; reflexivity|].
    split; [vm_compute; reflexivity|]. split; [vm_compute; reflexivity|].
    split; [vm_compute; reflexivity|]. split; vm_compute; reflexivity. }
  exists d0, d1, d, d'. repeat (split; [assumption|]).
  assert (keep_covers d) as Hcov.
  { assert (keep_covers d0) as Hc0.
    { apply (init_dialog_covers four_objects); [|done].
      intros v Hv.
      assert (forallb (Z.leb 0) (flatten four_objects) = true) as Hall
        by (vm_compute; reflexivity).
      rewrite forallb_forall in Hall. apply Z.leb_le, Hall.
      by apply list_elem_of_In. }
    assert (keep_covers d1) as Hc1.
    { apply (make_control_points_covers d0 2); [done|rewrite Hl0; lia|done]. }
    apply (make_control_points_covers d1 3); [done| |done].
    rewrite (make_control_points_to_keep _ _ _ H1), Hl0. lia. }
  destruct (join_objects_spec d Hcov) as [_ Hjoin].
  destruct (Hjoin 2 [3] Hsel ltac:(discriminate))
    as (to_keep' & _ & Hlen & _ & _ & _ & _ & Hd').
  destruct (Hd' d' Hj) as (_ & -> & _). rewrite Hlen, Hl. reflexivity.
Defined.

(** ** Upgrading saved settings *)

(** X13: the settings of a CellProfiler 1.0 pipeline (revision 2) upgrade
    only when there are exactly four of them; any other number raises
    [ValueError] at the tuple assignment.  The four values become seven:
    the two object names, whether outlines are wanted ([cps.NO] exactly when
    the outline name is [cps.DO_NOT_USE]), the outline name, the numbering
    choice normalised to Renumber or Retain (anything but the text Renumber
    is Retain), and the two values of the guiding image, [cps.NO] and
    None. *)
Theorem upgrade_from_matlab_spec (DO_NOT_USE YES NO : string)
    (setting_values : list string) :
  (length setting_values ≠ 4%nat ->
   upgrade_settings DO_NOT_USE YES NO setting_values 2 true = Raise ValueError)
  /\ forall object filtered outlines renumber,
       setting_values = [object; filtered; outlines; renumber] ->
       exists wants choice,
         upgrade_settings DO_NOT_USE YES NO setting_values 2 true
         = Ok ([object; filtered; wants; outlines; choice_text choice; NO; "None"],
               2, false)
         /\ (outlines = DO_NOT_USE -> wants = NO)
         /\ (outlines ≠ DO_NOT_USE -> wants = YES)
         /\ (choice = R_RENUMBER ↔ renumber = "Renumber").
Proof.
  split.
  - intros Hlen. unfold upgrade_settings, upgrade_from_matlab. simpl.
    destruct setting_values as [|a [|b [|c [|e [|f l]]]]]; try done.
  - intros object filtered outlines renumber ->.
    unfold upgrade_settings, upgrade_from_matlab. simpl.
    exists (if String.eqb outlines DO_NOT_USE then NO else YES),
           (if String.eqb renumber "Renumber" then R_RENUMBER else R_RETAIN).
    split; [by destruct (String.eqb renumber "Renumber")|].
    destruct (String.eqb_spec outlines DO_NOT_USE);
      destruct (String.eqb_spec renumber "Renumber"); repeat split; done.
Qed.

Lemma upgrade_from_matlab_spec_witness :
  upgrade_settings "Do not use" "Yes" "No" ["Nuclei"; "Edited"; "Outlines"] 2 true
  = Raise ValueError.
Proof.
  apply (upgrade_from_matlab_spec "Do not use" "Yes" "No"
           ["Nuclei"; "Edited"; "Outlines"]).
  simpl. lia.
Defined.

(** X14: settings saved in one of the known formats (four values of a
    CellProfiler 1.0 pipeline at revision 2, five values of revision 1,
    seven values of revision 2) upgrade to the current revision of the
    module with one value for each of its settings, not marked as Matlab
    settings.  The names of the objects stay in the first two places, and
    the values of a pipeline of this module are kept, the new ones added
    at the end. *)
Theorem upgrade_settings_current (DO_NOT_USE YES NO : string)
    (setting_values : list string) (revision : Z) (from_matlab : bool) :
  (from_matlab = true /\ revision = 2 /\ length setting_values = 4%nat)
  \/ (from_matlab = false /\ revision = 1 /\ length setting_values = 5%nat)
  \/ (from_matlab = false /\ revision = 2 /\ length setting_values = 7%nat) ->
  exists upgraded,
    upgrade_settings DO_NOT_USE YES NO setting_values revision from_matlab
    = Ok (upgraded, variable_revision_number, false)
    /\ length upgraded = length settings
    /\ upgraded !! 0%nat = setting_values !! 0%nat
    /\ upgraded !! 1%nat = setting_values !! 1%nat
    /\ (from_matlab = false ->
        take (length setting_values) upgraded = setting_values).
Proof.
  unfold upgrade_settings, upgrade_from_matlab.
  intros [(-> & -> & Hlen)|[(-> & -> & Hlen)|(-> & -> & Hlen)]]; simpl.
  - destruct setting_values as [|a [|b [|c [|e [|f l]]]]]; try done.
    simpl. eexists. split; [reflexivity|]. repeat split; done.
  - eexists. split; [reflexivity|]. split; [|split; [|split]].
    + by rewrite length_app, Hlen.
    + by destruct setting_values.
    + by destruct setting_values as [|a [|b l]].
    + intros _. by rewrite take_app_length.
  - eexists. split; [reflexivity|]. split; [by rewrite Hlen|].
    repeat split; try done. intros _. by rewrite firstn_all.
Qed.

Lemma upgrade_settings_current_witness :
  exists upgraded,
    upgrade_settings "Do not use" "Yes" "No"
      ["Nuclei"; "Edited"; "No"; "Outlines"; "Retain"] 1 false
    = Ok (upgraded, variable_revision_number, false)
    /\ length upgraded = 7%nat.
Proof.
  destruct (upgrade_settings_current "Do not use" "Yes" "No"
              ["Nuclei"; "Edited"; "No"; "Outlines"; "Retain"] 1 false)
    as (upgraded & Hup & Hlen & _).
  - right. left. repeat split; reflexivity.
  - exists upgraded. split; [exact Hup|exact Hlen].
Defined.

(** X15: upgrading is idempotent: settings that [upgrade_settings] returns
    are returned unchanged, with their revision number and flag, when they
    are upgraded again. *)
Theorem upgrade_settings_idempotent (DO_NOT_USE YES NO : string)
    (setting_values upgraded : list string)
    (revision revision' : Z) (from_matlab from_matlab' : bool) :
  upgrade_settings DO_NOT_USE YES NO setting_values revision from_matlab
  = Ok (upgraded, revision', from_matlab') ->
  upgrade_settings DO_NOT_USE YES NO upgraded revision' from_matlab'
  = Ok (upgraded, revision', from_matlab').
Proof.
  unfold upgrade_settings, upgrade_from_matlab.
  destruct from_matlab; simpl.
  - destruct (Z.eqb_spec revision 2) as [->|Hne]; simpl.
    + destruct setting_values as [|a [|b [|c [|e [|f l]]]]]; try done.
      simpl. by intros [= <- <- <-].
    + intros [= <- <- <-]. simpl.
      destruct (Z.eqb_spec revision 2); [done|]. done.
  - destruct (Z.eqb_spec revision 1) as [->|Hne]; simpl.
    + by intros [= <- <- <-].
    + intros [= <- <- <-]. simpl.
      destruct (Z.eqb_spec revision 1); [done|]. done.
Qed.

Lemma upgrade_settings_idempotent_witness :
  upgrade_settings "Do not use" "Yes" "No"
    ["Nuclei"; "Edited"; "No"; "Outlines"; "Retain"; "No"; "None"] 2 false
  = Ok (["Nuclei"; "Edited"; "No"; "Outlines"; "Retain"; "No"; "None"], 2, false).
Proof.
  apply (upgrade_settings_idempotent "Do not use" "Yes" "No"
           ["Nuclei"; "Edited"; "No"; "Outlines"; "Retain"]
           ["Nuclei"; "Edited"; "No"; "Outlines"; "Retain"; "No"; "None"]
           1 2 false false).
  reflexivity.
Defined.

(** ** Which chains are closed *)

Lemma head_every {A} (k : nat) (l : list A) : head (every k l) = head l.
Proof. by destruct l. Qed.

Lemma head_rev_last {A} (l : list A) : head (rev l) = last l.
Proof.
  induction l as [|x l IH]; [done|]. simpl rev.
  rewrite head_snoc, IH, last_cons. by destruct (last l).
Qed.

Lemma head_finish_chain polarity (chain : list (Z * Z)) ic jc :
  chain ≠ [] ->
  head (finish_chain polarity chain ic jc)
  = if polarity then head chain else last chain.
Proof.
  intros Hne. unfold finish_chain.
  set (wound := if polarity then chain else rev chain).
  assert (head wound = if polarity then head chain else last chain) as <-.
  { unfold wound. destruct polarity; [done|]. apply head_rev_last. }
  assert (wound ≠ []) as Hw.
  { unfold wound. destruct polarity; [done|].
    intros Hr. apply (f_equal length) in Hr. rewrite length_rev in Hr.
    by destruct chain. }
  destruct (decide _).
  - rewrite head_app, head_every. by destruct wound.
  - rewrite head_app. by destruct wound.
Qed.

(** X16: a traced chain ends with its closing point, the start pixel of the
    walk.  An outer chain also begins with it, so it is a closed polygon.
    A hole chain is reversed before the closing point is added: it begins
    with the last pixel of the walk, which is one of the 8 neighbours of
    the start pixel and not the start pixel, so its first and last points
    differ. *)
Theorem chain_closure (fuel : nat) (polarity : bool) (mask : Mask)
    (start_i start_j direction : Z) (chain : list (Z * Z)) :
  np_get2 mask start_i start_j = Ok true ->
  walk fuel polarity mask start_i start_j start_i start_j direction [] = Ok chain ->
  last chain = Some (start_i - 1, start_j - 1)
  /\ if polarity then head chain = Some (start_i - 1, start_j - 1)
     else exists p, head chain = Some p
                    /\ adjacent8 p (start_i - 1, start_j - 1)
                    /\ p ≠ (start_i - 1, start_j - 1).
Proof.
  intros Hstart Hw. split; [by eapply walk_closing|].
  destruct (walk_path _ _ _ _ _ _ _ _ _ _ Hstart Hw) as (tail & -> & _ & Hadj).
  simpl. rewrite head_finish_chain by done. destruct polarity; [done|].
  destruct (last ((start_i - 1, start_j - 1) :: tail)) as [p|] eqn:Hlast.
  - exists p. split; [done|].
    assert (adjacent8 p (start_i - 1, start_j - 1)) as Hp.
    { apply (Hadj (length tail) p); [by rewrite last_lookup in Hlast|].
      by rewrite lookup_app_r, Nat.sub_diag. }
    split; [done|]. intros ->. unfold adjacent8 in Hp. simpl in Hp. lia.
  - by rewrite last_cons in Hlast; destruct (last tail).
Qed.

Lemma chain_closure_witness :
  exists chain p,
    walk 24 false (eq_mask [[0; 0; 0; 0]; [0; 1; 1; 0]; [0; 1; 0; 0]; [0; 0; 0; 0]] 1)
         1 1 1 1 2 [] = Ok chain
    /\ head chain = Some p /\ p ≠ (0, 0).
Proof.
  assert (exists chain,
    walk 24 false (eq_mask [[0; 0; 0; 0]; [0; 1; 1; 0]; [0; 1; 0; 0]; [0; 0; 0; 0]] 1)
         1 1 1 1 2 [] = Ok chain) as [chain Hchain].
  { vm_compute. eexists. reflexivity. }
  destruct (chain_closure 24 false
              (eq_mask [[0; 0; 0; 0]; [0; 1; 1; 0]; [0; 1; 0; 0]; [0; 0; 0; 0]] 1)
              1 1 2 chain) as (_ & p & Hhead & _ & Hne).
  - vm_compute. reflexivity.
  - exact Hchain.
  - exists chain, p. split; [exact Hchain|]. split; [exact Hhead|exact Hne].
Defined.
